(** * The Stranger's Ledger: a reading tracker, verified against its description

    A shallow embedding of [app.py]: the record normaliser
    [_ensure_defaults], the admin login, the four tabs of the page with
    their write handlers, the library filter and the recommendation
    prompt builder, followed by the properties its description states.

    Modelling choices.
    - A record is a Python [dict] with string keys; it is a [gmap string
      pyval].  Field values are the JSON values the application itself
      writes: [None], booleans, integers, strings and lists.  Floats and
      nested objects are outside the model.
    - A Python [str] is a [string] whose characters are code points
      below 256.  On that range [strip], [lower], [int] and the order
      used by [sorted] are defined exactly as the interpreter computes
      them.
    - Raising is explicit: fallible code lives in the [exc] monad.
    - The clock and the UUID generator are read by the caller and passed
      in; the text-generation service is an oracle from prompts to
      outcomes.
    - The script runs once per interaction, caused by at most one
      button; what the widgets return is an input of the run.  Drawing
      the page between the modelled fragments writes nothing: it can
      only stop a run early. *)

From Stdlib Require Import ZArith String Ascii List Lia DecimalString.
From stdpp Require Import base option gmap strings list sorting fin_maps.

Local Open Scope string_scope.
Local Open Scope Z_scope.

(** ** Python values and exceptions *)

(** The values of a record's fields: those of JSON that the application
    writes.  A float and a nested object, which a file edited by hand
    can hold, are not values of this type; a statement about every
    [pyval] says nothing of them. *)
Inductive pyval : Type :=
| VNone
| VBool (b : bool)
| VInt (z : Z)
| VStr (s : string)
| VList (l : list pyval).

(** A Python [dict] with string keys: a book record, or the secrets. *)
Abbreviation dict := (gmap string pyval).

Inductive exn : Type :=
| KeyError (k : string)
| TypeError
| ValueError
| AttributeError
| StreamlitAPIException
| RerunException.

Inductive exc (A : Type) : Type :=
| Ok (a : A)
| Raise (e : exn).
Arguments Ok {A} a.
Arguments Raise {A} e.

#[global] Instance exc_ret : MRet exc := λ A a, Ok a.
#[global] Instance exc_bind : MBind exc := λ A B f m,
  match m with Ok a => f a | Raise e => Raise e end.
#[global] Instance exc_fmap : FMap exc := λ A B f m,
  match m with Ok a => Ok (f a) | Raise e => Raise e end.

(** [d[k]]: a missing key raises [KeyError]. *)
Definition getitem (d : dict) (k : string) : exc pyval :=
  match d !! k with Some v => Ok v | None => Raise (KeyError k) end.

(** [d.get(k, dflt)]. *)
Definition get_or (d : dict) (k : string) (dflt : pyval) : pyval :=
  default dflt (d !! k).

(** [d.get(k)]: [None] when the key is missing. *)
Definition get (d : dict) (k : string) : pyval := get_or d k VNone.

(** Truth value of an object, as [if], [or], [and] and [bool()] use it. *)
Definition truthy (v : pyval) : bool :=
  match v with
  | VNone => false
  | VBool b => b
  | VInt z => negb (z =? 0)
  | VStr s => negb (String.eqb s "")
  | VList l => match l with [] => false | _ => true end
  end.

(** [a or b]. *)
Definition py_or (a b : pyval) : pyval := if truthy a then a else b.

(** [v == s] for a string [s]: only an equal string compares equal. *)
Definition eq_str (v : pyval) (s : string) : bool :=
  match v with VStr t => String.eqb t s | _ => false end.

(** ** Strings *)

Definition code (c : ascii) : N := N_of_ascii c.

(** [str.isspace] on one character: the white space [strip] removes. *)
Definition is_space (c : ascii) : bool :=
  let n := code c in
  ((9 <=? n) && (n <=? 13) || (28 <=? n) && (n <=? 32)
   || (n =? 133) || (n =? 160))%N.

Fixpoint lstrip (s : string) : string :=
  match s with
  | EmptyString => EmptyString
  | String c r => if is_space c then lstrip r else s
  end.

Fixpoint rstrip (s : string) : string :=
  match s with
  | EmptyString => EmptyString
  | String c r =>
      match rstrip r with
      | EmptyString => if is_space c then EmptyString else String c EmptyString
      | r' => String c r'
      end
  end.

(** [s.strip()]. *)
Definition strip (s : string) : string := rstrip (lstrip s).

Definition lower_char (c : ascii) : ascii :=
  let n := code c in
  if ((65 <=? n) && (n <=? 90)
      || (192 <=? n) && (n <=? 222) && negb (n =? 215))%N
  then ascii_of_N (n + 32) else c.

(** [s.lower()]. *)
Fixpoint lower (s : string) : string :=
  match s with
  | EmptyString => EmptyString
  | String c r => String (lower_char c) (lower r)
  end.

(** [s.split(sep)] for a one-character separator. *)
Fixpoint split (sep : ascii) (s : string) : list string :=
  match s with
  | EmptyString => [EmptyString]
  | String c r =>
      if Ascii.eqb c sep then EmptyString :: split sep r
      else match split sep r with
           | h :: t => String c h :: t
           | [] => [String c EmptyString]
           end
  end.

Fixpoint starts_with (p s : string) : bool :=
  match p, s with
  | EmptyString, _ => true
  | String a p', String b s' => Ascii.eqb a b && starts_with p' s'
  | String _ _, EmptyString => false
  end.

(** [sub in s] on strings. *)
Fixpoint str_in (sub s : string) : bool :=
  starts_with sub s
  || match s with
     | EmptyString => false
     | String _ r => str_in sub r
     end.

Definition as_str (e : exn) (v : pyval) : exc string :=
  match v with VStr s => Ok s | _ => Raise e end.

(** Iterating a value: a list yields its items, a string its characters;
    nothing else in the model is iterable. *)
Definition py_iter (v : pyval) : exc (list pyval) :=
  match v with
  | VList l => Ok l
  | VStr s => Ok ((λ c, VStr (String c EmptyString)) <$> list_ascii_of_string s)
  | _ => Raise TypeError
  end.

(** [sep.join(v)]: every item has to be a string. *)
Definition join (sep : string) (v : pyval) : exc string :=
  items ← py_iter v;
  strs ← mapM (as_str TypeError) items;
  Ok (String.concat sep strs).

(** ** [int()] *)

(** White space [int] skips around a numeral. *)
Definition is_int_space (c : ascii) : bool :=
  let n := code c in
  ((9 <=? n) && (n <=? 13) || (n =? 32) || (n =? 133) || (n =? 160))%N.

Definition digit_of (c : ascii) : option Z :=
  let n := code c in
  if ((48 <=? n) && (n <=? 57))%N then Some (Z.of_N n - 48) else None.

Definition underscore : ascii := "_"%char.

(** Digits of a numeral, most significant first; a single underscore
    may separate two digits.  [after_digit] tells whether the previous
    character was a digit. *)
Fixpoint numeral_digits (after_digit : bool) (s : string) : option (list Z) :=
  match s with
  | EmptyString => if after_digit then Some [] else None
  | String c r =>
      match digit_of c with
      | Some d => cons d <$> numeral_digits true r
      | None =>
          if Ascii.eqb c underscore && after_digit then
            match r with
            | EmptyString => None
            | String c' _ =>
                match digit_of c' with
                | Some _ => numeral_digits false r
                | None => None
                end
            end
          else None
      end
  end.

Definition digits_value (ds : list Z) : Z :=
  fold_left (λ acc d, 10 * acc + d) ds 0.

(** The interpreter's default limit on the length of a decimal numeral. *)
Definition int_max_str_digits : nat := 4300.

Fixpoint int_lstrip (s : string) : string :=
  match s with
  | EmptyString => EmptyString
  | String c r => if is_int_space c then int_lstrip r else s
  end.

Fixpoint int_rstrip (s : string) : string :=
  match s with
  | EmptyString => EmptyString
  | String c r =>
      match int_rstrip r with
      | EmptyString => if is_int_space c then EmptyString else String c EmptyString
      | r' => String c r'
      end
  end.

(** [int(s)] for a string, base ten. *)
Definition int_of_str (s : string) : exc Z :=
  let body := int_rstrip (int_lstrip s) in
  let '(neg, num) :=
    match body with
    | String "-" r => (true, r)
    | String "+" r => (false, r)
    | _ => (false, body)
    end in
  match numeral_digits false num with
  | Some ds =>
      if decide (int_max_str_digits < length ds)%nat then Raise ValueError
      else Ok (if neg : bool then - digits_value ds else digits_value ds)
  | None => Raise ValueError
  end.

(** [int(v)]. *)
Definition py_int (v : pyval) : exc Z :=
  match v with
  | VInt z => Ok z
  | VBool b => Ok (if b then 1 else 0)
  | VStr s => int_of_str s
  | VNone | VList _ => Raise TypeError
  end.

(** ** The record normaliser *)

(** What [_ensure_defaults] reads from its environment: one UUID and the
    clock, twice. *)
Record stamp : Type := Stamp {
  fresh_id : string;
  now_created : string;
  now_updated : string
}.

Definition defaults (e : stamp) : dict :=
  <["id" := VStr (fresh_id e)]>
  (<["title" := VStr ""]>
  (<["author" := VStr ""]>
  (<["status" := VStr "to_read"]>
  (<["progress" := VInt 0]>
  (<["favorite" := VBool false]>
  (<["tags" := VList []]>
  (<["cover_path" := VNone]>
  (<["rating" := VNone]>
  (<["notes" := VStr ""]>
  (<["created_at" := VStr (now_created e)]>
  (<["updated_at" := VStr (now_updated e)]> ∅))))))))))).

Definition strip_of (v : pyval) : exc string := strip <$> as_str AttributeError v.

Definition nonempty (s : string) : bool := negb (String.eqb s "").

(** [{t.strip() for t in v if t.strip()}]. *)
Definition tag_set (v : pyval) : exc (gset string) :=
  items ← py_iter v;
  stripped ← mapM strip_of items;
  Ok (list_to_set (List.filter nonempty stripped)).

(** [sorted(list(s))] on a set of strings. *)
Definition sorted (s : gset string) : list string :=
  merge_sort String.le (elements s).

Definition clamp (n : Z) : Z := Z.max 0 (Z.min 100 n).

Definition _ensure_defaults (e : stamp) (b : dict) : exc dict :=
  let merged := b ∪ defaults e in
  tags ← tag_set (get_or merged "tags" (VList []));
  let merged := <["tags" := VList (VStr <$> sorted tags)]> merged in
  n ← py_int (py_or (get_or merged "progress" (VInt 0)) (VInt 0));
  let merged := <["progress" := VInt (clamp n)]> merged in
  if 100 <=? clamp n
  then Ok (<["status" := VStr "read"]> merged)
  else Ok merged.


(** ** Equality and printing of values *)

(** [a == b]: booleans compare as the integers 0 and 1, lists item by
    item. *)
Fixpoint val_eq (a b : pyval) : bool :=
  match a, b with
  | VNone, VNone => true
  | VBool x, VBool y => Bool.eqb x y
  | VBool x, VInt y | VInt y, VBool x => (if x then 1 else 0) =? y
  | VInt x, VInt y => x =? y
  | VStr x, VStr y => String.eqb x y
  | VList x, VList y =>
      (fix go (x y : list pyval) : bool :=
         match x, y with
         | [], [] => true
         | u :: x', v :: y' => val_eq u v && go x' y'
         | _, _ => false
         end) x y
  | _, _ => false
  end.

(** [a == b] on two dicts: as many keys, and every key of [a] is in [b]
    with an equal value. *)
Definition dict_eq (a b : dict) : bool :=
  (size a =? size b)%nat
  && forallb (λ kv, match b !! kv.1 with
                    | Some v => val_eq kv.2 v
                    | None => false
                    end) (map_to_list a).

Definition str_of_Z (z : Z) : string := NilZero.string_of_int (Z.to_int z).

Definition hex_digit (n : N) : ascii :=
  if (n <? 10)%N then ascii_of_N (48 + n) else ascii_of_N (87 + n).

Definition printable (c : ascii) : bool :=
  let n := code c in
  ((32 <=? n) && (n <=? 126) || (161 <=? n) && negb (n =? 173))%N.

Definition has_char (c : ascii) (s : string) : bool :=
  existsb (Ascii.eqb c) (list_ascii_of_string s).

Definition backslash : ascii := ascii_of_N 92.
Definition single_quote : ascii := ascii_of_N 39.
Definition double_quote : ascii := ascii_of_N 34.

Definition escape (c : ascii) : string := String backslash (String c "").

Definition repr_char (quote c : ascii) : string :=
  let n := code c in
  if Ascii.eqb c backslash || Ascii.eqb c quote then escape c
  else if (n =? 9)%N then escape "t"
  else if (n =? 10)%N then escape "n"
  else if (n =? 13)%N then escape "r"
  else if printable c then String c ""
  else String backslash
         (String "x" (String (hex_digit (n / 16)) (String (hex_digit (n mod 16)) ""))).

(** [repr(s)] of a string. *)
Definition repr_str (s : string) : string :=
  let quote :=
    if has_char single_quote s && negb (has_char double_quote s)
    then double_quote else single_quote in
  String quote
    (String.concat "" (repr_char quote <$> list_ascii_of_string s)
     ++ String quote "").

(** [repr(v)]. *)
Fixpoint py_repr (v : pyval) : string :=
  match v with
  | VNone => "None"
  | VBool b => if b then "True" else "False"
  | VInt z => str_of_Z z
  | VStr s => repr_str s
  | VList l =>
      "[" ++ String.concat ", "
               ((fix go (l : list pyval) : list string :=
                   match l with
                   | [] => []
                   | x :: r => py_repr x :: go r
                   end) l) ++ "]"
  end.

(** [str(v)], which is what an f-string field prints. *)
Definition py_str (v : pyval) : string :=
  match v with VStr s => s | _ => py_repr v end.

(** ** The page: state, effects and what is shown *)

Inductive notice : Type :=
| Success (s : string)
| Info (s : string)
| Error (s : string)
| Warning (s : string)
| Caption (s : string)
| Markdown (s : string)
| Code (s : string).

(** What outlives one run of the script: the session flag, the JSON
    file ([None] when it is absent or does not parse) and the
    recommendation log.  [screen] collects what the current run shows. *)
Record machine : Type := Machine {
  can_edit : bool;
  books_db : option (list dict);
  reco_log : list string;
  screen : list notice
}.

(** A step of the script: it may change the machine and may raise; what
    was written before a raise stays written. *)
Definition act (A : Type) : Type := machine → exc A * machine.

Definition pure {A} (a : A) : act A := λ m, (Ok a, m).

Definition andthen {A B} (c : act A) (k : A → act B) : act B := λ m,
  match c m with
  | (Ok a, m') => k a m'
  | (Raise e, m') => (Raise e, m')
  end.

Notation "x ↤ c ;; k" := (andthen c (λ x, k))
  (at level 100, c at next level, k at level 200, right associativity).
Notation "c ;;; k" := (andthen c (λ _, k))
  (at level 100, k at level 200, right associativity).

Definition lift {A} (x : exc A) : act A := λ m, (x, m).

Definition say (n : notice) : act unit := λ m,
  (Ok tt, Machine (can_edit m) (books_db m) (reco_log m) (screen m ++ [n])).

Definition set_can_edit (b : bool) : act unit := λ m,
  (Ok tt, Machine b (books_db m) (reco_log m) (screen m)).

Definition _load_db : act (list dict) := λ m,
  (Ok (default [] (books_db m)), m).

Definition _save_db (db : list dict) : act unit := λ m,
  (Ok tt, Machine (can_edit m) (Some db) (reco_log m) (screen m)).

Definition append_log (entry : string) : act unit := λ m,
  (Ok tt, Machine (can_edit m) (books_db m) (reco_log m ++ [entry]) (screen m)).

(** A list comprehension [[x for x in l if p(x)]] whose condition may
    raise. *)
Fixpoint select {A} (p : A → exc bool) (l : list A) : exc (list A) :=
  match l with
  | [] => Ok []
  | x :: r =>
      keep ← p x;
      rest ← select p r;
      Ok (if keep : bool then x :: rest else rest)
  end.

(** A [for] loop over [l] whose body updates the collection in place. *)
Fixpoint for_each {A} (l : list A) (body : A → list dict → act (list dict))
    (db : list dict) : act (list dict) :=
  match l with
  | [] => pure db
  | x :: r => db' ↤ body x db;; for_each r body db'
  end.

(** [b["status"] == s]. *)
Definition status_is (s : string) (b : dict) : exc bool :=
  v ← getitem b "status";
  Ok (eq_str v s).

(** The collection with its positions: position [i] stands for the dict
    object stored at [db[i]]. *)
Definition enumerate (db : list dict) : list (nat * dict) :=
  imap (λ i b, (i, b)) db.

Definition _find_by_id (db : list dict) (bid : string) : exc (option dict) :=
  (fix go (l : list dict) : exc (option dict) :=
     match l with
     | [] => Ok None
     | x :: r =>
         v ← getitem x "id";
         if eq_str v bid then Ok (Some x) else go r
     end) db.

(** [db.remove(b)]: drops the first item equal to [b]. *)
Fixpoint list_remove (b : dict) (l : list dict) : exc (list dict) :=
  match l with
  | [] => Raise ValueError
  | x :: r => if dict_eq x b then Ok r else cons x <$> list_remove b r
  end.

(** ** What one run receives *)

(** The sidebar search widgets. *)
Record filters : Type := Filters {
  q : string;
  tag_filter : string;
  fav_only : bool;
  status_pick : string
}.

(** The Add/Update form at the moment Save is pressed.  [selected_id] is
    what the page extracted from the chosen entry; [rating] is the value
    the user gave the rating box, if any; [cover_file] is the path under
    which an uploaded cover was stored; [remove_cover] is the tick of
    the box shown next to an existing cover.  The other fields are what
    their boxes returned: of the boxes only the rating box is modelled
    down to its default.  The cover directory is not part of the state. *)
Record form : Type := Form {
  selected_id : option string;
  title : string;
  author : string;
  status : string;
  progress : Z;
  favorite : bool;
  rating : option Z;
  tags : string;
  notes : string;
  cover_file : option string;
  remove_cover : bool
}.

Record quick : Type := Quick {
  new_fav : bool;
  new_status : string;
  new_rating : Z;
  new_tags : string
}.

Record reco : Type := Reco {
  want_n : Z;
  focus_tags : string;
  only_favs : bool
}.

(** The button a run was triggered by.  A record is named by its
    position in the collection. *)
Inductive click : Type :=
| NoClick
| LoginBtn
| FormSave (f : form)
| UpdateBtn (i : nat) (new_prog : Z)
| QuickSave (i : nat) (k : quick)
| DeleteBtn (i : nat)
| GenerateBtn (g : reco)
| SaveRecoBtn.

Record request : Type := Request {
  pwd : string;
  search : filters;
  pressed : click
}.

(** What a run reads from outside: the secrets, the clock, fresh UUIDs
    and the text-generation service, which answers a prompt with a text
    or raises with a message. *)
Record environment : Type := Environment {
  secrets : dict;
  now : string;
  uuid4 : string;
  stamps : stamp;
  service : string → string + string
}.

(** ** Admin login *)

(** [pwd and pwd == st.secrets.get("ADMIN_PASS", "")] *)
Definition password_ok (e : environment) (pwd : string) : bool :=
  nonempty pwd && eq_str (get_or (secrets e) "ADMIN_PASS" (VStr "")) pwd.

Definition login (e : environment) (r : request) : act bool :=
  (match pressed r with
   | LoginBtn =>
       if password_ok e (pwd r)
       then set_can_edit true ;;; say (Success "Admin mode enabled.")
       else set_can_edit false ;;; say (Error "Wrong password.")
   | _ => pure tt
   end) ;;;
  (λ m, (Ok (can_edit m), m)).

(** ** Sidebar totals *)

Definition overview (db : list dict) : exc (nat * nat * nat * nat) :=
  reading ← select (status_is "reading") db;
  read ← select (status_is "read") db;
  to_read ← select (status_is "to_read") db;
  Ok (length db, length reading, length read, length to_read).

(** ** Add / Update tab *)

(** [st.number_input(min_value, max_value, value)]: a default outside
    the bounds is refused; the box returns what the user entered, or
    the default. *)
Definition number_input (lo hi value : Z) (user : option Z) : exc Z :=
  if (value <? lo) || (hi <? value) then Raise StreamlitAPIException
  else Ok (default value user).

(** The rating box of the form. *)
Definition rating_input (init : dict) (user : option Z) : exc Z :=
  value ← py_int (py_or (get init "rating") (VInt 7));
  number_input 1 10 value user.

(** [[t.strip() for t in s.split(",") if t.strip()]]. *)
Definition parse_tags (s : string) : list string :=
  List.filter nonempty (strip <$> split "," s).

Definition tags_val (s : string) : pyval := VList (VStr <$> parse_tags s).

Definition form_init (db : list dict) (sel : option string) : exc dict :=
  match sel with
  | Some sid =>
      if nonempty sid then
        cur ← _find_by_id db sid;
        Ok (match cur with
            | Some c => if (size c =? 0)%nat then ∅ else c
            | None => ∅
            end)
      else Ok ∅
  | None => Ok ∅
  end.

Definition rating_val (n : Z) : pyval := if n =? 0 then VNone else VInt n.

(** The dict the Save handler builds from the form. *)
Definition form_book (e : environment) (f : form) (init : dict) (rated : Z) : dict :=
  let book : dict :=
    <["id" := get_or init "id" (VStr (uuid4 e))]>
    (<["title" := VStr (strip (title f))]>
    (<["author" := VStr (strip (author f))]>
    (<["status" := VStr (status f)]>
    (<["progress" := VInt (progress f)]>
    (<["favorite" := VBool (favorite f)]>
    (<["rating" := rating_val rated]>
    (<["tags" := tags_val (tags f)]>
    (<["notes" := VStr (strip (notes f))]>
    (<["updated_at" := VStr (now e)]> ∅))))))))) in
  let book :=
    match cover_file f with
    | Some save_path => <["cover_path" := VStr save_path]> book
    | None =>
        if truthy (get init "cover_path")
        then <["cover_path" := get init "cover_path"]> book
        else book
    end in
  if 100 <=? progress f then <["status" := VStr "read"]> book else book.

(** The loop that replaces the first record carrying the selected id. *)
Fixpoint update_by_id (st : stamp) (sid : string) (book : dict)
    (db : list dict) : exc (list dict) :=
  match db with
  | [] => Ok []
  | b :: r =>
      v ← getitem b "id";
      if eq_str v sid then
        nb ← _ensure_defaults st (book ∪ b);
        Ok (nb :: r)
      else cons b <$> update_by_id st sid book r
  end.

Definition selected (sel : option string) : option string :=
  match sel with
  | Some sid => if nonempty sid then Some sid else None
  | None => None
  end.

(** The Save handler of the form. *)
Definition submit (e : environment) (f : form) (init : dict) (rated : Z)
    (db : list dict) : act (list dict) :=
  if negb (nonempty (strip (title f))) then
    say (Error "Title is required.") ;;; pure db
  else
    let book := form_book e f init rated in
    db ↤ match selected (selected_id f) with
         | Some sid =>
             db ↤ lift (update_by_id (stamps e) sid book db);;
             say (Success "Record updated ✅") ;;; pure db
         | None =>
             nb ↤ lift (_ensure_defaults (stamps e) book);;
             say (Success "New book added ✅") ;;; pure (db ++ [nb])%list
         end;;
    _save_db db ;;; pure db.

(** The tick of "Remove current cover", a box that is shown only next
    to an existing cover: [init["cover_path"] = None]. *)
Definition drop_cover (f : form) (init : dict) : dict :=
  if truthy (get init "cover_path") && remove_cover f
  then <["cover_path" := VNone]> init else init.

Definition book_form (e : environment) (CAN_EDIT : bool) (c : click)
    (db : list dict) : act (list dict) :=
  if negb CAN_EDIT then
    say (Info "View-only mode. Login as admin to add or edit books.") ;;; pure db
  else
    match c with
    | FormSave f =>
        init ↤ lift (form_init db (selected_id f));;
        rated ↤ lift (rating_input init (rating f));;
        submit e f (drop_cover f init) rated db
    | _ => pure db
    end.

(** ** Currently Reading tab *)

(** The Update handler of one card; [b] is the object at [db[j]]. *)
Definition update_progress (e : environment) (j : nat) (b : dict)
    (new_prog : Z) (db : list dict) : act (list dict) :=
  let b := <["progress" := VInt new_prog]> b in
  let b := if 100 <=? new_prog then <["status" := VStr "read"]> b else b in
  let b := <["updated_at" := VStr (now e)]> b in
  let db := <[j := b]> db in
  _save_db db ;;; say (Success "Updated!") ;;; pure db.

(** The tab.  Of a card, the Update button and the caption are
    modelled.  Its heading, its slider, its cover and its progress bar
    are not: they write nothing, and where they raise (a record without
    a title, a progress that is not a number, a cover path that is not a
    text) the run stops before the cards that follow.  The definition
    says what a run can write to the file; that a run reaches a handler
    it does not say. *)
Definition currently_reading (e : environment) (CAN_EDIT : bool) (c : click)
    (db : list dict) : act (list dict) :=
  reading ↤ lift (select (λ ib, status_is "reading" ib.2) (enumerate db));;
  match reading with
  | [] =>
      say (Info "No books are marked as 'reading'. Use the Add/Update tab to set one.") ;;;
      pure db
  | _ =>
      for_each reading (λ ib db,
        match c with
        | UpdateBtn i new_prog =>
            if CAN_EDIT && (i =? ib.1)%nat
            then update_progress e ib.1 ib.2 new_prog db
            else if negb CAN_EDIT
                 then say (Caption "Login as admin to update.") ;;; pure db
                 else pure db
        | _ =>
            if negb CAN_EDIT
            then say (Caption "Login as admin to update.") ;;; pure db
            else pure db
        end) db
  end.

(** ** Library tab: filter, quick edit, delete *)

(** [qlow in b["title"].lower() or qlow in (b["author"] or "").lower()] *)
Definition match_text (qlow : string) (b : dict) : exc bool :=
  t ← getitem b "title";
  tl ← lower <$> as_str AttributeError t;
  if str_in qlow tl then Ok true
  else
    a ← getitem b "author";
    al ← lower <$> as_str AttributeError (py_or a (VStr ""));
    Ok (str_in qlow al).

(** [{t.strip().lower() for t in tag_filter.split(",") if t.strip()}] *)
Definition wanted_tags (tag_filter : string) : gset string :=
  list_to_set (lower <$> parse_tags tag_filter).

(** [{t.lower() for t in b.get("tags", [])}] *)
Definition lower_tags (b : dict) : exc (gset string) :=
  items ← py_iter (get_or b "tags" (VList []));
  ls ← mapM (λ t, lower <$> as_str AttributeError t) items;
  Ok (list_to_set ls).

Definition match_tags (wanted : gset string) (b : dict) : exc bool :=
  have ← lower_tags b;
  Ok (bool_decide (wanted ⊆ have)).

(** The four filters of the Library tab, one after the other.  The
    items are of any type that shows a record, so that the tab can keep
    track of which object each surviving item is. *)
Definition library_filter {A} (view : A → dict) (f : filters) (l : list A)
    : exc (list A) :=
  filtered ← (if nonempty (q f)
              then select (λ x, match_text (lower (strip (q f))) (view x)) l
              else Ok l);
  filtered ← (if nonempty (strip (tag_filter f))
              then select (λ x, match_tags (wanted_tags (tag_filter f)) (view x))
                          filtered
              else Ok filtered);
  let filtered :=
    if fav_only f
    then List.filter (λ x, truthy (get (view x) "favorite")) filtered
    else filtered in
  if negb (String.eqb (status_pick f) "All")
  then select (λ x, status_is (status_pick f) (view x)) filtered
  else Ok filtered.

(** The Save handler of Quick Edit; [b] is the object at [db[j]]. *)
Definition quick_save (e : environment) (j : nat) (b : dict) (k : quick)
    (db : list dict) : act (list dict) :=
  let b := <["favorite" := VBool (new_fav k)]> b in
  let b := <["status" := VStr (new_status k)]> b in
  let b := <["rating" := rating_val (new_rating k)]> b in
  let b := <["tags" := tags_val (new_tags k)]> b in
  let b := <["updated_at" := VStr (now e)]> b in
  let db := <[j := b]> db in
  _save_db db ;;; say (Success "Saved.") ;;; pure db.

(** The Delete handler; the rerun it asks for ends the run. *)
Definition delete_book (b : dict) (db : list dict) : act (list dict) :=
  db ↤ lift (list_remove b db);;
  _save_db db ;;;
  say (Warning "Deleted.") ;;;
  lift (Raise RerunException).

(** The tab.  Of a row, the two buttons and their captions are
    modelled.  The card and the boxes of Quick Edit are not: they write
    nothing, and where they raise the run stops before the buttons of
    that row and the rows that follow.  The definition says what a run
    can write to the file; that a run reaches a handler it does not
    say. *)
Definition library (e : environment) (CAN_EDIT : bool) (f : filters)
    (c : click) (db : list dict) : act (list dict) :=
  filtered ↤ lift (library_filter snd f (enumerate db));;
  match filtered with
  | [] => say (Info "No results for these filters.") ;;; pure db
  | _ =>
      for_each filtered (λ ib db,
        let save_pressed :=
          match c with QuickSave i _ => (i =? ib.1)%nat | _ => false end in
        let delete_pressed :=
          match c with DeleteBtn i => (i =? ib.1)%nat | _ => false end in
        db ↤ (if CAN_EDIT && save_pressed then
                match c with
                | QuickSave _ k => quick_save e ib.1 ib.2 k db
                | _ => pure db
                end
              else if negb CAN_EDIT
                   then say (Caption "Login as admin to save.") ;;; pure db
                   else pure db);;
        if CAN_EDIT && delete_pressed then delete_book ib.2 db
        else if negb CAN_EDIT
             then say (Caption "Login as admin to delete.") ;;; pure db
             else pure db) db
  end.

(** ** Recommendations tab *)

Definition nl : string := String (ascii_of_N 10) "".

(** The dash of the page's texts, a character outside the modelled
    range, kept as the bytes it is stored as. *)
Definition dash : string := "—".

(** [read_books = [b for b in db if b["status"] == "read"]] *)
Definition read_books (db : list dict) : exc (list dict) :=
  select (status_is "read") db.

(** One line of the seed list. *)
Definition seed_line (b : dict) : exc string :=
  tags ← join ", " (get_or b "tags" (VList []));
  t ← getitem b "title";
  Ok ("- " ++ py_str t ++ " " ++ dash ++ " "
      ++ py_str (get_or b "author" (VStr "?"))
      ++ "  [tags: " ++ tags ++ "]"
      ++ "  [fav:" ++ (if truthy (get b "favorite") then "yes" else "no") ++ "]"
      ++ "  [rating:" ++ py_str (py_or (get b "rating") (VStr "-")) ++ "]").

(** The records behind the seed list, and the list itself. *)
Definition seed_books (read : list dict) : list dict := take 40 read.

Definition seed_lines (read : list dict) : exc (list string) :=
  mapM seed_line (seed_books read).

Definition build_prompt (g : reco) (lines : list string) : string :=
  let focus_txt :=
    if nonempty (strip (focus_tags g))
    then "Priority tags: " ++ focus_tags g
    else "Priority: flexible" in
  let seeds :=
    List.filter (λ s, if only_favs g then str_in "fav:yes" s else true) lines in
  String.concat nl [
    "";
    "You are a seasoned literary curator. Based on the following 'read' books,";
    "recommend **" ++ str_of_Z (want_n g) ++ "** new books for the user.";
    "For each recommendation, include briefly:";
    "- **Title " ++ dash ++ " Author**";
    "- Why recommended? (1–2 sentences)";
    "- Related themes / atmosphere";
    "- Reading Difficulty: X/10";
    "";
    focus_txt;
    "";
    "Summary of read books:";
    String.concat nl seeds;
    "";
    "Rules:";
    "- Answer in English.";
    "- Avoid recommending many works by the same author consecutively.";
    "- Strive for diversity (country/period/theme).";
    ""
  ].

(** [st.button("💾 Save Recommendations")]: like every button, it
    returns [True] only in the run that its own click starts. *)
Definition save_button (c : click) : bool :=
  match c with SaveRecoBtn => true | _ => false end.

(** The Generate handler: the call to the service and everything after
    it sit inside [try]; a raise is caught and shown.  The Save button
    is drawn here, inside the block of the Generate button, so that the
    run its click starts does not come back to it. *)
Definition generate (e : environment) (CAN_EDIT : bool) (c : click)
    (g : reco) (lines : list string) : act unit :=
  match service e (build_prompt g lines) with
  | inl out =>
      say (Markdown "### Recommendations") ;;;
      say (Markdown out) ;;;
      if CAN_EDIT && save_button c then
        append_log (nl ++ "===== " ++ now e ++ " =====" ++ nl ++ out ++ nl) ;;;
        say (Success "Recommendations saved.")
      else if negb CAN_EDIT
           then say (Caption "Login as admin to save recommendations.")
           else pure tt
  | inr err => say (Error ("Error: " ++ err))
  end.

Definition recommendations (e : environment) (CAN_EDIT : bool) (c : click)
    (db : list dict) : act unit :=
  read ↤ lift (read_books db);;
  match read with
  | [] => say (Info "Add some books marked as 'read' to get recommendations.")
  | _ =>
      say (Markdown ("Found **" ++ str_of_Z (Z.of_nat (length read))
                     ++ "** read books.")) ;;;
      lines ↤ lift (seed_lines read);;
      say (Markdown "**Seed List (summary):**") ;;;
      say (Code (String.concat nl lines)) ;;;
      match c with
      | GenerateBtn g => generate e CAN_EDIT c g lines
      | _ => pure tt
      end
  end.

(** ** One run of the script, and a session *)

(** The page below the login box, with the flag as the login left it. *)
Definition page (e : environment) (r : request) (CAN_EDIT : bool) : act unit :=
  db ↤ _load_db;;
  _ ↤ lift (overview db);;
  db ↤ book_form e CAN_EDIT (pressed r) db;;
  db ↤ currently_reading e CAN_EDIT (pressed r) db;;
  db ↤ library e CAN_EDIT (search r) (pressed r) db;;
  recommendations e CAN_EDIT (pressed r) db.

Definition script (e : environment) (r : request) : act unit :=
  CAN_EDIT ↤ login e r;;
  page e r CAN_EDIT.

(** A run starts on an empty screen and leaves the machine it reached,
    whether it ended normally or by a raise. *)
Definition fresh (m : machine) : machine :=
  Machine (can_edit m) (books_db m) (reco_log m) [].

Definition run (e : environment) (r : request) (m : machine) : machine :=
  (script e r (fresh m)).2.

(** How the run ended: [Ok tt], or the exception that stopped it. *)
Definition outcome (e : environment) (r : request) (m : machine) : exc unit :=
  (script e r (fresh m)).1.

(** A session: the flag starts false; every interaction is one run. *)
Definition session_start (file : option (list dict)) (log : list string) : machine :=
  Machine false file log [].

Fixpoint session (m : machine) (rs : list (environment * request)) : machine :=
  match rs with
  | [] => m
  | (e, r) :: rest => session (run e r m) rest
  end.

(** * Vocabulary of the properties

    The predicates the statements below are written with, the readings
    of the description they are compared against, and the concrete
    records, requests and sessions the examples run on. *)

(** ** The normaliser in closed form *)

(** The record [_ensure_defaults] returns once the tags are collected
    in [S] and the progress is read as [n]. *)
Definition finish (e : stamp) (b : dict) (S : gset string) (n : Z) : dict :=
  let merged :=
    <["progress" := VInt (clamp n)]>
      (<["tags" := VList (VStr <$> sorted S)]> (b ∪ defaults e)) in
  if 100 <=? clamp n then <["status" := VStr "read"]> merged else merged.

(** What [int(... or 0)] is applied to. *)
Definition progress_arg (b : dict) : pyval :=
  py_or (get_or b "progress" (VInt 0)) (VInt 0).

(** ** Tags *)

(** The tags as the description words them: the sorted list of the
    distinct, non-empty, trimmed input tags. *)
Definition spec_tags (input : list string) : list string :=
  merge_sort String.le (remove_dups (List.filter nonempty (strip <$> input))).

Definition ex_stamp : stamp :=
  Stamp "u-1" "2026-11-04T10:00:00" "2026-11-04T10:00:00".

Definition ex_tagged : dict :=
  <["title" := VStr "Dune"]>
  (<["tags" := VList [VStr " b "; VStr "a"; VStr ""; VStr "b"; VStr "  "]]> ∅).

(** ** Progress *)

(** How [int(... or 0)] reads a progress value: integers and booleans
    as themselves, a decimal numeral as its value, a falsy value
    ([None], [0], [False], the empty string, the empty list) as 0. *)
Inductive reads_as : pyval → Z → Prop :=
| reads_int z : reads_as (VInt z) z
| reads_bool c : reads_as (VBool c) (if c then 1 else 0)
| reads_numeral s z : s ≠ "" → int_of_str s = Ok z → reads_as (VStr s) z
| reads_falsy v : truthy v = false → reads_as v 0.

Definition ex_text_progress : dict :=
  <["title" := VStr "Dune"]> (<["progress" := VStr "abc"]> ∅).

Definition ex_overshoot : dict :=
  <["title" := VStr "Dune"]>
  (<["tags" := VList [VStr "scifi"]]> (<["progress" := VInt 250]> ∅)).

(** ** Time stamps *)

Definition ex_stale : dict :=
  <["title" := VStr "Dune"]>
  (<["updated_at" := VStr "2020-01-01T00:00:00"]> ∅).

(** ** Status and seed list *)

(** A record counts as read when its status is the string "read". *)
Definition is_status (s : string) (b : dict) : bool :=
  match b !! "status" with Some v => eq_str v s | None => false end.

Definition ex_numbered (st : string) (i : nat) : dict :=
  <["title" := VStr ("Book " ++ str_of_Z (Z.of_nat i))]>
  (<["author" := VStr "Anon"]>
  (<["status" := VStr st]> (<["tags" := VList [VStr "x"]]> ∅))).

(** 41 read records, numbered 0 to 40, with one unread record before
    them. *)
Definition ex_shelf : list dict :=
  ex_numbered "reading" 99 :: (ex_numbered "read" <$> seq 0 41).

(** The seed line of the read record numbered [i]. *)
Definition ex_line (i : nat) : string :=
  "- Book " ++ str_of_Z (Z.of_nat i) ++ " " ++ dash
  ++ " Anon  [tags: x]  [fav:no]  [rating:-]".

(** ** Matching a filter *)

(** [needle] occurs in [hay] as a run of consecutive characters. *)
Definition occurs_in (needle hay : string) : Prop :=
  ∃ pre post, hay = pre ++ needle ++ post.

(** The text clause, on a search text [needle], letter case aside:
    the title or the author is a string in which it occurs. *)
Definition text_matches (needle : string) (b : dict) : Prop :=
  (∃ t, b !! "title" = Some (VStr t) ∧ occurs_in (lower needle) (lower t))
  ∨ (∃ a, b !! "author" = Some (VStr a) ∧ occurs_in (lower needle) (lower a)).

(** The record has the tag [w], letter case aside. *)
Definition has_tag (w : string) (b : dict) : Prop :=
  ∃ items t, py_iter (get_or b "tags" (VList [])) = Ok items
             ∧ VStr t ∈ items ∧ lower t = lower w.

(** A record matches a filter whose search text is read as [needle]:
    the text occurs in title or author, every requested tag is among
    the record's tags, the record is a favourite if only favourites are
    asked for, and its status is the one picked, if one is picked. *)
Definition matches_with (needle : string) (f : filters) (b : dict) : Prop :=
  (q f = "" ∨ text_matches needle b)
  ∧ (∀ w, w ∈ parse_tags (tag_filter f) → has_tag w b)
  ∧ (fav_only f = true → truthy (get b "favorite") = true)
  ∧ (status_pick f = "All" ∨ b !! "status" = Some (VStr (status_pick f))).

(** The description's reading: the search text as it was typed. *)
Definition claimed_matches (f : filters) : dict → Prop :=
  matches_with (q f) f.

(** The code's reading: the search text without the white space around
    it. *)
Definition matches (f : filters) : dict → Prop :=
  matches_with (strip (q f)) f.

Definition text_matchb (needle : string) (b : dict) : bool :=
  match b !! "title" with
  | Some (VStr t) => str_in (lower needle) (lower t)
  | _ => false
  end
  || match b !! "author" with
     | Some (VStr a) => str_in (lower needle) (lower a)
     | _ => false
     end.

Definition tag_is (w : string) (v : pyval) : bool :=
  match v with VStr t => String.eqb (lower t) (lower w) | _ => false end.

Definition has_tagb (w : string) (b : dict) : bool :=
  match py_iter (get_or b "tags" (VList [])) with
  | Ok items => existsb (tag_is w) items
  | Raise _ => false
  end.

Definition matchb_with (needle : string) (f : filters) (b : dict) : bool :=
  (negb (nonempty (q f)) || text_matchb needle b)
  && forallb (λ w, has_tagb w b) (parse_tags (tag_filter f))
  && (negb (fav_only f) || truthy (get b "favorite"))
  && (String.eqb (status_pick f) "All" || is_status (status_pick f) b).

Definition claimed_matchb (f : filters) : dict → bool := matchb_with (q f) f.
Definition matchb (f : filters) : dict → bool := matchb_with (strip (q f)) f.

(** Records on which no step of the filter can raise. *)
Definition well_typed (b : dict) : Prop :=
  (∃ t, b !! "title" = Some (VStr t))
  ∧ (b !! "author" = Some VNone ∨ ∃ a, b !! "author" = Some (VStr a))
  ∧ (∃ ts, py_iter (get_or b "tags" (VList [])) = Ok (VStr <$> ts))
  ∧ is_Some (b !! "status").

Definition ex_dune : dict :=
  <["id" := VStr "b1"]>
  (<["title" := VStr "Dune"]>
  (<["author" := VStr "Frank Herbert"]>
  (<["status" := VStr "read"]>
  (<["progress" := VInt 100]>
  (<["favorite" := VBool true]>
  (<["tags" := VList [VStr "Fantasy"; VStr "scifi"]]>
  (<["cover_path" := VNone]>
  (<["rating" := VNone]>
  (<["notes" := VStr ""]>
  (<["created_at" := VStr "2025-01-01T00:00:00"]>
  (<["updated_at" := VStr "2025-01-01T00:00:00"]> ∅))))))))))).

Definition ex_emma : dict :=
  <["id" := VStr "b2"]>
  (<["title" := VStr "Emma"]>
  (<["author" := VStr "Jane Austen"]>
  (<["status" := VStr "reading"]>
  (<["progress" := VInt 40]>
  (<["favorite" := VBool false]>
  (<["tags" := VList [VStr "classic"]]>
  (<["cover_path" := VNone]>
  (<["rating" := VInt 8]>
  (<["notes" := VStr ""]>
  (<["created_at" := VStr "2025-02-01T00:00:00"]>
  (<["updated_at" := VStr "2025-02-01T00:00:00"]> ∅))))))))))).

(** A search text typed with a space after it. *)
Definition ex_query : filters := Filters "dune " "" false "All".

Definition ex_fantasy : filters := Filters " DUNE" "fantasy, " true "read".

(** ** Frame conditions on steps *)

(** A step that leaves the session flag and the file alone. *)

Definition quiet {A} (c : act A) : Prop :=
  ∀ m, can_edit (c m).2 = can_edit m ∧ books_db (c m).2 = books_db m.

(** A step that only adds to the screen. *)

Definition grows {A} (c : act A) : Prop :=
  ∀ m, ∃ extra, screen (c m).2 = (screen m ++ extra)%list.

(** ** Login and view-only mode *)

(** A request that logs the admin in. *)
Definition grants (e : environment) (r : request) : Prop :=
  pressed r = LoginBtn ∧ password_ok e (pwd r) = true.

Definition view_only_notice : notice :=
  Info "View-only mode. Login as admin to add or edit books.".

(** The flag and the machine the login box hands to the page. *)
Definition after_login (e : environment) (r : request) (m : machine)
    : bool * machine :=
  match pressed r with
  | LoginBtn =>
      if password_ok e (pwd r)
      then (true, Machine true (books_db m) (reco_log m)
                    [Success "Admin mode enabled."])
      else (false, Machine false (books_db m) (reco_log m)
                     [Error "Wrong password."])
  | _ => (can_edit m, fresh m)
  end.

(** A step that, when it ends normally, has put [n] on the screen. *)
Definition shows {A} (n : notice) (c : act A) : Prop :=
  ∀ m, (∃ a, (c m).1 = Ok a) → n ∈ screen (c m).2.

Definition ex_env : environment :=
  Environment (<["ADMIN_PASS" := VStr "s3cret"]> ∅)
    "2026-11-04T10:00:00" "uuid-1" ex_stamp (λ _, inr "quota exceeded").

Definition ex_all : filters := Filters "" "" false "All".

(** An admin session over a collection of two books. *)
Definition ex_admin : machine := Machine true (Some [ex_dune; ex_emma]) [] [].

Definition ex_guess : request := Request "guess" ex_all LoginBtn.

(** ** Forms and requests of the examples *)

Definition ex_blank_form : form :=
  Form (Some "b2") "   " "Jane Austen" "read" 100 true (Some 9) "x,y" "" None false.

Definition ex_generate : reco := Reco 10 "" false.

(** Dune, which has no rating, saved again through the form with the
    rating box left alone. *)
Definition ex_resave : form :=
  Form (Some "b1") "Dune" "Frank Herbert" "read" 100 true None
       "scifi, Fantasy" "" None false.


(** ** The record invariants *)

Definition progress_ok (b : dict) : Prop :=
  ∃ p, b !! "progress" = Some (VInt p) ∧ 0 ≤ p ≤ 100.

Definition status_ok (b : dict) : Prop :=
  b !! "progress" = Some (VInt 100) → b !! "status" = Some (VStr "read").

Definition tags_ok (b : dict) : Prop :=
  ∃ ts, b !! "tags" = Some (VList (VStr <$> ts))
        ∧ NoDup ts ∧ Sorted String.le ts.

Definition record_ok (b : dict) : Prop :=
  progress_ok b ∧ status_ok b ∧ tags_ok b.

(** Quick Edit on Dune, a read book at 100 percent: the status is set
    back to "reading" and the tags are typed out of order, one twice. *)
Definition ex_quick_edit : request :=
  Request "" ex_all (QuickSave 0 (Quick true "reading" 7 "scifi,Fantasy,scifi")).

Definition ex_edited : dict :=
  <["updated_at" := VStr "2026-11-04T10:00:00"]>
  (<["tags" := VList [VStr "scifi"; VStr "Fantasy"; VStr "scifi"]]>
  (<["rating" := VInt 7]>
  (<["status" := VStr "reading"]>
  (<["favorite" := VBool true]> ex_dune)))).

(** * Further vocabulary

    Definitions for the properties beyond the description: helpers of
    the script that no statement above needed, and the predicates their
    properties are written with. *)

(** ** The fields of a record *)

(** The keys of the defaults of [_ensure_defaults]. *)
Definition field_names : list string :=
  ["id"; "title"; "author"; "status"; "progress"; "favorite"; "tags";
   "cover_path"; "rating"; "notes"; "created_at"; "updated_at"].

(** The record carries an id, and it is not [bid]. *)
Definition other_id (bid : string) (b : dict) : Prop :=
  ∃ v, b !! "id" = Some v ∧ eq_str v bid = false.

(** A record with only a progress below 100 and a status. *)
Definition ex_lowered : dict :=
  <["status" := VStr "read"]> (<["progress" := VInt 30]> ∅).

(** ** [_slugify] *)

(** [\w] on one character: letters, digits of any kind, the underscore. *)
Definition is_word (c : ascii) : bool :=
  let n := code c in
  ((48 <=? n) && (n <=? 57) || (65 <=? n) && (n <=? 90) || (n =? 95)
   || (97 <=? n) && (n <=? 122)
   || (n =? 170) || (n =? 178) || (n =? 179) || (n =? 181)
   || (n =? 185) || (n =? 186) || (188 <=? n) && (n <=? 190)
   || (192 <=? n) && (n <=? 214) || (216 <=? n) && (n <=? 246)
   || (248 <=? n))%N.

Definition hyphen : ascii := "-"%char.

(** [re.sub(r"[^\w\s-]", "", text)] *)
Fixpoint drop_symbols (s : string) : string :=
  match s with
  | EmptyString => EmptyString
  | String c r =>
      if is_word c || is_space c || Ascii.eqb c hyphen
      then String c (drop_symbols r) else drop_symbols r
  end.

(** A character of the class [[\s_-]]. *)
Definition is_sep (c : ascii) : bool :=
  is_space c || Ascii.eqb c underscore || Ascii.eqb c hyphen.

(** [re.sub(r"[\s_-]+", "-", s)]: every maximal run of separators
    becomes one hyphen.  [in_run] tells whether the previous character
    was a separator. *)
Fixpoint hyphenate (in_run : bool) (s : string) : string :=
  match s with
  | EmptyString => EmptyString
  | String c r =>
      if is_sep c
      then if in_run then hyphenate true r
           else String hyphen (hyphenate true r)
      else String c (hyphenate false r)
  end.

(** [_slugify(text)] for a [text] of code points below 256, the strings
    of this model; [uuid] is what [uuid.uuid4()] returns.  The classes
    [\w] and [\s] and [lower] are the interpreter's on that range; a
    text with a character outside it is not covered. *)
Definition _slugify (uuid : string) (text : string) : string :=
  let s := lower (strip (drop_symbols text)) in
  let s := hyphenate false s in
  if nonempty s then s else uuid.

(** A character a slug is made of: the hyphen, or a word character
    other than the underscore that [lower] leaves as it is. *)
Definition slug_char (c : ascii) : bool :=
  Ascii.eqb c hyphen
  || is_word c && negb (Ascii.eqb c underscore) && negb (is_space c)
     && Ascii.eqb (lower_char c) c.

(** Slug characters only, and no hyphen next to a hyphen;
    [after_hyphen] tells whether a hyphen came just before. *)
Fixpoint tidy (after_hyphen : bool) (s : string) : bool :=
  match s with
  | EmptyString => true
  | String c r =>
      slug_char c
      && if Ascii.eqb c hyphen then negb after_hyphen && tidy true r
         else tidy false r
  end.

(** The characters that are left after dropping symbols, trimming and
    lowering. *)
Definition kept_char (c : ascii) : Prop :=
  is_sep c = true ∨ (is_sep c = false ∧ slug_char c = true).

(** ** What the write handlers store *)

(** The record the Update button of the Currently Reading tab stores in
    place of [b]. *)
Definition progressed (e : environment) (new_prog : Z) (b : dict) : dict :=
  let b := <["progress" := VInt new_prog]> b in
  let b := if 100 <=? new_prog then <["status" := VStr "read"]> b else b in
  <["updated_at" := VStr (now e)]> b.

(** The record the Quick Edit save stores in place of [b]. *)
Definition quick_edited (e : environment) (k : quick) (b : dict) : dict :=
  <["updated_at" := VStr (now e)]>
  (<["tags" := tags_val (new_tags k)]>
  (<["rating" := rating_val (new_rating k)]>
  (<["status" := VStr (new_status k)]>
  (<["favorite" := VBool (new_fav k)]> b)))).

(** The collection a run starts from: [_load_db()]. *)
Definition loaded (m : machine) : list dict := default [] (books_db m).

(** The ids of a collection, position by position. *)
Definition ids (db : list dict) : list (option pyval) :=
  (λ b, b !! "id") <$> db.

(** Every record has a status. *)
Definition has_status (b : dict) : Prop := is_Some (b !! "status").

(** What the handler of a button can turn the collection [db] into.
    The Save button of the form adds a normalised record at the end
    when no record is selected, and otherwise replaces the first record
    with the selected id by a normalised merge; the Update button
    replaces the record of its card by [progressed]; the Save button of
    Quick Edit replaces the record of its row by [quick_edited]; the
    Delete button removes the first record equal to the one of its row.
    The other buttons have no constructor. *)
Inductive written (e : environment) (db : list dict)
    : click → list dict → Prop :=
| written_add f rated nb :
    nonempty (strip (title f)) = true →
    selected (selected_id f) = None →
    rating_input ∅ (rating f) = Ok rated →
    _ensure_defaults (stamps e) (form_book e f ∅ rated) = Ok nb →
    written e db (FormSave f) (db ++ [nb])
| written_update f sid init rated db' :
    nonempty (strip (title f)) = true →
    selected (selected_id f) = Some sid →
    form_init db (Some sid) = Ok init →
    rating_input init (rating f) = Ok rated →
    update_by_id (stamps e) sid (form_book e f (drop_cover f init) rated) db
    = Ok db' →
    written e db (FormSave f) db'
| written_progress i b new_prog :
    db !! i = Some b →
    written e db (UpdateBtn i new_prog) (<[i := progressed e new_prog b]> db)
| written_quick i b k :
    db !! i = Some b →
    written e db (QuickSave i k) (<[i := quick_edited e k b]> db)
| written_delete i b db' :
    db !! i = Some b →
    list_remove b db = Ok db' →
    written e db (DeleteBtn i) db'.

(** A step over the collection [db] that leaves the flag alone and
    either leaves the file alone and returns [db], or has written to
    the file a collection that satisfies [W] and returns that one. *)
Definition effect (W : list dict → Prop) (db : list dict)
    (c : act (list dict)) : Prop :=
  ∀ m, can_edit (c m).2 = can_edit m
       ∧ ((books_db (c m).2 = books_db m ∧ ∀ d, (c m).1 = Ok d → d = db)
          ∨ ∃ db', books_db (c m).2 = Some db' ∧ W db'
                   ∧ ∀ d, (c m).1 = Ok d → d = db').

(** A step that writes nothing and returns [db]. *)
Definition idle (db : list dict) (c : act (list dict)) : Prop :=
  ∀ m, can_edit (c m).2 = can_edit m ∧ books_db (c m).2 = books_db m
       ∧ ∀ d, (c m).1 = Ok d → d = db.

(** A step that leaves the flag alone and either leaves the file alone
    or has written to it a collection that satisfies [W]. *)
Definition writes_at_most {A} (W : list dict → Prop) (c : act A) : Prop :=
  ∀ m, can_edit (c m).2 = can_edit m
       ∧ (books_db (c m).2 = books_db m
          ∨ ∃ db', books_db (c m).2 = Some db' ∧ W db').

(** A record with each of the twelve fields. *)
Definition complete (b : dict) : Prop :=
  ∀ k, k ∈ field_names → is_Some (b !! k).

(** ** Forms of the further examples *)

(** A new book, typed with stray blanks and a tag given twice. *)
Definition ex_new_form : form :=
  Form None " Ulysses " "James Joyce" "reading" 10 false None
       "modern, irish,modern" "" None false.

(** Emma given a cover, and the form opened on it to raise the progress
    with "Remove current cover" ticked. *)
Definition ex_covered : dict := <["cover_path" := VStr "covers/emma.png"]> ex_emma.

Definition ex_uncover : form :=
  Form (Some "b2") "Emma" "Jane Austen" "reading" 60 false None
       "classic" "" None true.

(** ** Tags as the boxes show and read them *)

(** A tag as the boxes store it: trimmed, not empty, without a comma. *)
Definition clean_tag (t : string) : Prop :=
  strip t = t ∧ t ≠ ""
  ∧ Forall (λ c, Ascii.eqb c "," = false) (list_ascii_of_string t).

(** ** The recommendation log *)

(** A step that leaves the recommendation log alone. *)
Definition silent {A} (c : act A) : Prop :=
  ∀ m, reco_log (c m).2 = reco_log m.

(** ** Records as the widgets expect them *)

(** A record with the fields typed as the widgets read them: it has the
    twelve fields, a title that is a string, an author that is a string
    or [None], one of the three statuses (the status box looks its
    position up), a progress between 0 and 100 (the slider's bounds), a
    rating that is [None] or between 1 and 10 (the bounds of the rating
    box), and tags that are a list of strings.  The id and the cover
    path are left as they are found: the predicate does not say that
    the page draws the record without raising. *)
Definition presentable (b : dict) : Prop :=
  complete b
  ∧ (∃ t, b !! "title" = Some (VStr t))
  ∧ (b !! "author" = Some VNone ∨ ∃ a, b !! "author" = Some (VStr a))
  ∧ (∃ s, b !! "status" = Some (VStr s)
          ∧ s ∈ ["to_read"; "reading"; "read"])
  ∧ progress_ok b
  ∧ (b !! "rating" = Some VNone
     ∨ ∃ n, b !! "rating" = Some (VInt n) ∧ 1 ≤ n ≤ 10)
  ∧ (∃ ts, b !! "tags" = Some (VList (VStr <$> ts))).

(** What the widgets let a click carry: one of the three statuses of a
    status box, a slider value between 0 and 100, a rating between 1
    and 10. *)
Definition in_range (c : click) : Prop :=
  match c with
  | FormSave f =>
      status f ∈ ["to_read"; "reading"; "read"]
      ∧ 0 ≤ progress f ≤ 100
      ∧ ∀ u, rating f = Some u → 1 ≤ u ≤ 10
  | UpdateBtn _ new_prog => 0 ≤ new_prog ≤ 100
  | QuickSave _ k =>
      new_status k ∈ ["to_read"; "reading"; "read"] ∧ 1 ≤ new_rating k ≤ 10
  | _ => True
  end.

(** * Properties *)

(** ** Raising and returning *)

Lemma bind_Ok {A B} (m : exc A) (f : A → exc B) (b : B) :
  m ≫= f = Ok b ↔ ∃ a, m = Ok a ∧ f a = Ok b.
Proof.
  destruct m as [a|e]; simpl; split.
  - eauto.
  - by intros (a' & [= ->] & ?).
  - done.
  - by intros (a' & ? & ?).
Qed.

Lemma fmap_Ok {A B} (f : A → B) (m : exc A) (b : B) :
  f <$> m = Ok b ↔ ∃ a, m = Ok a ∧ b = f a.
Proof.
  destruct m as [a|e]; simpl; split.
  - intros [= <-]. eauto.
  - by intros (a' & [= ->] & ->).
  - done.
  - by intros (a' & ? & ?).
Qed.

Lemma mapM_Ok {A B} (f : A → exc B) (l : list A) (k : list B) :
  mapM f l = Ok k ↔ Forall2 (λ x y, f x = Ok y) l k.
Proof.
  revert k. induction l as [|x l IH]; intros k; simpl.
  - split; [intros [= <-]; constructor | by inversion 1].
  - split.
    + intros (y & Hy & (k' & Hk' & [= <-])%bind_Ok)%bind_Ok.
      constructor; [done | by apply IH].
    + inversion 1 as [|? y ? k' Hy Hk']; subst.
      apply IH in Hk'. unfold mbind, exc_bind, mret, exc_ret in *.
      by rewrite Hy, Hk'.
Qed.

Lemma mapM_total {A B} (f : A → exc B) (g : A → B) (l : list A) :
  Forall (λ x, f x = Ok (g x)) l → mapM f l = Ok (g <$> l).
Proof.
  intros H. apply mapM_Ok. induction H; simpl; by constructor.
Qed.

(** A comprehension that returns has kept exactly the items its
    condition holds for, in their order. *)
Lemma select_Ok {A} (p : A → exc bool) (pb : A → bool) (l out : list A) :
  select p l = Ok out →
  (∀ x c, x ∈ l → p x = Ok c → c = pb x) →
  out = List.filter pb l.
Proof.
  revert out. induction l as [|x l IH]; intros out; simpl.
  - by intros [= <-].
  - intros (c & Hc & (rest & Hrest & [= <-])%bind_Ok)%bind_Ok Hp.
    rewrite <- (Hp x c) by (done || left).
    rewrite (IH rest Hrest) by (intros; eapply Hp; [by right | done]).
    by destruct c.
Qed.

Lemma select_total {A} (p : A → exc bool) (l : list A) :
  Forall (λ x, ∃ c, p x = Ok c) l → ∃ out, select p l = Ok out.
Proof.
  induction 1 as [|x l [c Hc] _ [out IH]]; simpl; [by eexists |].
  unfold mbind, exc_bind. rewrite Hc, IH. by eexists.
Qed.

Lemma select_each {A} (p : A → exc bool) (l out : list A) :
  select p l = Ok out → Forall (λ x, ∃ c, p x = Ok c) l.
Proof.
  revert out. induction l as [|x l IH]; intros out; simpl; [constructor |].
  intros (c & Hc & (rest & Hrest & _)%bind_Ok)%bind_Ok.
  constructor; eauto.
Qed.

(** ** Strings *)

Lemma nonempty_true s : nonempty s = true ↔ s ≠ "".
Proof.
  unfold nonempty. rewrite negb_true_iff. apply String.eqb_neq.
Qed.

Lemma nonempty_false s : nonempty s = false ↔ s = "".
Proof.
  unfold nonempty. rewrite negb_false_iff. apply String.eqb_eq.
Qed.

Lemma lstrip_head s c r : lstrip s = String c r → is_space c = false.
Proof.
  induction s as [|a s IH]; simpl; [done |].
  destruct (is_space a) eqn:Ha; [done |]. by intros [= <- <-].
Qed.

Lemma rstrip_cons c r :
  rstrip (String c r) =
  match rstrip r with
  | EmptyString => if is_space c then EmptyString else String c EmptyString
  | r' => String c r'
  end.
Proof. done. Qed.

Lemma rstrip_idemp s : rstrip (rstrip s) = rstrip s.
Proof.
  induction s as [|c s IH]; [done |].
  rewrite rstrip_cons.
  destruct (rstrip s) as [|c' r'] eqn:Hr.
  - destruct (is_space c) eqn:Hc; [done |].
    rewrite rstrip_cons. simpl. by rewrite Hc.
  - rewrite rstrip_cons, IH. done.
Qed.

Lemma rstrip_head c r :
  is_space c = false → ∃ r', rstrip (String c r) = String c r'.
Proof.
  intros Hc. simpl. destruct (rstrip r); [rewrite Hc |]; eauto.
Qed.

Lemma strip_idemp s : strip (strip s) = strip s.
Proof.
  unfold strip. destruct (lstrip s) as [|c r] eqn:Hl; [done |].
  apply lstrip_head in Hl.
  destruct (rstrip_head c r Hl) as [r' Hr'].
  rewrite Hr'. cbn [lstrip]. rewrite Hl, <- Hr'. apply rstrip_idemp.
Qed.

(** ** Sorting a set of strings *)

Lemma sorted_Sorted (S : gset string) : Sorted String.le (sorted S).
Proof. apply (Sorted_merge_sort String.le). Qed.

Lemma sorted_perm (S : gset string) : sorted S ≡ₚ elements S.
Proof. apply merge_sort_Permutation. Qed.

Lemma sorted_NoDup (S : gset string) : NoDup (sorted S).
Proof. rewrite sorted_perm. apply NoDup_elements. Qed.

Lemma elem_of_sorted (S : gset string) s : s ∈ sorted S ↔ s ∈ S.
Proof. rewrite sorted_perm. apply elem_of_elements. Qed.

Lemma sorted_unique (S : gset string) (l : list string) :
  Sorted String.le l → NoDup l → (∀ s, s ∈ l ↔ s ∈ S) → sorted S = l.
Proof.
  intros Hs Hn Hl.
  apply (Sorted_unique String.le); [apply sorted_Sorted | done |].
  apply NoDup_Permutation; [apply sorted_NoDup | done |].
  intros s. by rewrite elem_of_sorted, Hl.
Qed.

Lemma sorted_list_to_set (l : list string) :
  sorted (list_to_set l) = merge_sort String.le (remove_dups l).
Proof.
  apply sorted_unique.
  - apply (Sorted_merge_sort String.le).
  - rewrite merge_sort_Permutation. apply NoDup_remove_dups.
  - intros s.
    by rewrite merge_sort_Permutation, elem_of_remove_dups, elem_of_list_to_set.
Qed.

(** ** The tags of a record *)

Lemma mapM_strip_of (ts : list string) :
  mapM strip_of (VStr <$> ts) = Ok (strip <$> ts).
Proof.
  apply mapM_Ok. induction ts; simpl; by constructor.
Qed.

Lemma mapM_strip_of_inv (items : list pyval) (stripped : list string) :
  mapM strip_of items = Ok stripped →
  ∃ ts, items = VStr <$> ts ∧ stripped = strip <$> ts.
Proof.
  rewrite mapM_Ok. induction 1 as [|v s items stripped Hv _ (ts & -> & ->)].
  - by exists [].
  - destruct v; try done. injection Hv as <-.
    by eexists (_ :: ts).
Qed.

Lemma tag_set_strings (v : pyval) (ts : list string) :
  py_iter v = Ok (VStr <$> ts) →
  tag_set v = Ok (list_to_set (List.filter nonempty (strip <$> ts))).
Proof.
  intros Hv. unfold tag_set. rewrite Hv. simpl.
  by rewrite mapM_strip_of.
Qed.

Lemma tag_set_inv (v : pyval) (S : gset string) :
  tag_set v = Ok S →
  ∃ ts, py_iter v = Ok (VStr <$> ts)
        ∧ S = list_to_set (List.filter nonempty (strip <$> ts)).
Proof.
  unfold tag_set.
  intros (items & Hitems & (stripped & Hs & [= <-])%bind_Ok)%bind_Ok.
  apply mapM_strip_of_inv in Hs as (ts & -> & ->). eauto.
Qed.

Lemma elem_of_filter_nonempty (l : list string) s :
  s ∈ List.filter nonempty l ↔ s ≠ "" ∧ s ∈ l.
Proof.
  rewrite !list_elem_of_In, filter_In, nonempty_true. tauto.
Qed.

(** The members of a tag set are trimmed and not empty. *)
Lemma tag_set_clean (ts : list string) s :
  s ∈ List.filter nonempty (strip <$> ts) → strip s = s ∧ s ≠ "".
Proof.
  rewrite elem_of_filter_nonempty, list_elem_of_fmap.
  intros (? & t & -> & _). split; [apply strip_idemp | done].
Qed.

(** ** The normaliser, step by step *)

Lemma get_or_merged (e : stamp) (b : dict) (k : string) (dflt : pyval) :
  defaults e !! k = Some dflt →
  get_or (b ∪ defaults e) k dflt = get_or b k dflt.
Proof.
  intros Hk. unfold get_or. rewrite lookup_union, Hk.
  by destruct (b !! k).
Qed.

Lemma ensure_defaults_unfold (e : stamp) (b : dict) :
  _ensure_defaults e b =
  (S ← tag_set (get_or b "tags" (VList []));
   n ← py_int (progress_arg b);
   Ok (finish e b S n)).
Proof.
  unfold _ensure_defaults, progress_arg, finish.
  rewrite (get_or_merged e b "tags") by done.
  destruct (tag_set _) as [S|]; simpl; [|done].
  replace (get_or (<["tags":=VList (VStr <$> sorted S)]> (b ∪ defaults e))
             "progress" (VInt 0))
    with (get_or b "progress" (VInt 0)).
  2:{ unfold get_or at 2. rewrite lookup_insert_ne by done.
      symmetry. by apply (get_or_merged e b "progress"). }
  destruct (py_int _) as [n|]; simpl; [|done].
  by destruct (100 <=? clamp n).
Qed.

Lemma ensure_defaults_Ok (e : stamp) (b b' : dict) :
  _ensure_defaults e b = Ok b' ↔
  ∃ S n, tag_set (get_or b "tags" (VList [])) = Ok S
         ∧ py_int (progress_arg b) = Ok n
         ∧ b' = finish e b S n.
Proof.
  rewrite ensure_defaults_unfold. split.
  - intros (S & HS & (n & Hn & [= <-])%bind_Ok)%bind_Ok. eauto.
  - intros (S & n & HS & Hn & ->). unfold mbind, exc_bind.
    by rewrite HS, Hn.
Qed.

Lemma clamp_range n : 0 ≤ clamp n ≤ 100.
Proof. unfold clamp. lia. Qed.

Lemma clamp_id n : 0 ≤ n ≤ 100 → clamp n = n.
Proof. unfold clamp. lia. Qed.

Lemma finish_tags e b S n :
  finish e b S n !! "tags" = Some (VList (VStr <$> sorted S)).
Proof.
  unfold finish. destruct (100 <=? clamp n).
  - rewrite lookup_insert_ne by done. rewrite lookup_insert_ne by done.
    apply lookup_insert_eq.
  - rewrite lookup_insert_ne by done. apply lookup_insert_eq.
Qed.

Lemma finish_progress e b S n :
  finish e b S n !! "progress" = Some (VInt (clamp n)).
Proof.
  unfold finish. destruct (100 <=? clamp n).
  - rewrite lookup_insert_ne by done. apply lookup_insert_eq.
  - apply lookup_insert_eq.
Qed.

Lemma finish_status_read e b S n :
  100 ≤ clamp n → finish e b S n !! "status" = Some (VStr "read").
Proof.
  intros Hn. unfold finish.
  destruct (100 <=? clamp n) eqn:Hc; [apply lookup_insert_eq | lia].
Qed.

(** Fields other than tags, progress and status come from the input,
    or from the defaults when the input lacks them. *)
Lemma finish_other e b S n k :
  k ≠ "tags" → k ≠ "progress" → k ≠ "status" →
  finish e b S n !! k = (b ∪ defaults e) !! k.
Proof.
  intros. unfold finish. destruct (100 <=? clamp n).
  - by rewrite !lookup_insert_ne.
  - by rewrite !lookup_insert_ne.
Qed.

Lemma defaults_keys (e e' : stamp) (k : string) :
  defaults e !! k = None → defaults e' !! k = None.
Proof.
  unfold defaults. rewrite !lookup_insert_None. tauto.
Qed.

Lemma finish_None e b S n k :
  finish e b S n !! k = None → defaults e !! k = None.
Proof.
  unfold finish. destruct (100 <=? clamp n);
    rewrite !lookup_insert_None, lookup_union_None; tauto.
Qed.

(** A normalised record has every field, so that the defaults add
    nothing to it. *)
Lemma finish_union e e' b S n :
  finish e b S n ∪ defaults e' = finish e b S n.
Proof.
  apply map_eq. intros k. rewrite lookup_union.
  destruct (finish e b S n !! k) eqn:Hk.
  - by destruct (defaults e' !! k).
  - by rewrite (defaults_keys e e' k (finish_None _ _ _ _ _ Hk)).
Qed.

Lemma py_int_clamped n : py_int (py_or (VInt (clamp n)) (VInt 0)) = Ok (clamp n).
Proof.
  unfold py_or. simpl. destruct (clamp n =? 0) eqn:H0; simpl; [|done].
  apply Z.eqb_eq in H0. by rewrite H0.
Qed.

Lemma clamp_clamp n : clamp (clamp n) = clamp n.
Proof. unfold clamp. lia. Qed.

Lemma list_fmap_fixed {A} (f : A → A) (l : list A) :
  (∀ x, x ∈ l → f x = x) → f <$> l = l.
Proof.
  induction l as [|x l IH]; intros H; [done |].
  rewrite fmap_cons, (H x) by left.
  rewrite IH; [done |]. intros; apply H. by right.
Qed.

Lemma filter_all {A} (p : A → bool) (l : list A) :
  (∀ x, x ∈ l → p x = true) → List.filter p l = l.
Proof.
  induction l as [|x l IH]; intros H; simpl; [done |].
  rewrite (H x) by left. rewrite IH; [done |]. intros; apply H. by right.
Qed.

(** Collecting the tags of a normalised record gives the same set. *)
Lemma tag_set_sorted (ts : list string) :
  let S : gset string := list_to_set (List.filter nonempty (strip <$> ts)) in
  tag_set (VList (VStr <$> sorted S)) = Ok S.
Proof.
  intros S. rewrite (tag_set_strings _ (sorted S)) by done. f_equal.
  assert (Hclean : ∀ s, s ∈ sorted S → strip s = s ∧ s ≠ "").
  { intros s. rewrite elem_of_sorted. unfold S.
    rewrite elem_of_list_to_set. apply tag_set_clean. }
  rewrite list_fmap_fixed by (intros; by apply Hclean).
  rewrite filter_all by (intros; apply nonempty_true; by apply Hclean).
  apply set_eq. intros s. by rewrite elem_of_list_to_set, elem_of_sorted.
Qed.

Lemma finish_fixed e e' b ts n :
  let S : gset string := list_to_set (List.filter nonempty (strip <$> ts)) in
  _ensure_defaults e' (finish e b S n) = Ok (finish e b S n).
Proof.
  intros S. apply ensure_defaults_Ok. exists S, (clamp n).
  assert (Htags : get_or (finish e b S n) "tags" (VList [])
                  = VList (VStr <$> sorted S)).
  { unfold get_or. by rewrite finish_tags. }
  assert (Hprog : progress_arg (finish e b S n)
                  = py_or (VInt (clamp n)) (VInt 0)).
  { unfold progress_arg, get_or. by rewrite finish_progress. }
  rewrite Htags, Hprog. split; [apply tag_set_sorted |].
  split; [apply py_int_clamped |].
  symmetry. unfold finish at 1. rewrite clamp_clamp, finish_union.
  rewrite (insert_id _ "tags") by apply finish_tags.
  rewrite (insert_id _ "progress") by apply finish_progress.
  destruct (100 <=? clamp n) eqn:Hc; [|done].
  rewrite insert_id; [done |]. apply finish_status_read. lia.
Qed.

(** ** C7: the tags after normalisation *)

Lemma spec_tags_sorted input : Sorted String.le (spec_tags input).
Proof. apply (Sorted_merge_sort String.le). Qed.

Lemma spec_tags_distinct input : NoDup (spec_tags input).
Proof.
  unfold spec_tags. rewrite merge_sort_Permutation. apply NoDup_remove_dups.
Qed.

Lemma elem_of_spec_tags input s :
  s ∈ spec_tags input ↔ s ≠ "" ∧ ∃ t, t ∈ input ∧ s = strip t.
Proof.
  unfold spec_tags.
  rewrite merge_sort_Permutation, elem_of_remove_dups.
  rewrite elem_of_filter_nonempty, list_elem_of_fmap.
  split; intros (? & t & ? & ?); eauto.
Qed.

(** C7.  Whenever the tags of the input are strings, the tags field of
    the record [_ensure_defaults] returns is the sorted list of the
    distinct, non-empty, trimmed input tags; and [_ensure_defaults]
    does return as soon as the progress can be read as an integer. *)
Theorem normalize_tags (e : stamp) (b : dict) (input : list string) :
  py_iter (get_or b "tags" (VList [])) = Ok (VStr <$> input) →
  (∀ b', _ensure_defaults e b = Ok b' →
         b' !! "tags" = Some (VList (VStr <$> spec_tags input)))
  ∧ (∀ n, py_int (progress_arg b) = Ok n → ∃ b', _ensure_defaults e b = Ok b').
Proof.
  intros Hin. apply tag_set_strings in Hin. split.
  - intros b' (S & n & HS & Hn & ->)%ensure_defaults_Ok.
    rewrite Hin in HS. injection HS as <-.
    by rewrite finish_tags, sorted_list_to_set.
  - intros n Hn. eexists. apply ensure_defaults_Ok. eauto.
Qed.

Lemma normalize_tags_witness :
  (∀ b', _ensure_defaults ex_stamp ex_tagged = Ok b' →
         b' !! "tags"
         = Some (VList (VStr <$> spec_tags [" b "; "a"; ""; "b"; "  "])))
  ∧ (∀ n, py_int (progress_arg ex_tagged) = Ok n →
          ∃ b', _ensure_defaults ex_stamp ex_tagged = Ok b').
Proof.
  apply (normalize_tags ex_stamp ex_tagged [" b "; "a"; ""; "b"; "  "]).
  reflexivity.
Defined.

Example normalize_tags_run :
  (λ b', b' !! "tags") <$> _ensure_defaults ex_stamp ex_tagged
  = Ok (Some (VList [VStr "a"; VStr "b"])).
Proof. vm_compute. reflexivity. Qed.

(** ** C6: the progress after normalisation *)

Lemma reads_as_spec (v : pyval) (n : Z) :
  reads_as v n ↔ py_int (py_or v (VInt 0)) = Ok n.
Proof.
  unfold py_or. split.
  - destruct 1 as [z|c|s z Hs Hz|v Hv].
    + simpl. destruct (z =? 0) eqn:H0; simpl; [|done].
      apply Z.eqb_eq in H0. by subst.
    + by destruct c.
    + simpl. apply nonempty_true in Hs. unfold nonempty in Hs. by rewrite Hs.
    + by rewrite Hv.
  - destruct (truthy v) eqn:Hv.
    + destruct v as [|c|z|s|l]; simpl; try done.
      * intros [= <-]. constructor.
      * intros [= <-]. constructor.
      * intros Hs. constructor; [|done]. by apply nonempty_true.
    + intros [= <-]. by constructor.
Qed.

(** Every record that [_ensure_defaults] returns has an integer
    progress between 0 and 100, and the status "read" at 100. *)
Lemma normalize_range (e : stamp) (b b' : dict) :
  _ensure_defaults e b = Ok b' →
  ∃ p, b' !! "progress" = Some (VInt p) ∧ 0 ≤ p ≤ 100
       ∧ (p = 100 → b' !! "status" = Some (VStr "read")).
Proof.
  intros (S & n & _ & _ & ->)%ensure_defaults_Ok.
  exists (clamp n). split; [apply finish_progress |].
  split; [apply clamp_range |].
  intros Hp. apply finish_status_read. lia.
Qed.

(** A progress that is a text but not a numeral is not coerced to 0:
    [_ensure_defaults] raises. *)
Lemma normalize_raises_on_text_progress :
  _ensure_defaults ex_stamp ex_text_progress = Raise ValueError.
Proof. vm_compute. reflexivity. Qed.

(** C6, as the code has it.  For every record whose tags are strings
    and whose progress reads as the integer [n] (an integer, a boolean,
    a decimal numeral, or a falsy value, which reads as 0),
    [_ensure_defaults] returns, and the progress it yields is [n]
    clamped to [0,100].  A text is not coerced to 0: with a progress
    that is a non-empty string [int] cannot read, the same record makes
    [_ensure_defaults] raise [ValueError]. *)
Theorem normalize_progress (e : stamp) (b : dict) (input : list string) (n : Z) :
  py_iter (get_or b "tags" (VList [])) = Ok (VStr <$> input) →
  reads_as (get_or b "progress" (VInt 0)) n →
  (∃ b', _ensure_defaults e b = Ok b'
         ∧ b' !! "progress" = Some (VInt (clamp n))
         ∧ 0 ≤ clamp n ≤ 100
         ∧ (0 ≤ n ≤ 100 → clamp n = n)
         ∧ (n < 0 → clamp n = 0)
         ∧ (100 < n → clamp n = 100))
  ∧ ∀ s, s ≠ "" → int_of_str s = Raise ValueError →
         _ensure_defaults e (<["progress" := VStr s]> b) = Raise ValueError.
Proof.
  intros Hin Hn%reads_as_spec. split.
  - apply tag_set_strings in Hin.
    exists (finish e b (list_to_set (List.filter nonempty (strip <$> input))) n).
    split; [apply ensure_defaults_Ok; eauto |].
    split; [apply finish_progress |].
    unfold clamp. lia.
  - intros s Hs%nonempty_true Hint. rewrite ensure_defaults_unfold.
    assert (Htags : get_or (<["progress" := VStr s]> b) "tags" (VList [])
                    = get_or b "tags" (VList [])).
    { unfold get_or. by rewrite lookup_insert_ne. }
    rewrite Htags, (tag_set_strings _ _ Hin). simpl.
    unfold progress_arg, get_or, py_or. rewrite lookup_insert_eq. simpl.
    unfold nonempty in Hs. rewrite Hs. simpl. by rewrite Hint.
Qed.

Lemma normalize_progress_witness :
  (∃ b', _ensure_defaults ex_stamp ex_overshoot = Ok b'
         ∧ b' !! "progress" = Some (VInt (clamp 250))
         ∧ 0 ≤ clamp 250 ≤ 100
         ∧ (0 ≤ 250 ≤ 100 → clamp 250 = 250)
         ∧ (250 < 0 → clamp 250 = 0)
         ∧ (100 < 250 → clamp 250 = 100))
  ∧ ∀ s, s ≠ "" → int_of_str s = Raise ValueError →
         _ensure_defaults ex_stamp (<["progress" := VStr s]> ex_overshoot)
         = Raise ValueError.
Proof.
  apply (normalize_progress ex_stamp ex_overshoot ["scifi"] 250).
  - reflexivity.
  - apply reads_int.
Defined.

Example normalize_none_progress :
  (λ b', b' !! "progress")
    <$> _ensure_defaults ex_stamp (<["progress" := VNone]> ∅)
  = Ok (Some (VInt 0)).
Proof. vm_compute. reflexivity. Qed.

(** ** C2: time stamps and idempotence *)

(** A record that carries an [updated_at] keeps it: the clock value
    only fills a missing field. *)
Lemma normalize_keeps_updated_at :
  (λ b', b' !! "updated_at") <$> _ensure_defaults ex_stamp ex_stale
  = Ok (Some (VStr "2020-01-01T00:00:00"))
  ∧ now_updated ex_stamp ≠ "2020-01-01T00:00:00".
Proof. split; [vm_compute; reflexivity | discriminate]. Qed.

(** C2, as the code has it.  The [updated_at] of the output is the one
    of the input when the input has one, and the clock value otherwise;
    and normalising a normalised record again, at any later time,
    returns it unchanged in every field. *)
Theorem normalize_idempotent (e : stamp) (b b' : dict) :
  _ensure_defaults e b = Ok b' →
  b' !! "updated_at" = Some (get_or b "updated_at" (VStr (now_updated e)))
  ∧ ∀ e', _ensure_defaults e' b' = Ok b'.
Proof.
  intros (S & n & HS & _ & ->)%ensure_defaults_Ok. split.
  - rewrite finish_other by done. unfold get_or.
    rewrite lookup_union. by destruct (b !! "updated_at").
  - intros e'. apply tag_set_inv in HS as (ts & _ & ->).
    apply finish_fixed.
Qed.

Lemma normalize_idempotent_witness :
  let b' := finish ex_stamp ex_tagged
              (list_to_set
                 (List.filter nonempty (strip <$> [" b "; "a"; ""; "b"; "  "])))
              0 in
  _ensure_defaults ex_stamp ex_tagged = Ok b'
  ∧ b' !! "updated_at"
    = Some (get_or ex_tagged "updated_at" (VStr (now_updated ex_stamp)))
  ∧ ∀ e', _ensure_defaults e' b' = Ok b'.
Proof.
  intros b'.
  assert (H : _ensure_defaults ex_stamp ex_tagged = Ok b').
  { apply ensure_defaults_Ok. eexists _, 0.
    split; [apply (tag_set_strings _ [" b "; "a"; ""; "b"; "  "]) |];
      [reflexivity |].
    split; reflexivity. }
  split; [exact H |].
  exact (normalize_idempotent ex_stamp ex_tagged b' H).
Defined.

(** ** C4: the seed list *)

Lemma status_is_Ok (s : string) (b : dict) (c : bool) :
  status_is s b = Ok c → c = is_status s b ∧ is_Some (b !! "status").
Proof.
  unfold status_is, getitem, is_status.
  destruct (b !! "status"); simpl; [|done]. intros [= <-]. eauto.
Qed.

Lemma status_is_total (s : string) (b : dict) :
  is_Some (b !! "status") → status_is s b = Ok (is_status s b).
Proof.
  intros [v Hv]. unfold status_is, getitem, is_status. by rewrite Hv.
Qed.

Lemma read_books_Ok (db read : list dict) :
  read_books db = Ok read → read = List.filter (is_status "read") db.
Proof.
  intros H. eapply select_Ok; [done |].
  intros b c _ Hc. by apply status_is_Ok in Hc as [-> _].
Qed.

Lemma read_books_total (db : list dict) :
  Forall (λ b, is_Some (b !! "status")) db →
  read_books db = Ok (List.filter (is_status "read") db).
Proof.
  intros H. destruct (select_total (status_is "read") db) as [out Hout].
  - eapply Forall_impl; [done |]. intros b Hb. eexists.
    by apply status_is_total.
  - unfold read_books. rewrite Hout. f_equal. by apply read_books_Ok.
Qed.

(** C4.  The records behind the seed list are the records whose status
    is "read", in collection order, cut after the fortieth; the seed
    list has one line per such record, in the same order.  With 41 read
    records the list has 40 lines, those of the first 40. *)
Theorem seed_list_first_40 (db read : list dict) (lines : list string) :
  read_books db = Ok read →
  seed_lines read = Ok lines →
  read = List.filter (is_status "read") db
  ∧ Forall2 (λ b line, seed_line b = Ok line) (take 40 read) lines
  ∧ length lines = Nat.min 40 (length read)
  ∧ (length read = 41%nat →
     length lines = 40%nat ∧ ∃ last, read = (take 40 read ++ [last])%list).
Proof.
  intros Hread Hlines. split; [by apply read_books_Ok |].
  apply mapM_Ok in Hlines. unfold seed_books in Hlines.
  split; [done |].
  assert (Hlen : length lines = Nat.min 40 (length read)).
  { by rewrite <- (Forall2_length _ _ _ Hlines), length_take. }
  split; [done |]. intros H41. split; [lia |].
  destruct (drop 40 read) as [|last rest] eqn:Hd.
  - apply (f_equal length) in Hd. rewrite length_drop in Hd. simpl in Hd. lia.
  - exists last. rewrite <- (take_drop 40 read) at 1. rewrite Hd.
    apply (f_equal length) in Hd. rewrite length_drop in Hd. simpl in Hd.
    destruct rest; [done | simpl in Hd; lia].
Qed.

Lemma seed_list_first_40_witness :
  let read := ex_numbered "read" <$> seq 0 41 in
  let lines := ex_line <$> seq 0 40 in
  read_books ex_shelf = Ok read ∧ seed_lines read = Ok lines
  ∧ length read = 41%nat
  ∧ read = List.filter (is_status "read") ex_shelf
  ∧ Forall2 (λ b line, seed_line b = Ok line) (take 40 read) lines
  ∧ length lines = Nat.min 40 (length read)
  ∧ (length read = 41%nat →
     length lines = 40%nat ∧ ∃ last, read = (take 40 read ++ [last])%list).
Proof.
  intros read lines.
  assert (Hread : read_books ex_shelf = Ok read).
  { rewrite read_books_total; [reflexivity |].
    constructor; [by eexists |].
    apply Forall_fmap, Forall_forall. intros i _. by eexists. }
  assert (Hlines : seed_lines read = Ok lines) by (vm_compute; reflexivity).
  split; [exact Hread |]. split; [exact Hlines |]. split; [reflexivity |].
  exact (seed_list_first_40 ex_shelf read lines Hread Hlines).
Defined.

(** ** C5: the library filter *)

Lemma starts_with_spec (p s : string) :
  starts_with p s = true ↔ ∃ post, s = p ++ post.
Proof.
  revert s. induction p as [|a p IH]; intros s; simpl.
  - split; [eauto | done].
  - destruct s as [|b s].
    + split; [done | by intros [? ?]].
    + rewrite andb_true_iff, Ascii.eqb_eq, IH. split.
      * intros [-> [post ->]]. eauto.
      * intros [post [= -> ->]]. eauto.
Qed.

Lemma str_in_spec (sub s : string) : str_in sub s = true ↔ occurs_in sub s.
Proof.
  unfold occurs_in. induction s as [|c r IH]; simpl.
  - rewrite orb_false_r, starts_with_spec. split.
    + intros [post H]. by exists "", post.
    + intros ([|] & post & H); [eauto | done].
  - rewrite orb_true_iff, starts_with_spec, IH. split.
    + intros [[post H] | (pre & post & ->)].
      * by exists "", post.
      * by exists (String c pre), post.
    + intros ([|c' pre] & post & H).
      * left. eauto.
      * right. injection H as -> ->. eauto.
Qed.

Lemma str_in_empty (s : string) : str_in "" s = true.
Proof. by destruct s. Qed.

Lemma str_in_of_empty (sub : string) : sub ≠ "" → str_in sub "" = false.
Proof. by destruct sub. Qed.

Lemma text_matchb_spec needle b :
  text_matchb needle b = true ↔ text_matches needle b.
Proof.
  unfold text_matchb, text_matches. rewrite orb_true_iff. split.
  - intros [H | H]; [left | right].
    + destruct (b !! "title") as [[| | |t|]|]; try done.
      exists t. by rewrite <- str_in_spec.
    + destruct (b !! "author") as [[| | |a|]|]; try done.
      exists a. by rewrite <- str_in_spec.
  - intros [(t & -> & H) | (a & -> & H)]; [left | right];
      by apply str_in_spec.
Qed.

Lemma has_tagb_spec w b : has_tagb w b = true ↔ has_tag w b.
Proof.
  unfold has_tagb, has_tag. split.
  - destruct (py_iter _) as [items|]; [|done].
    rewrite existsb_exists. intros (v & Hv & Htag).
    destruct v as [| | |t|]; try done.
    exists items, t. apply String.eqb_eq in Htag.
    by rewrite list_elem_of_In.
  - intros (items & t & -> & Ht & Hl). apply existsb_exists.
    exists (VStr t). rewrite <- list_elem_of_In. split; [done |].
    by apply String.eqb_eq.
Qed.

Lemma is_status_spec s b :
  is_status s b = true ↔ b !! "status" = Some (VStr s).
Proof.
  unfold is_status. destruct (b !! "status") as [[| | |t|]|]; simpl;
    try (split; [done | by intros [=]]).
  rewrite String.eqb_eq. split; [by intros -> | by intros [= ->]].
Qed.

Lemma matchb_with_spec needle f b :
  matchb_with needle f b = true ↔ matches_with needle f b.
Proof.
  unfold matchb_with, matches_with.
  rewrite !andb_true_iff, !orb_true_iff, !negb_true_iff.
  rewrite nonempty_false, text_matchb_spec, forallb_forall.
  rewrite String.eqb_eq, is_status_spec.
  setoid_rewrite has_tagb_spec. setoid_rewrite <- list_elem_of_In.
  destruct (fav_only f); intuition (done || auto).
Qed.

Lemma match_text_Ok needle b c :
  match_text (lower needle) b = Ok c → c = text_matchb needle b.
Proof.
  unfold match_text, getitem, text_matchb.
  destruct (b !! "title") as [[| | |t|]|]; simpl; try done.
  destruct (str_in (lower needle) (lower t)) eqn:Ht; [by intros [= <-] |].
  assert (Hne : lower needle ≠ "").
  { intros Heq. by rewrite Heq, str_in_empty in Ht. }
  destruct (b !! "author") as [a|]; simpl; [|done].
  unfold py_or. destruct (truthy a) eqn:Ha.
  - destruct a; simpl; try done. by intros [= <-].
  - pose proof (str_in_of_empty _ Hne) as Hf. simpl in Hf |- *.
    intros [= <-]. rewrite Hf.
    destruct a as [| | |a|]; try done.
    simpl in Ha. apply negb_false_iff, String.eqb_eq in Ha. subst a.
    simpl. by rewrite Hf.
Qed.

Lemma match_text_total needle b t :
  b !! "title" = Some (VStr t) →
  b !! "author" = Some VNone ∨ (∃ a, b !! "author" = Some (VStr a)) →
  ∃ c, match_text (lower needle) b = Ok c.
Proof.
  intros Ht Ha. unfold match_text, getitem. rewrite Ht. simpl.
  destruct (str_in _ _); [by eexists |].
  destruct Ha as [-> | [a ->]]; simpl.
  - by eexists.
  - unfold py_or. simpl. destruct (negb _); by eexists.
Qed.

Lemma mapM_lower_inv (items : list pyval) (ls : list string) :
  mapM (λ t, lower <$> as_str AttributeError t) items = Ok ls →
  ∃ ts, items = VStr <$> ts ∧ ls = lower <$> ts.
Proof.
  rewrite mapM_Ok. induction 1 as [|v s items ls Hv _ (ts & -> & ->)].
  - by exists [].
  - destruct v; try done. injection Hv as <-. by eexists (_ :: ts).
Qed.

Lemma lower_tags_Ok b have :
  lower_tags b = Ok have →
  ∃ ts, py_iter (get_or b "tags" (VList [])) = Ok (VStr <$> ts)
        ∧ have = list_to_set (lower <$> ts).
Proof.
  unfold lower_tags.
  intros (items & Hi & (ls & Hls & [= <-])%bind_Ok)%bind_Ok.
  apply mapM_lower_inv in Hls as (ts & -> & ->). eauto.
Qed.

Lemma mapM_lower (ts : list string) :
  mapM (λ t, lower <$> as_str AttributeError t) (VStr <$> ts)
  = Ok (lower <$> ts).
Proof.
  apply mapM_Ok. induction ts; simpl; by constructor.
Qed.

Lemma lower_tags_total b ts :
  py_iter (get_or b "tags" (VList [])) = Ok (VStr <$> ts) →
  lower_tags b = Ok (list_to_set (lower <$> ts)).
Proof.
  intros Hi. unfold lower_tags. rewrite Hi. simpl.
  by rewrite mapM_lower.
Qed.

Lemma match_tags_Ok tf b c :
  match_tags (wanted_tags tf) b = Ok c →
  c = forallb (λ w, has_tagb w b) (parse_tags tf).
Proof.
  unfold match_tags.
  intros (have & (ts & Hi & ->)%lower_tags_Ok & [= <-])%bind_Ok.
  apply Bool.eq_iff_eq_true.
  rewrite bool_decide_eq_true, forallb_forall, elem_of_subseteq.
  unfold wanted_tags. setoid_rewrite elem_of_list_to_set.
  setoid_rewrite has_tagb_spec. unfold has_tag. rewrite Hi.
  setoid_rewrite list_elem_of_fmap. setoid_rewrite <- list_elem_of_In.
  split.
  - intros H w Hw. destruct (H (lower w)) as (t & Ht & Hin); [eauto |].
    exists (VStr <$> ts), t. split; [done |].
    split; [by apply list_elem_of_fmap_2 | done].
  - intros H x (w & -> & Hw).
    destruct (H w Hw) as (items & t & [= <-] & Hin & Hl).
    apply list_elem_of_fmap in Hin as (t' & [= <-] & Hin). eauto.
Qed.

Lemma lstrip_empty s :
  lstrip s = "" → Forall (λ c, is_space c = true) (list_ascii_of_string s).
Proof.
  induction s as [|c s IH]; simpl; [constructor |].
  destruct (is_space c) eqn:Hc; [|done]. intros H. constructor; auto.
Qed.

Lemma strip_empty s :
  strip s = "" → Forall (λ c, is_space c = true) (list_ascii_of_string s).
Proof.
  unfold strip. intros H. apply lstrip_empty.
  destruct (lstrip s) as [|c r] eqn:Hl; [done |].
  apply lstrip_head in Hl. destruct (rstrip_head c r Hl) as [r' Hr'].
  by rewrite Hr' in H.
Qed.

Lemma split_no_separator sep s :
  Forall (λ c, Ascii.eqb c sep = false) (list_ascii_of_string s) →
  split sep s = [s].
Proof.
  induction s as [|c s IH]; simpl; [done |].
  inversion 1 as [|? ? Hc Hs]; subst. rewrite Hc, IH; done.
Qed.

(** A tag filter of white space only asks for no tag. *)
Lemma strip_empty_no_tags tf : strip tf = "" → parse_tags tf = [].
Proof.
  intros H. unfold parse_tags. rewrite split_no_separator.
  - simpl. by rewrite H.
  - eapply Forall_impl; [by apply strip_empty |].
    intros c Hc. simpl in Hc. destruct (Ascii.eqb c ",") eqn:Heq; [|done].
    apply Ascii.eqb_eq in Heq. by subst c.
Qed.

Lemma filter_filter {A} (p1 p2 : A → bool) (l : list A) :
  List.filter p2 (List.filter p1 l) = List.filter (λ x, p1 x && p2 x) l.
Proof.
  induction l as [|x l IH]; simpl; [done |].
  destruct (p1 x); simpl; [|done]. destruct (p2 x); by rewrite IH.
Qed.

Lemma filter_sublist {A} (p : A → bool) (l : list A) :
  sublist (List.filter p l) l.
Proof.
  induction l as [|x l IH]; simpl; [constructor |].
  destruct (p x); by constructor.
Qed.

Lemma Forall_filter_keep {A} (P : A → Prop) (p : A → bool) (l : list A) :
  Forall P l → Forall P (List.filter p l).
Proof.
  induction 1 as [|x l Hx _ IH]; simpl; [constructor |].
  destruct (p x); [by constructor | done].
Qed.

Lemma library_filter_Ok (f : filters) (db out : list dict) :
  library_filter id f db = Ok out → out = List.filter (matchb f) db.
Proof.
  unfold library_filter.
  intros (l1 & H1 & (l2 & H2 & H4)%bind_Ok)%bind_Ok.
  set (p1 := λ b : dict, negb (nonempty (q f)) || text_matchb (strip (q f)) b).
  set (p2 := λ b : dict, forallb (λ w, has_tagb w b) (parse_tags (tag_filter f))).
  set (p3 := λ b : dict, negb (fav_only f) || truthy (get b "favorite")).
  set (p4 := λ b : dict,
         String.eqb (status_pick f) "All" || is_status (status_pick f) b).
  assert (E1 : l1 = List.filter p1 db).
  { unfold p1. destruct (nonempty (q f)) eqn:Hq; simpl.
    - eapply select_Ok; [done |]. intros b c _ Hc. by apply match_text_Ok.
    - injection H1 as <-. symmetry. by apply filter_all. }
  assert (E2 : l2 = List.filter p2 l1).
  { unfold p2. destruct (nonempty (strip (tag_filter f))) eqn:Ht.
    - eapply select_Ok; [done |]. intros b c _ Hc. by apply match_tags_Ok.
    - injection H2 as <-. apply nonempty_false in Ht.
      rewrite (strip_empty_no_tags _ Ht). symmetry. by apply filter_all. }
  set (l3 := if fav_only f
             then List.filter (λ x : dict, truthy (get (id x) "favorite")) l2
             else l2) in H4.
  assert (E3 : l3 = List.filter p3 l2).
  { unfold l3, p3. destruct (fav_only f); simpl; [done |].
    symmetry. by apply filter_all. }
  assert (E4 : out = List.filter p4 l3).
  { unfold p4. destruct (String.eqb (status_pick f) "All") eqn:Hs; simpl in *.
    - injection H4 as <-. symmetry. by apply filter_all.
    - eapply select_Ok; [done |]. intros b c _ Hc.
      by apply status_is_Ok in Hc as [-> _]. }
  rewrite E4, E3, E2, E1, !filter_filter.
  apply List.filter_ext. intros b. unfold matchb, matchb_with, p1, p2, p3, p4.
  by rewrite !andb_assoc.
Qed.

Lemma library_filter_total (f : filters) (db : list dict) :
  Forall well_typed db → ∃ out, library_filter id f db = Ok out.
Proof.
  intros Hdb. unfold library_filter.
  assert (H1 : ∃ l1, (if nonempty (q f)
                      then select (λ x : dict,
                             match_text (lower (strip (q f))) (id x)) db
                      else Ok db) = Ok l1 ∧ Forall well_typed l1).
  { destruct (nonempty (q f)); [|eauto].
    destruct (select_total (λ x : dict,
                match_text (lower (strip (q f))) (id x)) db) as [l1 Hl1].
    - eapply Forall_impl; [done |].
      intros b ((t & Ht) & Ha & _). by eapply match_text_total.
    - exists l1. split; [done |].
      erewrite (select_Ok _ (text_matchb (strip (q f))) db l1); [| done |].
      + by apply Forall_filter_keep.
      + intros b c _ Hc. by apply match_text_Ok. }
  destruct H1 as (l1 & -> & Hl1). simpl.
  assert (H2 : ∃ l2, (if nonempty (strip (tag_filter f))
                      then select (λ x : dict,
                             match_tags (wanted_tags (tag_filter f)) x) l1
                      else Ok l1) = Ok l2 ∧ Forall well_typed l2).
  { destruct (nonempty (strip (tag_filter f))); [|eauto].
    destruct (select_total (λ x : dict,
                match_tags (wanted_tags (tag_filter f)) x) l1)
      as [l2 Hl2].
    - eapply Forall_impl; [done |].
      intros b (_ & _ & (ts & Hts) & _). unfold match_tags, id.
      rewrite (lower_tags_total _ _ Hts). by eexists.
    - exists l2. split; [done |].
      erewrite (select_Ok _
                  (λ b, forallb (λ w, has_tagb w b) (parse_tags (tag_filter f)))
                  l1 l2); [| done |].
      + by apply Forall_filter_keep.
      + intros b c _ Hc. by apply match_tags_Ok. }
  destruct H2 as (l2 & -> & Hl2). simpl.
  destruct (negb (String.eqb (status_pick f) "All")); [|eauto].
  apply select_total.
  assert (Hl3 : Forall well_typed
                  (if fav_only f
                   then List.filter (λ x : dict, truthy (get x "favorite")) l2
                   else l2)).
  { destruct (fav_only f); [by apply Forall_filter_keep | done]. }
  eapply Forall_impl; [done |].
  intros b (_ & _ & _ & Hs). eexists. by apply status_is_total.
Qed.

(** The filter keeps a record in which the search text as typed does
    not occur: it looks for the trimmed text. *)
Lemma library_filter_trims_query :
  library_filter id ex_query [ex_dune; ex_emma] = Ok [ex_dune]
  ∧ List.filter (claimed_matchb ex_query) [ex_dune; ex_emma] = []
  ∧ ¬ claimed_matches ex_query ex_dune.
Proof.
  split; [reflexivity |]. split; [reflexivity |].
  unfold claimed_matches. rewrite <- matchb_with_spec.
  by intros [=].
Qed.

(** C5, as the code has it.  Whenever the filter returns, it returns
    the records of the collection, in their order, that match: the
    search text, white space around it removed, occurs in title or
    author, letter case aside; every requested tag is among the
    record's tags, letter case aside; the record is a favourite if only
    favourites are asked for; its status is the one picked, unless
    "All" is picked.  On a collection of well-typed records the filter
    does return. *)
Theorem library_filter_spec (f : filters) (db : list dict) :
  (∀ out, library_filter id f db = Ok out →
          out = List.filter (matchb f) db ∧ sublist out db)
  ∧ (Forall well_typed db → ∃ out, library_filter id f db = Ok out)
  ∧ (∀ b, matchb f b = true ↔ matches f b).
Proof.
  split; [|split].
  - intros out ->%library_filter_Ok. split; [done | apply filter_sublist].
  - apply library_filter_total.
  - intros b. apply matchb_with_spec.
Qed.

Lemma library_filter_spec_witness :
  library_filter id ex_fantasy [ex_dune; ex_emma] = Ok [ex_dune]
  ∧ [ex_dune] = List.filter (matchb ex_fantasy) [ex_dune; ex_emma]
  ∧ sublist [ex_dune] [ex_dune; ex_emma]
  ∧ matches ex_fantasy ex_dune.
Proof.
  pose proof (library_filter_spec ex_fantasy [ex_dune; ex_emma])
    as (Hout & _ & Hspec).
  assert (Hrun : library_filter id ex_fantasy [ex_dune; ex_emma] = Ok [ex_dune])
    by reflexivity.
  destruct (Hout _ Hrun) as [Hfilter Hsub].
  split; [exact Hrun |]. split; [exact Hfilter |]. split; [exact Hsub |].
  apply Hspec. reflexivity.
Defined.

(** ** Steps that leave the session flag and the file alone *)

Lemma quiet_pure {A} (a : A) : quiet (pure a).
Proof. by intros m. Qed.

Lemma quiet_lift {A} (x : exc A) : quiet (lift x).
Proof. by intros m. Qed.

Lemma quiet_say (n : notice) : quiet (say n).
Proof. by intros m. Qed.

Lemma quiet_append_log (entry : string) : quiet (append_log entry).
Proof. by intros m. Qed.

Lemma quiet_load : quiet _load_db.
Proof. by intros m. Qed.

Lemma quiet_andthen {A B} (c : act A) (k : A → act B) :
  quiet c → (∀ a, quiet (k a)) → quiet (andthen c k).
Proof.
  intros Hc Hk m. unfold andthen. specialize (Hc m).
  destruct (c m) as [[a|x] m']; simpl in *; [|done].
  destruct (Hk a m') as [-> ->]. done.
Qed.

Lemma quiet_for_each {A} (l : list A) (body : A → list dict → act (list dict))
    (db : list dict) :
  (∀ x d, quiet (body x d)) → quiet (for_each l body db).
Proof.
  intros Hb. revert db. induction l as [|x l IH]; intros db; simpl.
  - apply quiet_pure.
  - apply quiet_andthen; [apply Hb | apply IH].
Qed.

Ltac frame :=
  repeat first
    [ apply quiet_pure | apply quiet_lift | apply quiet_say
    | apply quiet_append_log | apply quiet_load
    | apply quiet_andthen; [|intros ?]
    | apply quiet_for_each; intros ? ?
    | match goal with
      | |- quiet (match ?x with _ => _ end) => destruct x eqn:?
      end ].

(** ** Steps only add to the screen *)

Lemma grows_pure {A} (a : A) : grows (pure a).
Proof. intros m. exists []. simpl. by rewrite app_nil_r. Qed.

Lemma grows_lift {A} (x : exc A) : grows (lift x).
Proof. intros m. exists []. simpl. by rewrite app_nil_r. Qed.

Lemma grows_say (n : notice) : grows (say n).
Proof. intros m. by exists [n]. Qed.

Lemma grows_append_log (entry : string) : grows (append_log entry).
Proof. intros m. exists []. simpl. by rewrite app_nil_r. Qed.

Lemma grows_load : grows _load_db.
Proof. intros m. exists []. simpl. by rewrite app_nil_r. Qed.

Lemma grows_save (db : list dict) : grows (_save_db db).
Proof. intros m. exists []. simpl. by rewrite app_nil_r. Qed.

Lemma grows_andthen {A B} (c : act A) (k : A → act B) :
  grows c → (∀ a, grows (k a)) → grows (andthen c k).
Proof.
  intros Hc Hk m. unfold andthen. destruct (Hc m) as [x1 H1].
  destruct (c m) as [[a|x] m']; simpl in *; [|eauto].
  destruct (Hk a m') as [x2 H2]. exists (x1 ++ x2)%list.
  by rewrite H2, H1, app_assoc.
Qed.

Lemma grows_for_each {A} (l : list A) (body : A → list dict → act (list dict))
    (db : list dict) :
  (∀ x d, grows (body x d)) → grows (for_each l body db).
Proof.
  intros Hb. revert db. induction l as [|x l IH]; intros db; simpl.
  - apply grows_pure.
  - apply grows_andthen; [apply Hb | apply IH].
Qed.

Ltac growth :=
  repeat first
    [ apply grows_pure | apply grows_lift | apply grows_say
    | apply grows_append_log | apply grows_load | apply grows_save
    | apply grows_andthen; [|intros ?]
    | apply grows_for_each; intros ? ?
    | match goal with
      | |- grows (match ?x with _ => _ end) => destruct x eqn:?
      end ].

Lemma grows_book_form e ce c db : grows (book_form e ce c db).
Proof. unfold book_form, submit. growth. Qed.

Lemma grows_currently_reading e ce c db : grows (currently_reading e ce c db).
Proof. unfold currently_reading, update_progress. growth. Qed.

Lemma grows_library e ce f c db : grows (library e ce f c db).
Proof. unfold library, quick_save, delete_book. growth. Qed.

Lemma grows_recommendations e ce c db : grows (recommendations e ce c db).
Proof. unfold recommendations, generate. growth. Qed.

(** ** The tabs in view-only mode, and after a click meant for another tab *)

Lemma quiet_book_form_view_only e c db : quiet (book_form e false c db).
Proof. unfold book_form. simpl. frame. Qed.

Lemma quiet_currently_reading e ce c db :
  (ce = true → ∀ i p, c ≠ UpdateBtn i p) →
  quiet (currently_reading e ce c db).
Proof.
  intros Hc. unfold currently_reading. destruct ce; simpl.
  - destruct c; try (frame; fail). by destruct (Hc eq_refl i new_prog).
  - frame.
Qed.

Lemma quiet_library e ce f c db :
  (ce = true → (∀ i k, c ≠ QuickSave i k) ∧ (∀ i, c ≠ DeleteBtn i)) →
  quiet (library e ce f c db).
Proof.
  intros Hc. unfold library. destruct ce; simpl.
  - destruct (Hc eq_refl) as [Hs Hd].
    destruct c; try (frame; fail).
    + by destruct (Hs i k).
    + by destruct (Hd i).
  - frame.
Qed.

Lemma quiet_recommendations e ce c db : quiet (recommendations e ce c db).
Proof. unfold recommendations, generate. frame. Qed.

(** ** C9: a wrong password locks every write *)

Lemma login_spec e r m :
  login e r m =
  match pressed r with
  | LoginBtn =>
      if password_ok e (pwd r)
      then (Ok true, Machine true (books_db m) (reco_log m)
                       (screen m ++ [Success "Admin mode enabled."]))
      else (Ok false, Machine false (books_db m) (reco_log m)
                        (screen m ++ [Error "Wrong password."]))
  | _ => (Ok (can_edit m), m)
  end.
Proof.
  unfold login. destruct (pressed r); try reflexivity.
  destruct (password_ok e (pwd r)); reflexivity.
Qed.

Lemma password_mismatch e pwd :
  get_or (secrets e) "ADMIN_PASS" (VStr "") ≠ VStr pwd →
  password_ok e pwd = false.
Proof.
  intros Hne. unfold password_ok. apply andb_false_iff. right.
  destruct (get_or _ _ _) as [| | |s|]; try done. simpl.
  apply String.eqb_neq. congruence.
Qed.

Lemma quiet_page_view_only e r : quiet (page e r false).
Proof.
  unfold page.
  apply quiet_andthen; [apply quiet_load | intros db].
  apply quiet_andthen; [apply quiet_lift | intros _].
  apply quiet_andthen; [apply quiet_book_form_view_only | intros db1].
  apply quiet_andthen; [by apply quiet_currently_reading | intros db2].
  apply quiet_andthen; [by apply quiet_library | intros db3].
  apply quiet_recommendations.
Qed.

Lemma script_unfold e r m :
  script e r (fresh m) =
  page e r (after_login e r m).1 (after_login e r m).2.
Proof.
  unfold script, andthen, after_login. rewrite login_spec.
  destruct (pressed r); try reflexivity.
  destruct (password_ok e (pwd r)); reflexivity.
Qed.

Lemma after_login_view_only e r m :
  can_edit m = false → ¬ grants e r →
  (after_login e r m).1 = false
  ∧ can_edit (after_login e r m).2 = false
  ∧ books_db (after_login e r m).2 = books_db m.
Proof.
  intros Hm Hg. unfold after_login.
  destruct (pressed r) eqn:Hp; try done.
  destruct (password_ok e (pwd r)) eqn:Hpw; [by destruct Hg | done].
Qed.

(** In view-only mode a run that is not a successful login changes
    neither the flag nor the file. *)
Lemma view_only_run e r m :
  can_edit m = false → ¬ grants e r →
  can_edit (run e r m) = false ∧ books_db (run e r m) = books_db m.
Proof.
  intros Hm Hg. unfold run. rewrite script_unfold.
  destruct (after_login_view_only e r m Hm Hg) as (-> & Hc & Hb).
  destruct (quiet_page_view_only e r (after_login e r m).2) as [-> ->].
  done.
Qed.

Lemma wrong_password_run e r m :
  pressed r = LoginBtn → password_ok e (pwd r) = false →
  can_edit (run e r m) = false ∧ books_db (run e r m) = books_db m.
Proof.
  intros Hp Hpw. unfold run. rewrite script_unfold.
  unfold after_login. rewrite Hp, Hpw. simpl.
  match goal with |- context [page e r false ?m0] =>
    by destruct (quiet_page_view_only e r m0) as [-> ->] end.
Qed.

Lemma view_only_session m rs :
  can_edit m = false → Forall (λ er, ¬ grants er.1 er.2) rs →
  can_edit (session m rs) = false ∧ books_db (session m rs) = books_db m.
Proof.
  intros Hm Hrs. revert m Hm.
  induction Hrs as [|[e r] rs Hg _ IH]; intros m Hm; simpl; [done |].
  destruct (view_only_run e r m Hm Hg) as [Hc Hb].
  destruct (IH _ Hc) as [-> ->]. done.
Qed.

Lemma shows_say n : shows n (say n).
Proof.
  intros m _. simpl. rewrite elem_of_app, list_elem_of_singleton. auto.
Qed.

Lemma shows_andthen_l {A B} n (c : act A) (k : A → act B) :
  shows n c → (∀ a, grows (k a)) → shows n (andthen c k).
Proof.
  intros Hc Hk m. unfold andthen. specialize (Hc m).
  destruct (c m) as [[a|x] m']; simpl in *; [|by intros [? ?]].
  intros _. destruct (Hk a m') as [extra ->].
  rewrite elem_of_app. left. apply Hc. eauto.
Qed.

Lemma shows_andthen_r {A B} n (c : act A) (k : A → act B) :
  (∀ a, shows n (k a)) → shows n (andthen c k).
Proof.
  intros Hk m. unfold andthen.
  destruct (c m) as [[a|x] m']; simpl; [apply Hk | by intros [? ?]].
Qed.

(** A view-only page that is shown to its end carries the notice that
    writing needs a login. *)
Lemma view_only_page_notice e r : shows view_only_notice (page e r false).
Proof.
  unfold page.
  apply shows_andthen_r. intros db.
  apply shows_andthen_r. intros _.
  apply shows_andthen_l.
  - unfold book_form. simpl.
    apply shows_andthen_l; [apply shows_say | intros; apply grows_pure].
  - intros db1.
    apply grows_andthen; [apply grows_currently_reading | intros db2].
    apply grows_andthen; [apply grows_library | intros db3].
    apply grows_recommendations.
Qed.

Lemma view_only_run_notice e r m :
  can_edit m = false → ¬ grants e r →
  outcome e r m = Ok tt → view_only_notice ∈ screen (run e r m).
Proof.
  intros Hm Hg. unfold outcome, run. rewrite script_unfold.
  destruct (after_login_view_only e r m Hm Hg) as (-> & _ & _).
  intros Hok. apply view_only_page_notice. eauto.
Qed.

(** C9.  After a login attempt whose password is not the configured
    secret the write flag is false and the file is as it was.  From
    then on, whatever is attempted short of a successful login, the
    flag stays false and the file stays as it was; and every such
    attempt whose page is shown to its end shows the view-only notice. *)
Theorem wrong_password_locks_writes (e : environment) (r : request) (m : machine) :
  pressed r = LoginBtn →
  get_or (secrets e) "ADMIN_PASS" (VStr "") ≠ VStr (pwd r) →
  can_edit (run e r m) = false
  ∧ books_db (run e r m) = books_db m
  ∧ ∀ rs, Forall (λ er, ¬ grants er.1 er.2) rs →
      can_edit (session (run e r m) rs) = false
      ∧ books_db (session (run e r m) rs) = books_db m
      ∧ ∀ e' r', ¬ grants e' r' →
          books_db (run e' r' (session (run e r m) rs)) = books_db m
          ∧ (outcome e' r' (session (run e r m) rs) = Ok tt →
             view_only_notice ∈ screen (run e' r' (session (run e r m) rs))).
Proof.
  intros Hp Hne%password_mismatch.
  destruct (wrong_password_run e r m Hp Hne) as [Hc Hb].
  split; [done |]. split; [done |]. intros rs Hrs.
  destruct (view_only_session _ rs Hc Hrs) as [Hc' Hb'].
  split; [done |]. split; [congruence |]. intros e' r' Hg.
  split.
  - destruct (view_only_run e' r' _ Hc' Hg) as [_ ->]. congruence.
  - by apply view_only_run_notice.
Qed.

Lemma wrong_password_locks_writes_witness :
  can_edit (run ex_env ex_guess ex_admin) = false
  ∧ books_db (run ex_env ex_guess ex_admin) = books_db ex_admin
  ∧ ∀ rs, Forall (λ er, ¬ grants er.1 er.2) rs →
      can_edit (session (run ex_env ex_guess ex_admin) rs) = false
      ∧ books_db (session (run ex_env ex_guess ex_admin) rs) = books_db ex_admin
      ∧ ∀ e' r', ¬ grants e' r' →
          books_db (run e' r' (session (run ex_env ex_guess ex_admin) rs))
          = books_db ex_admin
          ∧ (outcome e' r' (session (run ex_env ex_guess ex_admin) rs) = Ok tt →
             view_only_notice
             ∈ screen (run e' r' (session (run ex_env ex_guess ex_admin) rs))).
Proof.
  apply (wrong_password_locks_writes ex_env ex_guess ex_admin).
  - reflexivity.
  - vm_compute. discriminate.
Defined.

(** After the wrong guess, a Quick Edit save and a delete change
    nothing. *)
Example locked_session_run :
  let tries :=
    [(ex_env, Request "guess" ex_all (QuickSave 0 (Quick true "reading" 3 "x")));
     (ex_env, Request "guess" ex_all (DeleteBtn 1));
     (ex_env, Request "guess" ex_all (UpdateBtn 1 100))] in
  books_db (session (run ex_env ex_guess ex_admin) tries)
  = Some [ex_dune; ex_emma].
Proof. reflexivity. Qed.

(** ** The page after a click that writes nothing *)

Lemma quiet_page_from_form e r ce :
  (∀ db, quiet (book_form e ce (pressed r) db)) →
  (∀ i p, pressed r ≠ UpdateBtn i p) →
  (∀ i k, pressed r ≠ QuickSave i k) →
  (∀ i, pressed r ≠ DeleteBtn i) →
  quiet (page e r ce).
Proof.
  intros Hform Hu Hq Hd. unfold page.
  apply quiet_andthen; [apply quiet_load | intros db].
  apply quiet_andthen; [apply quiet_lift | intros _].
  apply quiet_andthen; [apply Hform | intros db1].
  apply quiet_andthen; [by apply quiet_currently_reading | intros db2].
  apply quiet_andthen; [by apply quiet_library | intros db3].
  apply quiet_recommendations.
Qed.

Lemma quiet_book_form_other e ce c db :
  (∀ f, c ≠ FormSave f) → quiet (book_form e ce c db).
Proof.
  intros Hc. unfold book_form. destruct ce; simpl; [|frame].
  destruct c; try apply quiet_pure. by destruct (Hc f).
Qed.

Lemma quiet_run e r m :
  pressed r ≠ LoginBtn →
  quiet (page e r (can_edit m)) →
  can_edit (run e r m) = can_edit m ∧ books_db (run e r m) = books_db m.
Proof.
  intros Hl Hq. unfold run. rewrite script_unfold. unfold after_login.
  destruct (pressed r);
    try (simpl; by destruct (Hq (fresh m)) as [-> ->]).
  by destruct Hl.
Qed.

(** ** C8: an empty title *)

Lemma submit_empty_title e f init rated db m :
  strip (title f) = "" →
  submit e f init rated db m
  = (Ok db, Machine (can_edit m) (books_db m) (reco_log m)
              (screen m ++ [Error "Title is required."])).
Proof. intros H. unfold submit. rewrite H. reflexivity. Qed.

Lemma quiet_book_form_rejected e ce f db :
  strip (title f) = "" → quiet (book_form e ce (FormSave f) db).
Proof.
  intros H. unfold book_form. destruct ce; simpl; [|frame].
  apply quiet_andthen; [apply quiet_lift | intros init].
  apply quiet_andthen; [apply quiet_lift | intros rated].
  intros m. by rewrite submit_empty_title.
Qed.

(** C8.  A form saved with an empty or blank title is refused: the
    handler shows "Title is required." and returns the collection as it
    was, and the run leaves the file (and the flag) as they were. *)
Theorem empty_title_rejected (e : environment) (r : request) (f : form)
    (m : machine) :
  pressed r = FormSave f →
  strip (title f) = "" →
  books_db (run e r m) = books_db m
  ∧ can_edit (run e r m) = can_edit m
  ∧ ∀ init rated db m0,
      submit e f init rated db m0
      = (Ok db, Machine (can_edit m0) (books_db m0) (reco_log m0)
                  (screen m0 ++ [Error "Title is required."])).
Proof.
  intros Hp Ht.
  assert (Hq : quiet (page e r (can_edit m))).
  { apply quiet_page_from_form; rewrite Hp; try done.
    intros db. by apply quiet_book_form_rejected. }
  destruct (quiet_run e r m) as [Hc Hb]; [by rewrite Hp | done |].
  split; [done |]. split; [done |].
  intros. by apply submit_empty_title.
Qed.

Lemma empty_title_rejected_witness :
  let r := Request "" ex_all (FormSave ex_blank_form) in
  books_db (run ex_env r ex_admin) = books_db ex_admin
  ∧ can_edit (run ex_env r ex_admin) = can_edit ex_admin
  ∧ ∀ init rated db m0,
      submit ex_env ex_blank_form init rated db m0
      = (Ok db, Machine (can_edit m0) (books_db m0) (reco_log m0)
                  (screen m0 ++ [Error "Title is required."])).
Proof.
  intros r.
  apply (empty_title_rejected ex_env r ex_blank_form ex_admin); reflexivity.
Defined.

Example empty_title_rejected_run :
  screen (run ex_env (Request "" ex_all (FormSave ex_blank_form)) ex_admin)
  = [Error "Title is required.";
     Markdown "Found **1** read books.";
     Markdown "**Seed List (summary):**";
     Code ("- Dune " ++ dash
           ++ " Frank Herbert  [tags: Fantasy, scifi]  [fav:yes]  [rating:-]")].
Proof. vm_compute. reflexivity. Qed.

(** ** C3: the text-generation call raises *)

(** C3.  When the call to the service raises, the Generate handler ends
    normally with an error notice carrying the message, after the seed
    list it had shown; the flag, the file and the log are as they were,
    and the handler has no access to the collection in memory.  A run
    caused by the Generate button never changes the file. *)
Theorem service_failure_is_reported (e : environment) (ce : bool) (g : reco)
    (db read : list dict) (lines : list string) (err : string) (m : machine) :
  read_books db = Ok read →
  read ≠ [] →
  seed_lines read = Ok lines →
  service e (build_prompt g lines) = inr err →
  recommendations e ce (GenerateBtn g) db m
  = (Ok tt,
     Machine (can_edit m) (books_db m) (reco_log m)
       (screen m
        ++ [Markdown ("Found **" ++ str_of_Z (Z.of_nat (length read))
                      ++ "** read books.");
            Markdown "**Seed List (summary):**";
            Code (String.concat nl lines);
            Error ("Error: " ++ err)]))
  ∧ ∀ r m0, pressed r = GenerateBtn g →
      books_db (run e r m0) = books_db m0
      ∧ can_edit (run e r m0) = can_edit m0.
Proof.
  intros Hread Hne Hlines Hsvc. split.
  - unfold recommendations, andthen, lift. rewrite Hread.
    destruct read as [|b0 read']; [done |].
    simpl. unfold andthen. simpl. rewrite Hlines. simpl.
    unfold generate. rewrite Hsvc. unfold say. simpl.
    by rewrite <- !app_assoc.
  - intros r m0 Hp.
    assert (Hq : quiet (page e r (can_edit m0))).
    { apply quiet_page_from_form; rewrite Hp; try done.
      intros db0. by apply quiet_book_form_other. }
    destruct (quiet_run e r m0) as [Hc Hb]; [by rewrite Hp | done |].
    done.
Qed.

Lemma service_failure_is_reported_witness :
  let lines :=
    ["- Dune " ++ dash
     ++ " Frank Herbert  [tags: Fantasy, scifi]  [fav:yes]  [rating:-]"] in
  recommendations ex_env true (GenerateBtn ex_generate) [ex_dune; ex_emma] ex_admin
  = (Ok tt,
     Machine true (Some [ex_dune; ex_emma]) []
       [Markdown ("Found **" ++ str_of_Z 1 ++ "** read books.");
        Markdown "**Seed List (summary):**";
        Code (String.concat nl lines);
        Error ("Error: " ++ "quota exceeded")])
  ∧ ∀ r m0, pressed r = GenerateBtn ex_generate →
      books_db (run ex_env r m0) = books_db m0
      ∧ can_edit (run ex_env r m0) = can_edit m0.
Proof.
  intros lines.
  apply (service_failure_is_reported ex_env true ex_generate
           [ex_dune; ex_emma] [ex_dune] lines "quota exceeded" ex_admin).
  - reflexivity.
  - discriminate.
  - reflexivity.
  - reflexivity.
Defined.

(** ** C10: the rating a form save persists *)

Lemma rating_input_range init user n :
  (∀ u, user = Some u → 1 ≤ u ≤ 10) →
  rating_input init user = Ok n → 1 ≤ n ≤ 10.
Proof.
  intros Hu. unfold rating_input, number_input.
  intros (value & _ & Hn)%bind_Ok.
  destruct ((value <? 1) || (10 <? value)) eqn:Hv; [done |].
  injection Hn as <-. apply orb_false_iff in Hv as [?%Z.ltb_ge ?%Z.ltb_ge].
  destruct user as [u|]; simpl; [by apply Hu | lia].
Qed.


Lemma form_book_rating e f init rated :
  form_book e f init rated !! "rating" = Some (rating_val rated).
Proof.
  unfold form_book.
  destruct (100 <=? progress f), (cover_file f),
    (truthy (get init "cover_path"));
    repeat (rewrite lookup_insert_ne by done); apply lookup_insert_eq.
Qed.

Lemma rating_val_range n : 1 ≤ n ≤ 10 → rating_val n = VInt n.
Proof.
  intros Hn. unfold rating_val. destruct (n =? 0) eqn:H0; [|done].
  apply Z.eqb_eq in H0. lia.
Qed.



Lemma book_form_save_inv e f db m db' m' :
  book_form e true (FormSave f) db m = (Ok db', m') →
  ∃ init rated,
    form_init db (selected_id f) = Ok init
    ∧ rating_input init (rating f) = Ok rated
    ∧ submit e f (drop_cover f init) rated db m = (Ok db', m').
Proof.
  unfold book_form. simpl. unfold andthen, lift.
  destruct (form_init db (selected_id f)) as [init|]; [|done].
  destruct (rating_input init (rating f)) as [rated|] eqn:Hr; [|done].
  intros H. by exists init, rated.
Qed.

(** A form save that goes through: the file holds the returned
    collection, which is the old one with one record replaced, or with
    one record added. *)
Lemma submit_saved e f init rated db db' m m' :
  strip (title f) ≠ "" →
  submit e f init rated db m = (Ok db', m') →
  books_db m' = Some db'
  ∧ match selected (selected_id f) with
    | Some sid =>
        update_by_id (stamps e) sid (form_book e f init rated) db = Ok db'
    | None =>
        ∃ nb, _ensure_defaults (stamps e) (form_book e f init rated) = Ok nb
              ∧ db' = (db ++ [nb])%list
    end.
Proof.
  intros Ht%nonempty_true. unfold submit. rewrite Ht. simpl.
  unfold andthen, lift.
  destruct (selected (selected_id f)) as [sid|].
  - destruct (update_by_id _ _ _ _) as [dbu|]; [|done]. simpl.
    by intros [= <- <-].
  - destruct (_ensure_defaults _ _) as [nb|]; [|done]. simpl.
    intros [= <- <-]. eauto.
Qed.



(** ** C1: the record invariants and the write handlers *)

(** What [_ensure_defaults] returns satisfies the invariants. *)
Lemma normalize_record_ok st b b' :
  _ensure_defaults st b = Ok b' → record_ok b'.
Proof.
  intros (S & n & _ & _ & ->)%ensure_defaults_Ok. split; [|split].
  - exists (clamp n). split; [apply finish_progress | apply clamp_range].
  - intros Hp. rewrite finish_progress in Hp. injection Hp as Hp.
    apply finish_status_read. lia.
  - exists (sorted S). split; [apply finish_tags |].
    split; [apply sorted_NoDup | apply sorted_Sorted].
Qed.

Lemma update_by_id_keeps st sid book db db' :
  Forall record_ok db → update_by_id st sid book db = Ok db' →
  Forall record_ok db'.
Proof.
  intros Hdb. revert db'. induction Hdb as [|b db Hb Hdb IH]; intros db'; simpl.
  - intros [= <-]. constructor.
  - intros (v & _ & H)%bind_Ok. destruct (eq_str v sid).
    + apply bind_Ok in H as (nb & Hnb & [= <-]).
      constructor; [by eapply normalize_record_ok | done].
    + apply fmap_Ok in H as (rest & Hrest & ->).
      constructor; [done | by apply IH].
Qed.

(** The Add/Update form keeps the invariants of the collection. *)
Lemma form_save_keeps_invariants e f db db' m m' :
  Forall record_ok db →
  book_form e true (FormSave f) db m = (Ok db', m') →
  Forall record_ok db'
  ∧ (books_db m' = Some db' ∨ books_db m' = books_db m).
Proof.
  intros Hdb (init & rated & _ & _ & Hsub)%book_form_save_inv.
  destruct (decide (strip (title f) = "")) as [Ht|Ht].
  { rewrite submit_empty_title in Hsub by done. injection Hsub as <- <-.
    auto. }
  destruct (submit_saved _ _ _ _ _ _ _ _ Ht Hsub) as [Hdisk Hnew].
  split; [|by left].
  destruct (selected (selected_id f)) as [sid|].
  - by eapply update_by_id_keeps.
  - destruct Hnew as (nb & Hnb & ->). apply Forall_app. split; [done |].
    constructor; [by eapply normalize_record_ok | constructor].
Qed.

(** The progress update keeps them too, the slider ranging over 0 to
    100. *)
Lemma update_progress_keeps_invariants e j b new_prog db m :
  Forall record_ok db → db !! j = Some b → 0 ≤ new_prog ≤ 100 →
  ∃ db', update_progress e j b new_prog db m
         = (Ok db', Machine (can_edit m) (Some db') (reco_log m)
                      (screen m ++ [Success "Updated!"]))
         ∧ Forall record_ok db'.
Proof.
  intros Hdb Hj Hp. eexists. split; [reflexivity |].
  apply Forall_insert; [done |].
  apply (Forall_lookup_1 _ _ _ _ Hdb) in Hj as (_ & _ & (ts & Hts & Hnd & Hs)).
  split; [|split].
  - exists new_prog. split; [|done].
    rewrite lookup_insert_ne by done.
    destruct (100 <=? new_prog); [rewrite lookup_insert_ne by done |];
      apply lookup_insert_eq.
  - intros H100. rewrite lookup_insert_ne by done.
    rewrite lookup_insert_ne in H100 by done.
    destruct (100 <=? new_prog) eqn:Hc; [apply lookup_insert_eq |].
    rewrite lookup_insert_eq in H100. injection H100 as ->. done.
  - exists ts. split; [|done].
    rewrite lookup_insert_ne by done.
    destruct (100 <=? new_prog); by rewrite !lookup_insert_ne.
Qed.

(** Closes a decidable goal on concrete data by evaluation. *)
Ltac decided :=
  match goal with
  | |- ?P => apply (bool_decide_unpack P); vm_compute; exact I
  end.

Lemma ex_dune_ok : record_ok ex_dune.
Proof.
  split; [|split].
  - exists 100. split; [reflexivity | lia].
  - intros _. reflexivity.
  - exists ["Fantasy"; "scifi"]. split; [reflexivity |].
    split; decided.
Qed.

Lemma ex_emma_ok : record_ok ex_emma.
Proof.
  split; [|split].
  - exists 40. split; [reflexivity | lia].
  - intros H. discriminate H.
  - exists ["classic"]. split; [reflexivity |].
    split; decided.
Qed.

(** C1 fails on Quick Edit.  On a collection that satisfies the
    invariants, the Quick Edit save writes to the file a record whose
    progress is 100 while its status is "reading", and whose tags are
    neither sorted nor free of duplicates: the handler stores what was
    entered without normalising it. *)
Theorem quick_edit_breaks_invariants :
  Forall record_ok [ex_dune; ex_emma]
  ∧ books_db ex_admin = Some [ex_dune; ex_emma]
  ∧ books_db (run ex_env ex_quick_edit ex_admin) = Some [ex_edited; ex_emma]
  ∧ ex_edited !! "progress" = Some (VInt 100)
  ∧ ex_edited !! "status" = Some (VStr "reading")
  ∧ ex_edited !! "tags" = Some (VList [VStr "scifi"; VStr "Fantasy"; VStr "scifi"])
  ∧ ¬ status_ok ex_edited
  ∧ ¬ tags_ok ex_edited.
Proof.
  split.
  { constructor; [apply ex_dune_ok |].
    constructor; [apply ex_emma_ok | constructor]. }
  split; [reflexivity |]. split; [reflexivity |].
  split; [reflexivity |]. split; [reflexivity |]. split; [reflexivity |].
  split.
  - intros H. specialize (H eq_refl). discriminate H.
  - intros (ts & Hts & Hnd & _).
    assert (ts = ["scifi"; "Fantasy"; "scifi"]) as ->.
    { change (ex_edited !! "tags")
        with (Some (VList (VStr <$> ["scifi"; "Fantasy"; "scifi"]))) in Hts.
      destruct ts as [|a [|b [|c [|d ts]]]]; try discriminate Hts.
      by injection Hts as <- <- <-. }
    apply NoDup_cons in Hnd as [Hnotin _]. apply Hnotin.
    right. left.
Qed.

(** * Properties beyond the description *)

(** ** The normaliser: what it fills in and what it leaves alone *)

Lemma defaults_fields (e : stamp) (k : string) :
  is_Some (defaults e !! k) ↔ k ∈ field_names.
Proof.
  unfold defaults, field_names.
  rewrite !lookup_insert_is_Some, lookup_empty, !elem_of_cons, elem_of_nil.
  split.
  - intros H. repeat (destruct H as [H | [_ H]]; [auto 20 |]).
    by destruct H.
  - intros H.
    repeat (destruct H as [-> | H];
            [repeat (first [by left | right; split; [done |]]) |]).
    done.
Qed.

(** X1.  The record [_ensure_defaults] returns has each of the twelve
    fields; every field of the input other than tags, progress and
    status is in it unchanged; and it has no field that is neither in
    the input nor one of the twelve. *)
Theorem normalize_fields (e : stamp) (b b' : dict) :
  _ensure_defaults e b = Ok b' →
  (∀ k, k ∈ field_names → is_Some (b' !! k))
  ∧ (∀ k v, b !! k = Some v →
            k ≠ "tags" → k ≠ "progress" → k ≠ "status" → b' !! k = Some v)
  ∧ (∀ k, b !! k = None → k ∉ field_names → b' !! k = None).
Proof.
  intros (S & n & _ & _ & ->)%ensure_defaults_Ok. split; [|split].
  - intros k Hk%(defaults_fields e).
    destruct (finish e b S n !! k) eqn:Hf; [eauto |].
    apply finish_None in Hf. rewrite Hf in Hk. by destruct Hk.
  - intros k v Hv ? ? ?. rewrite finish_other by done.
    by apply lookup_union_Some_l.
  - intros k Hb Hk.
    assert (Hd : defaults e !! k = None).
    { apply eq_None_not_Some. by rewrite defaults_fields. }
    assert (k ≠ "tags" ∧ k ≠ "progress" ∧ k ≠ "status") as (? & ? & ?).
    { repeat split; intros ->; apply Hk;
        unfold field_names; rewrite !elem_of_cons; auto 20. }
    rewrite finish_other by done. by apply lookup_union_None.
Qed.

Lemma normalize_fields_witness :
  let b' := finish ex_stamp ex_tagged
              (list_to_set
                 (List.filter nonempty (strip <$> [" b "; "a"; ""; "b"; "  "])))
              0 in
  (∀ k, k ∈ field_names → is_Some (b' !! k))
  ∧ (∀ k v, ex_tagged !! k = Some v →
            k ≠ "tags" → k ≠ "progress" → k ≠ "status" → b' !! k = Some v)
  ∧ (∀ k, ex_tagged !! k = None → k ∉ field_names → b' !! k = None).
Proof.
  intros b'. apply (normalize_fields ex_stamp ex_tagged b').
  apply ensure_defaults_Ok. eexists _, 0.
  split; [apply (tag_set_strings _ [" b "; "a"; ""; "b"; "  "]) |];
    [reflexivity |].
  split; reflexivity.
Defined.

(** X2.  [_ensure_defaults] touches the status only at a progress of
    100: below that the status is the one of the input, or "to_read"
    when the input has none, so that a book marked read stays read
    when its progress is lower. *)
Theorem normalize_status (e : stamp) (b b' : dict) :
  _ensure_defaults e b = Ok b' →
  ∃ p, b' !! "progress" = Some (VInt p)
       ∧ (p < 100 → b' !! "status"
                    = Some (get_or b "status" (VStr "to_read")))
       ∧ (100 ≤ p → b' !! "status" = Some (VStr "read")).
Proof.
  intros (S & n & _ & _ & ->)%ensure_defaults_Ok.
  exists (clamp n). split; [apply finish_progress |]. split.
  - intros Hp. unfold finish.
    destruct (100 <=? clamp n) eqn:Hc; [lia |].
    rewrite !lookup_insert_ne by done.
    unfold get_or. rewrite lookup_union. by destruct (b !! "status").
  - apply finish_status_read.
Qed.

Lemma normalize_status_witness :
  let b' := finish ex_stamp ex_lowered ∅ 30 in
  _ensure_defaults ex_stamp ex_lowered = Ok b'
  ∧ ∃ p, b' !! "progress" = Some (VInt p)
         ∧ (p < 100 → b' !! "status"
                      = Some (get_or ex_lowered "status" (VStr "to_read")))
         ∧ (100 ≤ p → b' !! "status" = Some (VStr "read")).
Proof.
  intros b'.
  assert (H : _ensure_defaults ex_stamp ex_lowered = Ok b').
  { apply ensure_defaults_Ok. exists ∅, 30. repeat split; reflexivity. }
  split; [exact H |].
  exact (normalize_status ex_stamp ex_lowered b' H).
Defined.

(** X3.  The tags after normalisation depend only on which trimmed
    tags the input has, not on their order or on how often each
    occurs. *)
Theorem normalize_tags_any_order (e1 e2 : stamp) (b1 b2 b1' b2' : dict)
    (ts1 ts2 : list string) :
  py_iter (get_or b1 "tags" (VList [])) = Ok (VStr <$> ts1) →
  py_iter (get_or b2 "tags" (VList [])) = Ok (VStr <$> ts2) →
  (∀ t, t ∈ strip <$> ts1 ↔ t ∈ strip <$> ts2) →
  _ensure_defaults e1 b1 = Ok b1' →
  _ensure_defaults e2 b2 = Ok b2' →
  b1' !! "tags" = b2' !! "tags".
Proof.
  intros H1%tag_set_strings H2%tag_set_strings Hsame.
  intros (S1 & n1 & HS1 & _ & ->)%ensure_defaults_Ok.
  intros (S2 & n2 & HS2 & _ & ->)%ensure_defaults_Ok.
  rewrite H1 in HS1. rewrite H2 in HS2.
  injection HS1 as <-. injection HS2 as <-.
  rewrite !finish_tags.
  assert (Heq : (list_to_set (List.filter nonempty (strip <$> ts1)) : gset string)
                = list_to_set (List.filter nonempty (strip <$> ts2))).
  { apply set_eq. intros s.
    by rewrite !elem_of_list_to_set, !elem_of_filter_nonempty, Hsame. }
  by rewrite Heq.
Qed.

Lemma normalize_tags_any_order_witness :
  let b1 : dict := <["tags" := VList [VStr "b"; VStr " a"; VStr "b "]]> ∅ in
  let b2 : dict := <["tags" := VList [VStr "a "; VStr "b"]]> ∅ in
  let S : gset string := list_to_set ["b"; "a"; "b"] in
  let T : gset string := list_to_set ["a"; "b"] in
  finish ex_stamp b1 S 0 !! "tags" = finish ex_stamp b2 T 0 !! "tags".
Proof.
  intros b1 b2 S T.
  apply (normalize_tags_any_order ex_stamp ex_stamp b1 b2 _ _
           ["b"; " a"; "b "] ["a "; "b"]).
  - reflexivity.
  - reflexivity.
  - intros t. vm_compute fmap.
    rewrite !elem_of_cons, !elem_of_nil. tauto.
  - apply ensure_defaults_Ok. exists S, 0. repeat split; reflexivity.
  - apply ensure_defaults_Ok. exists T, 0. repeat split; reflexivity.
Defined.

(** ** [_find_by_id] *)

Lemma find_by_id_cons (x : dict) (r : list dict) (bid : string) :
  _find_by_id (x :: r) bid =
  (v ← getitem x "id";
   if eq_str v bid then Ok (Some x) else _find_by_id r bid).
Proof. done. Qed.

(** The three ways [_find_by_id] can end. *)
Lemma find_by_id_cases (db : list dict) (bid : string) :
  (∀ x, _find_by_id db bid = Ok (Some x) ↔
        ∃ pre post, db = (pre ++ x :: post)%list
                    ∧ Forall (other_id bid) pre
                    ∧ x !! "id" = Some (VStr bid))
  ∧ (_find_by_id db bid = Ok None ↔ Forall (other_id bid) db)
  ∧ (_find_by_id db bid = Raise (KeyError "id") ↔
     ∃ pre y post, db = (pre ++ y :: post)%list
                   ∧ Forall (other_id bid) pre ∧ y !! "id" = None).
Proof.
  induction db as [|y db (IHs & IHn & IHr)].
  - split; [|split].
    + intros x. split; [done |]. by intros ([|??] & ? & ? & _).
    + split; [constructor | done].
    + split; [done |]. by intros ([|??] & ? & ? & ? & _).
  - rewrite find_by_id_cons. unfold getitem.
    destruct (y !! "id") as [v|] eqn:Hy; simpl.
    + destruct (eq_str v bid) eqn:Hv.
      * assert (v = VStr bid) as ->.
        { destruct v; try done. simpl in Hv.
          by apply String.eqb_eq in Hv as ->. }
        assert (Hno : ¬ other_id bid y).
        { intros (v' & Hv' & Hne). rewrite Hy in Hv'.
          injection Hv' as <-. simpl in Hne.
          by rewrite String.eqb_refl in Hne. }
        split; [|split].
        -- intros x. split.
           ++ intros [= <-]. by exists [], db.
           ++ intros ([|z pre] & post & Hdb & Hpre & Hx).
              ** by injection Hdb as -> ->.
              ** injection Hdb as -> ->. by inversion Hpre.
        -- split; [done |]. by inversion 1.
        -- split; [done |].
           intros ([|z pre] & y' & post & Hdb & Hpre & Hy').
           ++ injection Hdb as -> ->. congruence.
           ++ injection Hdb as -> ->. by inversion Hpre.
      * assert (Hoth : other_id bid y) by (by exists v).
        split; [|split].
        -- intros x. rewrite IHs. split.
           ++ intros (pre & post & -> & Hpre & Hx).
              exists (y :: pre), post.
              split; [done |]. split; [by constructor | done].
           ++ intros ([|z pre] & post & Hdb & Hpre & Hx).
              ** injection Hdb as -> ->. rewrite Hy in Hx.
                 injection Hx as ->. simpl in Hv.
                 by rewrite String.eqb_refl in Hv.
              ** injection Hdb as -> ->. inversion Hpre; subst. eauto.
        -- rewrite IHn. split; [by constructor | by inversion 1].
        -- rewrite IHr. split.
           ++ intros (pre & y' & post & -> & Hpre & Hy').
              exists (y :: pre), y', post.
              split; [done |]. split; [by constructor | done].
           ++ intros ([|z pre] & y' & post & Hdb & Hpre & Hy').
              ** injection Hdb as -> ->. congruence.
              ** injection Hdb as -> ->. inversion Hpre; subst. eauto 6.
    + assert (Hno : ¬ other_id bid y).
      { intros (v' & Hv' & _). congruence. }
      split; [|split].
      * intros x. split; [done |].
        intros ([|z pre] & post & Hdb & Hpre & Hx).
        -- injection Hdb as -> ->. congruence.
        -- injection Hdb as -> ->. by inversion Hpre.
      * split; [done |]. by inversion 1.
      * split; [|done]. intros _. by exists [], y, db.
Qed.

(** X4.  [_find_by_id] returns the first record whose id is the given
    one, provided every record before it has an id; it returns [None]
    exactly when every record has an id and none is the given one; a
    record without id that comes before any match makes it raise
    [KeyError]. *)
Theorem find_by_id_first (db : list dict) (bid : string) :
  (∀ x, _find_by_id db bid = Ok (Some x) ↔
        ∃ pre post, db = (pre ++ x :: post)%list
                    ∧ Forall (other_id bid) pre
                    ∧ x !! "id" = Some (VStr bid))
  ∧ (_find_by_id db bid = Ok None ↔ Forall (other_id bid) db)
  ∧ (_find_by_id db bid = Raise (KeyError "id") ↔
     ∃ pre y post, db = (pre ++ y :: post)%list
                   ∧ Forall (other_id bid) pre ∧ y !! "id" = None).
Proof. apply find_by_id_cases. Qed.

(** ** [_slugify]: the shape of a slug *)

(** All 256 characters, one by one. *)
Ltac each_char c :=
  destruct c as [[] [] [] [] [] [] [] []]; vm_compute; try reflexivity;
  try discriminate; auto.

Lemma lower_char_idemp c : lower_char (lower_char c) = lower_char c.
Proof. each_char c. Qed.

Lemma sep_or_slug c :
  is_word c || is_space c || Ascii.eqb c hyphen = true →
  is_sep (lower_char c) = true
  ∨ (is_sep (lower_char c) = false ∧ slug_char (lower_char c) = true).
Proof. each_char c. Qed.

Lemma slug_char_kept c :
  slug_char c = true →
  is_word c || is_space c || Ascii.eqb c hyphen = true
  ∧ is_space c = false ∧ lower_char c = c
  ∧ is_sep c = Ascii.eqb c hyphen.
Proof. each_char c. Qed.

Lemma slug_char_safe c :
  slug_char c = true →
  c ≠ "/"%char ∧ c ≠ "."%char ∧ c ≠ backslash ∧ c ≠ " "%char
  ∧ c ≠ underscore.
Proof.
  destruct c as [[] [] [] [] [] [] [] []]; vm_compute; intros H;
    try discriminate H; repeat split; discriminate.
Qed.

#[local] Arguments is_word : simpl never.
#[local] Arguments is_space : simpl never.
#[local] Arguments is_sep : simpl never.
#[local] Arguments slug_char : simpl never.
#[local] Arguments lower_char : simpl never.

Lemma drop_symbols_chars s :
  Forall (λ c, is_word c || is_space c || Ascii.eqb c hyphen = true)
    (list_ascii_of_string (drop_symbols s)).
Proof.
  induction s as [|c s IH]; simpl; [constructor |].
  destruct (is_word c || is_space c || Ascii.eqb c hyphen) eqn:Hc; [|done].
  simpl. by constructor.
Qed.

Lemma lstrip_chars (P : ascii → Prop) s :
  Forall P (list_ascii_of_string s) → Forall P (list_ascii_of_string (lstrip s)).
Proof.
  induction s as [|c s IH]; simpl; [done |].
  inversion 1; subst. destruct (is_space c); [auto | by constructor].
Qed.

Lemma rstrip_chars (P : ascii → Prop) s :
  Forall P (list_ascii_of_string s) → Forall P (list_ascii_of_string (rstrip s)).
Proof.
  induction s as [|c s IH]; [done |].
  rewrite rstrip_cons. simpl. inversion 1 as [|? ? Hc Hs]; subst.
  specialize (IH Hs). destruct (rstrip s) as [|c' r'].
  - destruct (is_space c); [constructor | by repeat constructor].
  - by constructor.
Qed.

Lemma lower_chars s :
  Forall (λ c, is_word c || is_space c || Ascii.eqb c hyphen = true)
    (list_ascii_of_string s) →
  Forall kept_char (list_ascii_of_string (lower s)).
Proof.
  induction s as [|c s IH]; simpl; [constructor |].
  inversion 1; subst. constructor; [by apply sep_or_slug | auto].
Qed.

Lemma hyphenate_tidy in_run s :
  Forall kept_char (list_ascii_of_string s) →
  tidy in_run (hyphenate in_run s) = true.
Proof.
  revert in_run. induction s as [|c s IH]; intros in_run; [done |].
  simpl. inversion 1 as [|? ? Hc Hs]; subst.
  destruct Hc as [Hsep | [Hsep Hslug]]; rewrite Hsep.
  - destruct in_run; [by apply IH |].
    simpl. rewrite (IH true Hs). done.
  - simpl. rewrite Hslug.
    destruct (slug_char_kept c Hslug) as (_ & _ & _ & Hh).
    rewrite Hsep in Hh. rewrite <- Hh. simpl. by apply IH.
Qed.

Lemma tidy_chars b s :
  tidy b s = true → Forall (λ c, slug_char c = true) (list_ascii_of_string s).
Proof.
  revert b. induction s as [|c s IH]; intros b; simpl; [constructor |].
  intros [Hc Hr]%andb_true_iff. constructor; [done |].
  destruct (Ascii.eqb c hyphen); [|by eapply IH].
  apply andb_true_iff in Hr as [_ Hr]. by eapply IH.
Qed.

Lemma tidy_no_double b s : tidy b s = true → ¬ occurs_in "--" s.
Proof.
  revert b. induction s as [|c s IH]; intros b; simpl.
  - intros _ ([|??] & ? & ?); done.
  - intros [Hc Hr]%andb_true_iff ([|c' pre] & post & Heq).
    + simpl in Heq. injection Heq as -> ->.
      change (Ascii.eqb "-" hyphen) with true in Hr.
      apply andb_true_iff in Hr as [_ Hr]. simpl in Hr.
      by destruct (slug_char "-").
    + simpl in Heq. injection Heq as -> ->.
      destruct (Ascii.eqb c' hyphen).
      * apply andb_true_iff in Hr as [_ Hr]. eapply IH; [done |].
        by exists pre, post.
      * eapply IH; [done |]. by exists pre, post.
Qed.

(** A tidy string goes through every step of [_slugify] unchanged. *)
Lemma tidy_drop_symbols b s : tidy b s = true → drop_symbols s = s.
Proof.
  intros H%tidy_chars. induction s as [|c s IH]; simpl; [done |].
  simpl in H. inversion H as [|? ? Hc Hs]; subst.
  destruct (slug_char_kept c Hc) as (-> & _). by rewrite IH.
Qed.

Lemma no_space_rstrip s :
  Forall (λ c, is_space c = false) (list_ascii_of_string s) → rstrip s = s.
Proof.
  induction s as [|c s IH]; [done |].
  rewrite rstrip_cons. simpl. inversion 1 as [|? ? Hc Hs]; subst.
  rewrite (IH Hs). destruct s; [by rewrite Hc | done].
Qed.

Lemma tidy_strip b s : tidy b s = true → strip s = s.
Proof.
  intros H%tidy_chars.
  assert (Hns : Forall (λ c, is_space c = false) (list_ascii_of_string s)).
  { eapply Forall_impl; [done |]. intros c Hc.
    by destruct (slug_char_kept c Hc) as (_ & ? & _). }
  unfold strip.
  assert (lstrip s = s) as ->.
  { destruct s as [|c s]; [done |]. simpl.
    simpl in Hns. inversion Hns as [|? ? Hc _]. by rewrite Hc. }
  by apply no_space_rstrip.
Qed.

Lemma tidy_lower b s : tidy b s = true → lower s = s.
Proof.
  intros H%tidy_chars. induction s as [|c s IH]; simpl; [done |].
  simpl in H. inversion H as [|? ? Hc Hs]; subst.
  destruct (slug_char_kept c Hc) as (_ & _ & -> & _). by rewrite IH.
Qed.

Lemma tidy_hyphenate b s : tidy b s = true → hyphenate b s = s.
Proof.
  revert b. induction s as [|c s IH]; intros b; simpl; [done |].
  intros [Hc Hr]%andb_true_iff.
  destruct (slug_char_kept c Hc) as (_ & _ & _ & ->).
  destruct (Ascii.eqb c hyphen) eqn:Hh.
  - apply andb_true_iff in Hr as [Hb Hr]. apply negb_true_iff in Hb. subst b.
    apply Ascii.eqb_eq in Hh. subst c. by rewrite IH.
  - by rewrite IH.
Qed.

Lemma slug_tidy text :
  tidy false (hyphenate false (lower (strip (drop_symbols text)))) = true.
Proof.
  apply hyphenate_tidy, lower_chars. unfold strip.
  apply rstrip_chars, lstrip_chars, drop_symbols_chars.
Qed.

(** X5.  For a text whose characters are all code points below 256
    (Latin-1), the slug is the fallback identifier, or it is a
    non-empty string of hyphens and lower-case word characters in
    which no two hyphens are adjacent; such a string has no slash, dot,
    backslash, blank or underscore.  With a non-empty fallback the
    slug is never empty.  (Outside that range the statement fails:
    lowering a capital I with dot gives a combining mark, which is not
    a word character.) *)
Theorem slugify_shape (uuid text : string) :
  (_slugify uuid text = uuid
   ∨ (_slugify uuid text ≠ ""
      ∧ Forall (λ c, slug_char c = true)
          (list_ascii_of_string (_slugify uuid text))
      ∧ Forall (λ c, c ≠ "/"%char ∧ c ≠ "."%char ∧ c ≠ backslash
                     ∧ c ≠ " "%char ∧ c ≠ underscore)
          (list_ascii_of_string (_slugify uuid text))
      ∧ ¬ occurs_in "--" (_slugify uuid text)))
  ∧ (uuid ≠ "" → _slugify uuid text ≠ "").
Proof.
  pose proof (slug_tidy text) as Ht. unfold _slugify.
  destruct (nonempty _) eqn:Hne; [|by split; [left |]].
  apply nonempty_true in Hne. split; [|done]. right.
  split; [done |]. split; [by eapply tidy_chars |].
  split; [|by eapply tidy_no_double].
  eapply Forall_impl; [by eapply tidy_chars |]. apply slug_char_safe.
Qed.

(** X6.  For a text whose characters are all code points below 256
    (Latin-1), slugifying the slug gives the same slug: unless the
    fallback was used, [_slugify] applied to its own result returns
    it. *)
Theorem slugify_idempotent (uuid text : string) :
  hyphenate false (lower (strip (drop_symbols text))) ≠ "" →
  _slugify uuid (_slugify uuid text) = _slugify uuid text.
Proof.
  intros Hne. pose proof (slug_tidy text) as Ht.
  assert (Hs : _slugify uuid text
               = hyphenate false (lower (strip (drop_symbols text)))).
  { unfold _slugify. apply nonempty_true in Hne. by rewrite Hne. }
  rewrite Hs. set (s := hyphenate false _) in *.
  unfold _slugify.
  rewrite (tidy_drop_symbols _ _ Ht), (tidy_strip _ _ Ht),
    (tidy_lower _ _ Ht), (tidy_hyphenate _ _ Ht).
  apply nonempty_true in Hne. by rewrite Hne.
Qed.

Lemma slugify_idempotent_witness :
  _slugify "u-0" (_slugify "u-0" "  The Stranger's_Ledger: Vol. 2/3 ")
  = _slugify "u-0" "  The Stranger's_Ledger: Vol. 2/3 ".
Proof.
  apply (slugify_idempotent "u-0" "  The Stranger's_Ledger: Vol. 2/3 ").
  vm_compute. discriminate.
Defined.

Example slugify_run :
  _slugify "u-0" "  The Stranger's_Ledger: Vol. 2/3 "
  = "the-strangers-ledger-vol-23"
  ∧ _slugify "u-0" "?!" = "u-0".
Proof. split; reflexivity. Qed.

(** ** Loops over the shown records *)

Lemma elem_of_enumerate (db : list dict) (i : nat) (b : dict) :
  (i, b) ∈ enumerate db ↔ db !! i = Some b.
Proof.
  unfold enumerate. rewrite elem_of_lookup_imap. split.
  - by intros (i' & b' & [= -> ->] & H).
  - intros H. by exists i, b.
Qed.

Lemma enumerate_NoDup (db : list dict) : NoDup (fst <$> enumerate db).
Proof.
  apply NoDup_alt. intros i j k.
  unfold enumerate. rewrite !list_lookup_fmap, !list_lookup_imap.
  destruct (db !! i), (db !! j); simpl; congruence.
Qed.

(** What is shown is part of the collection, each record once. *)
Lemma shown_sublist (l : list (nat * dict)) (db : list dict) :
  sublist l (enumerate db) →
  NoDup (fst <$> l) ∧ ∀ i b, (i, b) ∈ l → db !! i = Some b.
Proof.
  intros Hs. split.
  - eapply sublist_NoDup; [apply enumerate_NoDup | by apply fmap_sublist].
  - intros i b Hi. apply elem_of_enumerate.
    eapply elem_of_submseteq; [done | by apply sublist_submseteq].
Qed.

Lemma idle_pure db : idle db (pure db).
Proof. intros m. simpl. repeat split. by intros d [= <-]. Qed.

Lemma idle_andthen {A} (c : act A) (k : A → act (list dict)) db :
  quiet c → (∀ a, idle db (k a)) → idle db (andthen c k).
Proof.
  intros Hc Hk m. unfold andthen. destruct (Hc m) as [Hf Hd].
  destruct (c m) as [[a|x] m']; simpl in *; [|done].
  destruct (Hk a m') as (-> & -> & Hr). done.
Qed.

Lemma idle_for_each {A} (l : list A) (body : A → list dict → act (list dict))
    (db : list dict) :
  (∀ x d, x ∈ l → idle d (body x d)) → idle db (for_each l body db).
Proof.
  revert db. induction l as [|x l IH]; intros db Hb; simpl.
  - apply idle_pure.
  - intros m. unfold andthen.
    destruct (Hb x db (list_elem_of_here _ _) m) as (Hf & Hd & Hr).
    destruct (body x db m) as [[d|y] m']; simpl in *; [|done].
    rewrite (Hr d eq_refl).
    destruct (IH db (λ x' d' Hx', Hb x' d' (list_elem_of_further _ _ _ Hx')) m')
      as (-> & -> & Hr').
    done.
Qed.

Lemma idle_effect W db c : idle db c → effect W db c.
Proof. intros H m. destruct (H m) as (? & ? & ?). auto. Qed.

(** A loop in which one position at most is acted on. *)
Lemma for_each_effect W (j : nat) (l : list (nat * dict))
    (body : nat * dict → list dict → act (list dict)) (db : list dict) :
  NoDup (fst <$> l) →
  (∀ x, x ∈ l → x.1 = j → effect W db (body x db)) →
  (∀ x d, x.1 ≠ j → idle d (body x d)) →
  effect W db (for_each l body db).
Proof.
  induction l as [|x l IH]; intros Hnd Hhit Hmiss; simpl.
  - apply idle_effect, idle_pure.
  - rewrite fmap_cons in Hnd. apply NoDup_cons in Hnd as [Hx Hnd].
    intros m. unfold andthen.
    destruct (decide (x.1 = j)) as [Hj|Hj].
    + destruct (Hhit x (list_elem_of_here _ _) Hj m) as (Hf & Hw).
      destruct (body x db m) as [[d|y] m'] eqn:Hb; simpl in *; [|by split].
      assert (Hrest : idle d (for_each l body d)).
      { apply idle_for_each. intros x' d' Hx'. apply Hmiss.
        intros Heq. apply Hx. rewrite Hj, <- Heq.
        by apply list_elem_of_fmap_2. }
      destruct (Hrest m') as (-> & -> & Hr). split; [done |].
      destruct Hw as [[Hd Hok] | (db' & Hd & HW & Hok)].
      * left. split; [done |]. intros d' Hd'%Hr. rewrite Hd'. by apply Hok.
      * right. exists db'. split; [done |]. split; [done |].
        intros d' Hd'%Hr. rewrite Hd'. by apply Hok.
    + destruct (Hmiss x db Hj m) as (Hf & Hd & Hok).
      destruct (body x db m) as [[d|y] m'] eqn:Hb; simpl in *; [|auto].
      rewrite (Hok d eq_refl).
      destruct (IH Hnd (λ x' Hx', Hhit x' (list_elem_of_further _ _ _ Hx'))
                  Hmiss m') as (-> & Hw).
      split; [done |]. by rewrite Hd in Hw.
Qed.


(** ** What each tab can do to the file *)

Lemma effect_lift {A} W db (x : exc A) (k : A → act (list dict)) :
  (∀ a, x = Ok a → effect W db (k a)) → effect W db (andthen (lift x) k).
Proof.
  intros H m. unfold andthen, lift. destruct x as [a|y]; [by apply H |].
  simpl. split; [done |]. left. split; [done |]. by intros d.
Qed.

Lemma wam_andthen_quiet {A B} W (c : act A) (k : A → act B) :
  quiet c → (∀ a, writes_at_most W (k a)) → writes_at_most W (andthen c k).
Proof.
  intros Hc Hk m. unfold andthen. destruct (Hc m) as [Hf Hd].
  destruct (c m) as [[a|x] m']; simpl in *; [|auto].
  destruct (Hk a m') as (-> & Hw). split; [done |]. by rewrite Hd in Hw.
Qed.

Lemma wam_idle_then {A} W db (c : act (list dict)) (k : list dict → act A) :
  idle db c → writes_at_most W (k db) → writes_at_most W (andthen c k).
Proof.
  intros Hc Hk m. unfold andthen. destruct (Hc m) as (Hf & Hd & Hok).
  destruct (c m) as [[d|x] m']; simpl in *; [|auto].
  rewrite (Hok d eq_refl).
  destruct (Hk m') as (-> & Hw). split; [done |]. by rewrite Hd in Hw.
Qed.

Lemma wam_effect_then {A} W db (c : act (list dict)) (k : list dict → act A) :
  effect W db c → (∀ d, quiet (k d)) → writes_at_most W (andthen c k).
Proof.
  intros Hc Hk m. unfold andthen. destruct (Hc m) as (Hf & Hw).
  destruct (c m) as [[d|x] m']; simpl in *.
  - destruct (Hk d m') as [-> ->]. split; [done |].
    destruct Hw as [[Hd _] | (db' & Hd & HW & _)]; eauto.
  - split; [done |]. destruct Hw as [[Hd _] | (db' & Hd & HW & _)]; eauto.
Qed.

Lemma select_sublist {A} (p : A → exc bool) (l out : list A) :
  select p l = Ok out → sublist out l.
Proof.
  revert out. induction l as [|x l IH]; intros out; simpl.
  - intros [= <-]. constructor.
  - intros (c & _ & (rest & Hrest & [= <-])%bind_Ok)%bind_Ok.
    destruct c; constructor; by apply IH.
Qed.

Lemma library_filter_sublist {A} (view : A → dict) f (l out : list A) :
  library_filter view f l = Ok out → sublist out l.
Proof.
  unfold library_filter.
  intros (l1 & H1 & (l2 & H2 & H4)%bind_Ok)%bind_Ok.
  assert (S1 : sublist l1 l).
  { destruct (nonempty (q f)); [by eapply select_sublist |].
    by injection H1 as <-. }
  assert (S2 : sublist l2 l1).
  { destruct (nonempty (strip (tag_filter f))); [by eapply select_sublist |].
    by injection H2 as <-. }
  simpl in H4.
  assert (S3 : sublist (if fav_only f
                        then List.filter (λ x, truthy (get (view x) "favorite")) l2
                        else l2) l2).
  { destruct (fav_only f); [apply filter_sublist | done]. }
  assert (S4 : sublist out (if fav_only f
                        then List.filter (λ x, truthy (get (view x) "favorite")) l2
                        else l2)).
  { destruct (negb _); [by eapply select_sublist |]. by injection H4 as <-. }
  by repeat (etrans; [done |]).
Qed.

(** *** The form *)

Lemma drop_cover_id f init : drop_cover f init !! "id" = init !! "id".
Proof.
  unfold drop_cover. destruct (_ && _); [|done].
  by rewrite lookup_insert_ne.
Qed.

Lemma form_book_id e f init rated :
  form_book e f init rated !! "id" = Some (get_or init "id" (VStr (uuid4 e))).
Proof.
  unfold form_book.
  destruct (100 <=? progress f), (cover_file f),
    (truthy (get init "cover_path"));
    repeat (rewrite lookup_insert_ne by done); apply lookup_insert_eq.
Qed.

Lemma eq_str_true v s : eq_str v s = true ↔ v = VStr s.
Proof.
  destruct v; simpl; try (split; [done | by intros [=]]).
  rewrite String.eqb_eq. split; [by intros -> | by intros [= ->]].
Qed.

(** The dict the form starts from carries the selected id, unless no
    record does. *)
Lemma form_init_id db sid init :
  nonempty sid = true → form_init db (Some sid) = Ok init →
  init !! "id" = Some (VStr sid) ∨ (init = ∅ ∧ Forall (other_id sid) db).
Proof.
  intros Hne. unfold form_init. rewrite Hne.
  intros (cur & Hcur & [= <-])%bind_Ok.
  destruct (find_by_id_cases db sid) as (Hs & Hn & _).
  destruct cur as [x|].
  - apply Hs in Hcur as (pre & post & _ & _ & Hx). left.
    destruct (size x =? 0)%nat eqn:Hsz; [|done].
    apply Nat.eqb_eq, map_size_empty_iff in Hsz. subst x.
    by rewrite lookup_empty in Hx.
  - right. split; [done |]. by apply Hn.
Qed.

Lemma selected_Some sel sid :
  selected sel = Some sid → sel = Some sid ∧ nonempty sid = true.
Proof.
  unfold selected. destruct sel as [s|]; [|done].
  destruct (nonempty s) eqn:Hs; [|done]. by intros [= ->].
Qed.

Lemma selected_None_init db sel init :
  selected sel = None → form_init db sel = Ok init → init = ∅.
Proof.
  unfold selected, form_init. destruct sel as [s|]; [|by intros _ [= <-]].
  destruct (nonempty s); [done |]. by intros _ [= <-].
Qed.

Lemma idle_caption (ce : bool) n db :
  idle db (if negb ce then say (Caption n) ;;; pure db else pure db).
Proof.
  destruct ce; simpl; [apply idle_pure |].
  apply idle_andthen; [apply quiet_say |]. intros _. apply idle_pure.
Qed.

Lemma drop_cover_empty f : drop_cover f ∅ = ∅.
Proof. unfold drop_cover, get, get_or. by rewrite lookup_empty. Qed.

Lemma effect_book_form e ce c db :
  effect (written e db c) db (book_form e ce c db).
Proof.
  unfold book_form. destruct ce; simpl.
  - destruct c; try apply idle_effect, idle_pure.
    apply effect_lift. intros init Hi.
    apply effect_lift. intros rated Hr.
    unfold submit. destruct (nonempty (strip (title f))) eqn:Ht; simpl.
    2:{ apply idle_effect. apply idle_andthen; [apply quiet_say |].
        intros _. apply idle_pure. }
    intros m. unfold andthen, lift.
    destruct (selected (selected_id f)) as [sid|] eqn:Hs.
    + destruct (update_by_id _ _ _ _) as [dbu|] eqn:Hu; simpl.
      2:{ split; [done |]. left. split; [done |]. by intros d. }
      split; [done |]. right. exists dbu. split; [done |].
      split; [|by intros d [= <-]].
      apply selected_Some in Hs as Hsel. destruct Hsel as [Hsel _].
      rewrite Hsel in Hi. by eapply written_update.
    + pose proof (selected_None_init _ _ _ Hs Hi) as ->.
      rewrite drop_cover_empty.
      destruct (_ensure_defaults _ _) as [nb|] eqn:Hn; simpl.
      2:{ split; [done |]. left. split; [done |]. by intros d. }
      split; [done |]. right. eexists. split; [done |].
      split; [|by intros d [= <-]].
      by eapply written_add.
  - apply idle_effect. apply idle_andthen; [apply quiet_say |].
    intros _. apply idle_pure.
Qed.

Lemma idle_book_form e ce c db :
  (∀ f, c ≠ FormSave f) → idle db (book_form e ce c db).
Proof.
  intros Hc. unfold book_form. destruct ce; simpl.
  - destruct c; try apply idle_pure. by destruct (Hc f).
  - apply idle_andthen; [apply quiet_say |]. intros _. apply idle_pure.
Qed.

(** *** The Currently Reading tab *)

Lemma update_progress_eq e j b new_prog db m :
  update_progress e j b new_prog db m
  = (Ok (<[j := progressed e new_prog b]> db),
     Machine (can_edit m) (Some (<[j := progressed e new_prog b]> db))
       (reco_log m) (screen m ++ [Success "Updated!"])).
Proof. reflexivity. Qed.

Lemma effect_currently_reading e ce c db :
  effect (written e db c) db (currently_reading e ce c db).
Proof.
  unfold currently_reading. apply effect_lift. intros reading Hsel.
  apply select_sublist, shown_sublist in Hsel as [Hnd Hin].
  destruct reading as [|x0 rest].
  { apply idle_effect. apply idle_andthen; [apply quiet_say |].
    intros _. apply idle_pure. }
  destruct c;
    try (apply idle_effect, idle_for_each; intros x d _; apply idle_caption).
  destruct ce; cbn [andb negb].
  - apply (for_each_effect _ i); [done | |].
    + intros [j b] Hx Hj. simpl in Hj. subst j. simpl.
      rewrite Nat.eqb_refl. intros m. rewrite update_progress_eq. simpl.
      split; [done |]. right. eexists. split; [done |].
      split; [|by intros d [= <-]].
      apply written_progress. by apply Hin.
    + intros x d Hne. apply Nat.neq_sym, Nat.eqb_neq in Hne. rewrite Hne.
      apply idle_pure.
  - apply idle_effect, idle_for_each. intros x d _.
    apply idle_andthen; [apply quiet_say |]. intros _. apply idle_pure.
Qed.

Lemma idle_currently_reading e ce c db :
  (∀ i p, c ≠ UpdateBtn i p) → idle db (currently_reading e ce c db).
Proof.
  intros Hc. unfold currently_reading.
  apply idle_andthen; [apply quiet_lift |]. intros reading.
  destruct reading as [|x0 rest].
  { apply idle_andthen; [apply quiet_say |]. intros _. apply idle_pure. }
  destruct c; try (apply idle_for_each; intros x d _; apply idle_caption).
  by destruct (Hc i new_prog).
Qed.

(** *** The Library tab *)

Lemma quick_save_eq e j b k db m :
  quick_save e j b k db m
  = (Ok (<[j := quick_edited e k b]> db),
     Machine (can_edit m) (Some (<[j := quick_edited e k b]> db))
       (reco_log m) (screen m ++ [Success "Saved."])).
Proof. reflexivity. Qed.

Lemma delete_book_eq b db m :
  delete_book b db m
  = match list_remove b db with
    | Ok db' => (Raise RerunException,
                 Machine (can_edit m) (Some db') (reco_log m)
                   (screen m ++ [Warning "Deleted."]))
    | Raise x => (Raise x, m)
    end.
Proof.
  unfold delete_book, andthen, lift. by destruct (list_remove b db).
Qed.

Lemma idle_library_row (ce : bool) db :
  idle db
    (db0 ↤ (if negb ce
            then say (Caption "Login as admin to save.") ;;; pure db
            else pure db);;
     if negb ce
     then say (Caption "Login as admin to delete.") ;;; pure db0
     else pure db0).
Proof.
  intros m. destruct ce; simpl; (split; [done |]); (split; [done |]);
    by intros d [= <-].
Qed.

Lemma effect_library e ce f c db :
  effect (written e db c) db (library e ce f c db).
Proof.
  unfold library. apply effect_lift. intros fl Hfl.
  apply library_filter_sublist, shown_sublist in Hfl as [Hnd Hin].
  destruct fl as [|x0 rest].
  { apply idle_effect. apply idle_andthen; [apply quiet_say |].
    intros _. apply idle_pure. }
  destruct ce.
  2:{ apply idle_effect, idle_for_each. intros x d _. simpl.
      apply (idle_library_row false). }
  destruct c;
    try (apply idle_effect, idle_for_each; intros x d _; simpl;
         apply (idle_library_row true)).
  - (* Quick Edit save *)
    apply (for_each_effect _ i); [done | |].
    + intros [j b] Hx Hj. simpl in Hj. subst j. simpl.
      rewrite Nat.eqb_refl. intros m. unfold andthen at 1.
      rewrite quick_save_eq. simpl.
      split; [done |]. right. eexists. split; [done |].
      split; [|by intros d [= <-]].
      apply written_quick. by apply Hin.
    + intros x d Hne. apply Nat.neq_sym, Nat.eqb_neq in Hne. simpl.
      rewrite Hne. apply (idle_library_row true).
  - (* Delete *)
    apply (for_each_effect _ i); [done | |].
    + intros [j b] Hx Hj. simpl in Hj. subst j. simpl.
      rewrite Nat.eqb_refl.
      destruct (list_remove b db) as [db'|y] eqn:Hrm;
        intros m; unfold andthen, pure; rewrite delete_book_eq, Hrm; simpl.
      * split; [done |]. right. exists db'. split; [done |].
        split; [|by intros d]. eapply written_delete; [|done].
        by apply Hin.
      * split; [done |]. left. split; [done |]. by intros d.
    + intros x d Hne. apply Nat.neq_sym, Nat.eqb_neq in Hne. simpl.
      rewrite Hne. apply (idle_library_row true).
Qed.

Lemma idle_library e ce f c db :
  (∀ i k, c ≠ QuickSave i k) → (∀ i, c ≠ DeleteBtn i) →
  idle db (library e ce f c db).
Proof.
  intros Hq Hd. unfold library.
  apply idle_andthen; [apply quiet_lift |]. intros fl.
  destruct fl as [|x0 rest].
  { apply idle_andthen; [apply quiet_say |]. intros _. apply idle_pure. }
  apply idle_for_each. intros x d _.
  destruct c; simpl; rewrite ?andb_false_r;
    try apply (idle_library_row ce).
  - by destruct (Hq i k).
  - by destruct (Hd i).
Qed.

(** *** The page *)

Lemma idle_quiet db c : idle db c → quiet c.
Proof. intros H m. by destruct (H m) as (? & ? & _). Qed.

Lemma page_writes e r ce m :
  can_edit (page e r ce m).2 = can_edit m
  ∧ (books_db (page e r ce m).2 = books_db m
     ∨ ∃ db', books_db (page e r ce m).2 = Some db'
              ∧ written e (loaded m) (pressed r) db').
Proof.
  assert (H : ∀ db, writes_at_most (written e db (pressed r))
    (_ ↤ lift (overview db);;
     db ↤ book_form e ce (pressed r) db;;
     db ↤ currently_reading e ce (pressed r) db;;
     db ↤ library e ce (search r) (pressed r) db;;
     recommendations e ce (pressed r) db)).
  { intros db. apply wam_andthen_quiet; [apply quiet_lift |]. intros _.
    pose proof (effect_book_form e ce (pressed r) db) as Hform.
    pose proof (effect_currently_reading e ce (pressed r) db) as Hread.
    pose proof (effect_library e ce (search r) (pressed r) db) as Hlib.
    pose proof (λ d, quiet_recommendations e ce (pressed r) d) as Hreco.
    pose proof (λ d, idle_book_form e ce (pressed r) d) as Iform.
    pose proof (λ d, idle_currently_reading e ce (pressed r) d) as Iread.
    pose proof (λ d, idle_library e ce (search r) (pressed r) d) as Ilib.
    destruct (pressed r) eqn:Hp.
    - apply (wam_idle_then _ db); [by apply Iform |].
      apply (wam_idle_then _ db); [by apply Iread |].
      apply (wam_idle_then _ db); [by apply Ilib |].
      intros m0. destruct (Hreco db m0). auto.
    - apply (wam_idle_then _ db); [by apply Iform |].
      apply (wam_idle_then _ db); [by apply Iread |].
      apply (wam_idle_then _ db); [by apply Ilib |].
      intros m0. destruct (Hreco db m0). auto.
    - apply (wam_effect_then _ db); [apply Hform |]. intros d.
      apply quiet_andthen; [by apply idle_quiet with d, Iread |].
      intros d1.
      apply quiet_andthen; [by apply idle_quiet with d1, Ilib |].
      intros d2. apply Hreco.
    - apply (wam_idle_then _ db); [by apply Iform |].
      apply (wam_effect_then _ db); [apply Hread |].
      intros d.
      apply quiet_andthen; [by apply idle_quiet with d, Ilib |].
      intros d2. apply Hreco.
    - apply (wam_idle_then _ db); [by apply Iform |].
      apply (wam_idle_then _ db); [by apply Iread |].
      apply (wam_effect_then _ db); [apply Hlib |].
      intros d. apply Hreco.
    - apply (wam_idle_then _ db); [by apply Iform |].
      apply (wam_idle_then _ db); [by apply Iread |].
      apply (wam_effect_then _ db); [apply Hlib |].
      intros d. apply Hreco.
    - apply (wam_idle_then _ db); [by apply Iform |].
      apply (wam_idle_then _ db); [by apply Iread |].
      apply (wam_idle_then _ db); [by apply Ilib |].
      intros m0. destruct (Hreco db m0). auto.
    - apply (wam_idle_then _ db); [by apply Iform |].
      apply (wam_idle_then _ db); [by apply Iread |].
      apply (wam_idle_then _ db); [by apply Ilib |].
      intros m0. destruct (Hreco db m0). auto. }
  exact (H (loaded m) m).
Qed.

(** ** One run, one write *)

Lemma after_login_file e r m :
  books_db (after_login e r m).2 = books_db m
  ∧ loaded (after_login e r m).2 = loaded m.
Proof.
  unfold after_login, loaded.
  destruct (pressed r); try done. by destruct (password_ok e (pwd r)).
Qed.

(** The file after a run is the file before it, or what the handler of
    the pressed button wrote, and then the run was in admin mode. *)
Lemma run_written e r m :
  books_db (run e r m) = books_db m
  ∨ (can_edit m = true
     ∧ ∃ db', books_db (run e r m) = Some db'
              ∧ written e (loaded m) (pressed r) db').
Proof.
  unfold run. rewrite script_unfold.
  destruct (after_login_file e r m) as [Hfile Hload].
  destruct (page_writes e r (after_login e r m).1 (after_login e r m).2)
    as [_ [Hsame | (db' & Hdb' & Hw)]]; [left; congruence |].
  rewrite Hload in Hw.
  destruct (can_edit m) eqn:Hm; [right; eauto |]. left.
  assert (Hflag : (after_login e r m).1 = false).
  { unfold after_login. destruct (pressed r); try done. inversion Hw. }
  rewrite Hflag.
  destruct (quiet_page_view_only e r (after_login e r m).2) as [_ ->].
  done.
Qed.

(** X7.  A run leaves the file as it was, or it ran in admin mode and
    overwrote the file with the loaded collection changed by the
    handler of the one button that was pressed: the form's Save adds a
    record at the end or replaces the first record with the selected
    id, Update and Quick Edit replace the record of their row, Delete
    removes one record.  A run started by the login button, by
    Generate or by no button writes nothing. *)
Theorem run_one_write (e : environment) (r : request) (m : machine) :
  (books_db (run e r m) = books_db m
   ∨ (can_edit m = true
      ∧ ∃ db', books_db (run e r m) = Some db'
               ∧ written e (loaded m) (pressed r) db'))
  ∧ (pressed r = NoClick ∨ pressed r = LoginBtn
     ∨ (∃ g, pressed r = GenerateBtn g) →
     books_db (run e r m) = books_db m).
Proof.
  split; [apply run_written |]. intros Hp.
  destruct (run_written e r m) as [H | (_ & db' & _ & Hw)]; [done |].
  destruct Hp as [Hp | [Hp | [g Hp]]]; rewrite Hp in Hw; inversion Hw.
Qed.

(** ** Ids, and the number of records *)

Lemma normalize_keeps st b b' k v :
  k ≠ "tags" → k ≠ "progress" → k ≠ "status" →
  b !! k = Some v → _ensure_defaults st b = Ok b' → b' !! k = Some v.
Proof.
  intros ? ? ? Hv (S & n & _ & _ & ->)%ensure_defaults_Ok.
  rewrite finish_other by done. by apply lookup_union_Some_l.
Qed.

Lemma update_by_id_ids st sid book db db' :
  book !! "id" = Some (VStr sid) ∨ Forall (other_id sid) db →
  update_by_id st sid book db = Ok db' → ids db' = ids db.
Proof.
  revert db'. induction db as [|b db IH]; intros db' Hor; simpl.
  - by intros [= <-].
  - intros (v & Hv & H)%bind_Ok. unfold getitem in Hv.
    destruct (b !! "id") as [v'|] eqn:Hb; [|done]. injection Hv as ->.
    destruct (eq_str v sid) eqn:He.
    + apply bind_Ok in H as (nb & Hnb & [= <-]).
      unfold ids. rewrite !fmap_cons. f_equal.
      apply eq_str_true in He as ->.
      destruct Hor as [Hbook | Hall].
      * eapply (normalize_keeps _ _ _ "id"); [done.. | | done].
        by apply lookup_union_Some_l.
      * inversion Hall as [|?? (v' & Hv' & Hne) _]; subst.
        rewrite Hb in Hv'. injection Hv' as <-. simpl in Hne.
        by rewrite String.eqb_refl in Hne.
    + apply fmap_Ok in H as (rest & Hrest & ->).
      unfold ids. rewrite !fmap_cons. f_equal; [done |]. apply IH; [|done].
      destruct Hor as [? | Hall]; [by left | right; by inversion Hall].
Qed.

Lemma progressed_other e p b k :
  k ≠ "progress" → k ≠ "status" → k ≠ "updated_at" →
  progressed e p b !! k = b !! k.
Proof.
  intros. unfold progressed.
  destruct (100 <=? p); by rewrite !lookup_insert_ne.
Qed.

Lemma quick_edited_other e q b k :
  k ≠ "favorite" → k ≠ "status" → k ≠ "rating" → k ≠ "tags" →
  k ≠ "updated_at" →
  quick_edited e q b !! k = b !! k.
Proof. intros. unfold quick_edited. by rewrite !lookup_insert_ne. Qed.

Lemma ids_insert (db : list dict) i b b' :
  db !! i = Some b → b' !! "id" = b !! "id" → ids (<[i := b']> db) = ids db.
Proof.
  intros Hi Hid. unfold ids. rewrite list_fmap_insert, Hid.
  apply list_insert_id. by rewrite list_lookup_fmap, Hi.
Qed.

(** [db.remove(b)] that returns has removed one position. *)
Lemma list_remove_delete b db db' :
  list_remove b db = Ok db' →
  ∃ j x, db !! j = Some x ∧ dict_eq x b = true
         ∧ (∀ i y, (i < j)%nat → db !! i = Some y → dict_eq y b = false)
         ∧ db' = delete j db.
Proof.
  revert db'. induction db as [|x db IH]; intros db'; simpl; [done |].
  destruct (dict_eq x b) eqn:Hx.
  - intros [= <-]. exists 0%nat, x. repeat split; [done | lia].
  - intros (rest & (j & y & Hj & Hy & Hfirst & ->)%IH & ->)%fmap_Ok.
    exists (S j), y. repeat split; [done.. |].
    intros [|i] z Hi; simpl; [by intros [= <-] |].
    apply Hfirst. lia.
Qed.

Lemma ids_delete (db : list dict) j : ids (delete j db) = delete j (ids db).
Proof.
  unfold ids. revert j. induction db as [|x db IH]; intros [|j]; simpl;
    try done. by rewrite <- IH.
Qed.

Lemma form_book_new_id e f rated :
  form_book e f ∅ rated !! "id" = Some (VStr (uuid4 e)).
Proof. rewrite form_book_id. unfold get_or. by rewrite lookup_empty. Qed.

Lemma written_ids e db c db' :
  written e db c db' →
  ids db' = ids db
  ∨ ((∃ f, c = FormSave f) ∧ ids db' = (ids db ++ [Some (VStr (uuid4 e))])%list)
  ∨ ((∃ i, c = DeleteBtn i)
     ∧ ∃ j, (j < length db)%nat ∧ ids db' = delete j (ids db)).
Proof.
  intros [f rated nb Ht Hs Hr Hnb
         | f sid init rated db'' Ht Hs Hi Hr Hu
         | i b p Hi | i b q Hi | i b db'' Hi Hrm].
  - right. left. split; [eauto |]. unfold ids. rewrite fmap_app. simpl.
    do 2 f_equal.
    eapply (normalize_keeps _ _ _ "id"); [done.. | | done].
    apply form_book_new_id.
  - left. eapply update_by_id_ids; [|done].
    apply selected_Some in Hs as [_ Hne].
    destruct (form_init_id _ _ _ Hne Hi) as [Hid | [_ Hall]]; [left | by right].
    rewrite form_book_id, <- (drop_cover_id f) in *. unfold get_or.
    by rewrite Hid.
  - left. apply (ids_insert _ _ b); [done |]. by apply progressed_other.
  - left. apply (ids_insert _ _ b); [done |]. by apply quick_edited_other.
  - right. right. split; [eauto |].
    apply list_remove_delete in Hrm as (j & x & Hj & _ & _ & ->).
    exists j. split; [by eapply lookup_lt_Some |]. apply ids_delete.
Qed.

(** X8.  The ids of the records after a run are the ids before it, in
    the same order: except that a form save may have added the fresh
    UUID at the end, and a delete may have removed one position.  No
    run changes the id of a record or reorders the collection; and if
    the ids were pairwise distinct and the fresh UUID was not among
    them, they are pairwise distinct afterwards. *)
Theorem run_keeps_ids (e : environment) (r : request) (m : machine) :
  let before := ids (loaded m) in
  let after := ids (loaded (run e r m)) in
  (after = before
   ∨ ((∃ f, pressed r = FormSave f)
      ∧ after = (before ++ [Some (VStr (uuid4 e))])%list)
   ∨ ((∃ i, pressed r = DeleteBtn i)
      ∧ ∃ j, (j < length before)%nat ∧ after = delete j before))
  ∧ (NoDup before → Some (VStr (uuid4 e)) ∉ before → NoDup after).
Proof.
  intros before after.
  assert (H : after = before
   ∨ ((∃ f, pressed r = FormSave f)
      ∧ after = (before ++ [Some (VStr (uuid4 e))])%list)
   ∨ ((∃ i, pressed r = DeleteBtn i)
      ∧ ∃ j, (j < length before)%nat ∧ after = delete j before)).
  { subst before after.
    change (loaded (run e r m)) with (default [] (books_db (run e r m))).
    destruct (run_written e r m) as [-> | (_ & db' & -> & Hw)]; [by left |].
    simpl. apply written_ids in Hw as [? | [[? ?] | [? (j & Hj & ?)]]]; auto.
    right. right. split; [done |]. exists j. split; [|done].
    unfold ids. by rewrite length_fmap. }
  split; [done |]. intros Hnd Hfresh.
  destruct H as [-> | [[_ ->] | [_ (j & _ & ->)]]]; [done | |].
  - apply NoDup_app. split; [done |]. split.
    + intros x Hx ->%list_elem_of_singleton. done.
    + apply NoDup_singleton.
  - eapply sublist_NoDup; [done | apply sublist_delete].
Qed.

(** ** What every write keeps *)

Lemma insert_complete k v b : complete b → complete (<[k := v]> b).
Proof.
  intros H k' Hk'. rewrite lookup_insert_is_Some.
  destruct (decide (k = k')); [by left | right; split; [done | by apply H]].
Qed.

Lemma normalize_complete st b b' : _ensure_defaults st b = Ok b' → complete b'.
Proof.
  intros (S & n & _ & _ & ->)%ensure_defaults_Ok k Hk%(defaults_fields st).
  destruct (finish st b S n !! k) eqn:Hf; [eauto |].
  apply finish_None in Hf. rewrite Hf in Hk. by destruct Hk.
Qed.

Lemma update_by_id_Forall (P : dict → Prop) st sid book db db' :
  (∀ b b', _ensure_defaults st b = Ok b' → P b') →
  Forall P db → update_by_id st sid book db = Ok db' → Forall P db'.
Proof.
  intros HP Hdb. revert db'.
  induction Hdb as [|b db Hb Hdb IH]; intros db'; simpl.
  - intros [= <-]. constructor.
  - intros (v & _ & H)%bind_Ok. destruct (eq_str v sid).
    + apply bind_Ok in H as (nb & Hnb & [= <-]).
      constructor; [by eapply HP | done].
    + apply fmap_Ok in H as (rest & Hrest & ->).
      constructor; [done | by apply IH].
Qed.

Lemma list_remove_Forall (P : dict → Prop) b db db' :
  Forall P db → list_remove b db = Ok db' → Forall P db'.
Proof.
  intros Hdb (j & _ & _ & _ & _ & ->)%list_remove_delete.
  by apply Forall_delete.
Qed.

Lemma written_Forall (P : dict → Prop) e db c db' :
  (∀ b b', _ensure_defaults (stamps e) b = Ok b' → P b') →
  (∀ i p b, c = UpdateBtn i p → P b → P (progressed e p b)) →
  (∀ i k b, c = QuickSave i k → P b → P (quick_edited e k b)) →
  Forall P db → written e db c db' → Forall P db'.
Proof.
  intros Hnorm Hprog Hquick Hdb Hw. revert Hprog Hquick.
  destruct Hw as [f rated nb Ht Hs Hr Hnb
                 | f sid init rated db'' Ht Hs Hi Hr Hu
                 | i b p Hi | i b q Hi | i b db'' Hi Hrm];
    intros Hprog Hquick.
  - apply Forall_app. split; [done |].
    constructor; [by eapply Hnorm | constructor].
  - by eapply update_by_id_Forall.
  - apply Forall_insert; [done |]. apply (Hprog i); [reflexivity |].
    by eapply Forall_lookup_1.
  - apply Forall_insert; [done |]. apply (Hquick i); [reflexivity |].
    by eapply Forall_lookup_1.
  - by eapply list_remove_Forall.
Qed.

Lemma run_Forall (P : dict → Prop) e r m :
  (∀ b b', _ensure_defaults (stamps e) b = Ok b' → P b') →
  (∀ i p b, pressed r = UpdateBtn i p → P b → P (progressed e p b)) →
  (∀ i k b, pressed r = QuickSave i k → P b → P (quick_edited e k b)) →
  Forall P (loaded m) → Forall P (loaded (run e r m)).
Proof.
  intros Hnorm Hprog Hquick Hdb.
  change (loaded (run e r m)) with (default [] (books_db (run e r m))).
  destruct (run_written e r m) as [-> | (_ & db' & -> & Hw)]; [done |].
  simpl. by eapply written_Forall.
Qed.

(** X9.  If every record of the file has the twelve fields before a
    run, every record has them after it, whichever button was pressed:
    what the form writes went through [_ensure_defaults], and the
    other handlers only assign to fields of a record that is there. *)
Theorem run_keeps_fields (e : environment) (r : request) (m : machine) :
  Forall complete (loaded m) → Forall complete (loaded (run e r m)).
Proof.
  apply run_Forall.
  - apply normalize_complete.
  - intros _ p b _ Hb. unfold progressed.
    destruct (100 <=? p); by repeat apply insert_complete.
  - intros _ k b _ Hb. unfold quick_edited. by repeat apply insert_complete.
Qed.

Lemma ex_shelf_complete : Forall complete [ex_dune; ex_emma].
Proof.
  repeat constructor; intros k Hk; revert k Hk; apply Forall_forall; decided.
Qed.

Lemma run_keeps_fields_witness :
  Forall complete (loaded (run ex_env ex_quick_edit ex_admin)).
Proof.
  apply (run_keeps_fields ex_env ex_quick_edit ex_admin).
  exact ex_shelf_complete.
Defined.

Lemma progressed_record_ok e p b :
  0 ≤ p ≤ 100 → record_ok b → record_ok (progressed e p b).
Proof.
  intros Hp (_ & _ & (ts & Hts & Hnd & Hs)). unfold progressed.
  split; [|split].
  - exists p. split; [|done].
    rewrite lookup_insert_ne by done.
    destruct (100 <=? p); [rewrite lookup_insert_ne by done |];
      apply lookup_insert_eq.
  - intros H100. rewrite lookup_insert_ne by done.
    rewrite lookup_insert_ne in H100 by done.
    destruct (100 <=? p) eqn:Hc; [apply lookup_insert_eq |].
    rewrite lookup_insert_eq in H100. injection H100 as ->. done.
  - exists ts. split; [|done].
    rewrite lookup_insert_ne by done.
    destruct (100 <=? p); by rewrite !lookup_insert_ne.
Qed.

(** X10.  Every write path other than Quick Edit keeps the record
    invariants: if each record of the file has a progress between 0 and
    100, status "read" whenever its progress is 100, and sorted tags
    without duplicates, then so has each record after a run started by
    any button other than the Save of Quick Edit, the progress slider
    ranging over 0 to 100. *)
Theorem run_keeps_invariants (e : environment) (r : request) (m : machine) :
  (∀ i k, pressed r ≠ QuickSave i k) →
  (∀ i p, pressed r = UpdateBtn i p → 0 ≤ p ≤ 100) →
  Forall record_ok (loaded m) → Forall record_ok (loaded (run e r m)).
Proof.
  intros Hq Hp. apply run_Forall.
  - apply normalize_record_ok.
  - intros i p b Hc Hb. apply progressed_record_ok; [by eapply Hp | done].
  - intros i k b Hc. by destruct (Hq i k).
Qed.

Lemma run_keeps_invariants_witness :
  Forall record_ok
    (loaded (run ex_env (Request "" ex_all (UpdateBtn 1 100)) ex_admin)).
Proof.
  apply (run_keeps_invariants ex_env (Request "" ex_all (UpdateBtn 1 100))
           ex_admin).
  - intros i k H. discriminate H.
  - intros i p H. injection H as _ <-. lia.
  - constructor; [apply ex_dune_ok |].
    constructor; [apply ex_emma_ok | constructor].
Defined.

(** ** The sidebar totals *)

Lemma select_status_total s db :
  Forall has_status db →
  select (status_is s) db = Ok (List.filter (is_status s) db).
Proof.
  induction 1 as [|b db Hb _ IH]; simpl; [done |].
  rewrite (status_is_total s b Hb), IH. simpl.
  by destruct (is_status s b).
Qed.

Lemma select_status_raise s db :
  ¬ Forall has_status db →
  select (status_is s) db = Raise (KeyError "status").
Proof.
  induction db as [|b db IH]; intros Hno; simpl.
  - destruct Hno. constructor.
  - destruct (b !! "status") as [v|] eqn:Hv.
    + rewrite (status_is_total s b) by (by exists v). simpl.
      rewrite IH; [done |]. intros Hdb. apply Hno.
      constructor; [by exists v | done].
    + assert (status_is s b = Raise (KeyError "status")) as ->; [|done].
      unfold status_is, getitem. by rewrite Hv.
Qed.

Lemma status_counts db :
  (length (List.filter (is_status "reading") db)
   + length (List.filter (is_status "read") db)
   + length (List.filter (is_status "to_read") db) ≤ length db)%nat
  ∧ (Forall (λ b, is_status "reading" b || is_status "read" b
                  || is_status "to_read" b = true) db →
     (length (List.filter (is_status "reading") db)
      + length (List.filter (is_status "read") db)
      + length (List.filter (is_status "to_read") db) = length db)%nat).
Proof.
  induction db as [|b db [IHle IHeq]]; simpl; [split; [lia | done] |].
  assert (Hone : ∃ x y z : bool,
             is_status "reading" b = x ∧ is_status "read" b = y
             ∧ is_status "to_read" b = z
             ∧ (Nat.b2n x + Nat.b2n y + Nat.b2n z ≤ 1)%nat).
  { unfold is_status. destruct (b !! "status") as [v|].
    - destruct v as [| | |s0|]; simpl;
        try (exists false, false, false; repeat split; simpl; lia).
      destruct (s0 =? "reading")%string eqn:H1,
               (s0 =? "read")%string eqn:H2,
               (s0 =? "to_read")%string eqn:H3;
        try (apply String.eqb_eq in H1; subst s0; discriminate);
        try (apply String.eqb_eq in H2; subst s0; discriminate);
        do 3 eexists; repeat split; simpl; lia.
    - exists false, false, false. repeat split; simpl; lia. }
  destruct Hone as (x & y & z & Hx & Hy & Hz & Hsum).
  split.
  - rewrite Hx, Hy, Hz. destruct x, y, z; simpl in *; lia.
  - intros [Hb Hdb]%Forall_cons. specialize (IHeq Hdb).
    rewrite Hx, Hy, Hz in Hb |- *.
    destruct x, y, z; simpl in *; try done; lia.
Qed.

(** X11.  The sidebar totals: when every record has a status they are
    the number of records and the numbers of records whose status is
    "reading", "read" and "to_read"; when some record has none, the
    page raises [KeyError].  The three counts never add up to more
    than the total, and they add up to it when every status is one of
    the three. *)
Theorem overview_counts (db : list dict) :
  (Forall has_status db →
   overview db = Ok (length db,
                     length (List.filter (is_status "reading") db),
                     length (List.filter (is_status "read") db),
                     length (List.filter (is_status "to_read") db)))
  ∧ (¬ Forall has_status db → overview db = Raise (KeyError "status"))
  ∧ (∀ total reading read to_read,
       overview db = Ok (total, reading, read, to_read) →
       (reading + read + to_read ≤ total)%nat
       ∧ (Forall (λ b, is_status "reading" b || is_status "read" b
                       || is_status "to_read" b = true) db →
          (reading + read + to_read)%nat = total)).
Proof.
  assert (Hall : Forall has_status db →
    overview db = Ok (length db,
                      length (List.filter (is_status "reading") db),
                      length (List.filter (is_status "read") db),
                      length (List.filter (is_status "to_read") db))).
  { intros H. unfold overview. rewrite !select_status_total by done.
    reflexivity. }
  assert (Hnot : ¬ Forall has_status db →
                 overview db = Raise (KeyError "status")).
  { intros H. unfold overview. rewrite (select_status_raise "reading") by done.
    reflexivity. }
  split; [done |]. split; [done |].
  intros total reading read to_read Hov.
  destruct (decide (Forall has_status db)) as [H | H].
  - rewrite (Hall H) in Hov. injection Hov as <- <- <- <-.
    apply status_counts.
  - by rewrite (Hnot H) in Hov.
Qed.

(** ** The update loop of the form *)

Lemma update_by_id_app st sid book pre l :
  Forall (other_id sid) pre →
  update_by_id st sid book (pre ++ l)
  = (app pre <$> update_by_id st sid book l).
Proof.
  induction 1 as [|b pre (v & Hv & Hne) _ IH]; simpl.
  - by destruct (update_by_id st sid book l).
  - unfold getitem. rewrite Hv. simpl. rewrite Hne, IH.
    by destruct (update_by_id st sid book l).
Qed.

(** X12.  The loop that stores a form update replaces the first record
    whose id is the selected one by the normalised merge of the form's
    dict into it, and leaves every other record, before and after, as
    it is; when no record has the id the collection is returned
    unchanged; a record without id before any match raises
    [KeyError]. *)
Theorem update_first_match (st : stamp) (sid : string) (book : dict)
    (db : list dict) :
  (∀ pre x post,
     db = (pre ++ x :: post)%list → Forall (other_id sid) pre →
     x !! "id" = Some (VStr sid) →
     update_by_id st sid book db
     = (nb ← _ensure_defaults st (book ∪ x); Ok (pre ++ nb :: post)%list))
  ∧ (Forall (other_id sid) db → update_by_id st sid book db = Ok db)
  ∧ (∀ pre y post,
       db = (pre ++ y :: post)%list → Forall (other_id sid) pre →
       y !! "id" = None →
       update_by_id st sid book db = Raise (KeyError "id")).
Proof.
  split; [|split].
  - intros pre x post -> Hpre Hx. rewrite update_by_id_app by done.
    simpl. unfold getitem. rewrite Hx. simpl. rewrite String.eqb_refl.
    by destruct (_ensure_defaults st (book ∪ x)).
  - intros Hdb. rewrite <- (app_nil_r db) at 1.
    rewrite update_by_id_app by done. simpl. by rewrite app_nil_r.
  - intros pre y post -> Hpre Hy. rewrite update_by_id_app by done.
    simpl. unfold getitem. by rewrite Hy.
Qed.

(** ** [db.remove(b)] *)

Lemma val_eq_refl : ∀ v, val_eq v v = true.
Proof.
  fix IH 1. intros [|c|n|s|l]; simpl.
  - done.
  - by destruct c.
  - apply Z.eqb_refl.
  - apply String.eqb_refl.
  - induction l as [|x l IHl]; [done |]. by rewrite IH, IHl.
Qed.

Lemma dict_eq_spec (a b : dict) :
  dict_eq a b = true ↔
  size a = size b
  ∧ ∀ k v, a !! k = Some v → ∃ v', b !! k = Some v' ∧ val_eq v v' = true.
Proof.
  unfold dict_eq. rewrite andb_true_iff, Nat.eqb_eq, forallb_forall.
  apply and_iff_compat_l. split.
  - intros H k v Hk. apply elem_of_map_to_list, list_elem_of_In in Hk.
    specialize (H _ Hk). simpl in H.
    destruct (b !! k) as [v'|]; [eauto | done].
  - intros H [k v] Hk%list_elem_of_In%elem_of_map_to_list. simpl.
    destruct (H k v Hk) as (v' & -> & Hv). done.
Qed.

Lemma dict_eq_refl b : dict_eq b b = true.
Proof.
  apply dict_eq_spec. split; [done |]. intros k v Hk. exists v.
  split; [done | apply val_eq_refl].
Qed.

Lemma val_eq_str v s : val_eq v (VStr s) = true → v = VStr s.
Proof. destruct v; simpl; try done. by intros ->%String.eqb_eq. Qed.

(** Equal dicts have the same string under a key. *)
Lemma dict_eq_str a b k s :
  dict_eq a b = true → b !! k = Some (VStr s) → a !! k = Some (VStr s).
Proof.
  intros [Hsize Hsub]%dict_eq_spec Hb.
  assert (Hdom : dom a =@{gset string} dom b).
  { apply set_subseteq_size_eq.
    - intros k' [v Hv]%elem_of_dom. apply elem_of_dom.
      destruct (Hsub k' v Hv) as (v' & Hv' & _). eauto.
    - rewrite !size_dom. lia. }
  assert (Hk : k ∈ dom a) by (rewrite Hdom; apply elem_of_dom; eauto).
  apply elem_of_dom in Hk as [v Hv].
  destruct (Hsub k v Hv) as (v' & Hv' & Heq).
  rewrite Hb in Hv'. injection Hv' as <-.
  by apply val_eq_str in Heq as ->.
Qed.

Lemma list_remove_raise b db x :
  list_remove b db = Raise x →
  x = ValueError ∧ Forall (λ y, dict_eq y b = false) db.
Proof.
  induction db as [|y db IH]; simpl.
  - intros [= <-]. split; [done | constructor].
  - destruct (dict_eq y b) eqn:Hy; [done |].
    destruct (list_remove b db) as [r|x']; simpl; [done |].
    intros [= <-]. destruct (IH eq_refl) as [-> Hdb].
    split; [done | by constructor].
Qed.

Lemma list_remove_at b db j :
  db !! j = Some b →
  ∃ i x, (i ≤ j)%nat ∧ db !! i = Some x ∧ dict_eq x b = true
         ∧ (∀ i' y, (i' < i)%nat → db !! i' = Some y → dict_eq y b = false)
         ∧ list_remove b db = Ok (delete i db).
Proof.
  intros Hj. destruct (list_remove b db) as [db'|x] eqn:Hrm.
  - apply list_remove_delete in Hrm as (i & x & Hi & Hx & Hfirst & ->).
    exists i, x. repeat split; try done.
    destruct (decide (i ≤ j)%nat) as [|Hgt]; [done |].
    pose proof (dict_eq_refl b) as Hrefl.
    rewrite (Hfirst j b) in Hrefl; [done | lia | done].
  - apply list_remove_raise in Hrm as [_ Hall].
    rewrite Forall_lookup in Hall. specialize (Hall j b Hj). simpl in Hall.
    by rewrite dict_eq_refl in Hall.
Qed.

(** X13.  [db.remove(b)], as the Delete button calls it on a record of
    the collection, never raises: it removes the first record equal to
    [b], which is at the position of [b] or before it, and keeps the
    other records in their order, so that the collection is one record
    shorter.  When [b] has a string id that no other record has, the
    record removed is [b] itself.  The call raises [ValueError] only
    when no record is equal to [b]. *)
Theorem remove_first_equal (b : dict) (db : list dict) :
  (∀ j, db !! j = Some b →
     ∃ i x, (i ≤ j)%nat ∧ db !! i = Some x ∧ dict_eq x b = true
            ∧ (∀ i' y, (i' < i)%nat → db !! i' = Some y →
                       dict_eq y b = false)
            ∧ list_remove b db = Ok (delete i db)
            ∧ length db = S (length (delete i db)))
  ∧ (∀ j s, db !! j = Some b → b !! "id" = Some (VStr s) →
       (∀ i x, i ≠ j → db !! i = Some x → x !! "id" ≠ Some (VStr s)) →
       list_remove b db = Ok (delete j db))
  ∧ (∀ x, list_remove b db = Raise x →
       x = ValueError ∧ Forall (λ y, dict_eq y b = false) db).
Proof.
  split; [|split].
  - intros j Hj.
    destruct (list_remove_at b db j Hj) as (i & x & Hle & Hi & Hx & Hf & Hrm).
    exists i, x. repeat split; try done.
    rewrite length_delete by eauto.
    apply lookup_lt_Some in Hi. lia.
  - intros j s Hj Hid Hothers.
    destruct (list_remove_at b db j Hj) as (i & x & Hle & Hi & Hx & _ & Hrm).
    destruct (decide (i = j)) as [-> | Hne]; [done |].
    destruct (Hothers i x Hne Hi). by eapply dict_eq_str.
  - apply list_remove_raise.
Qed.

(** ** What the Save button of the form stores *)

Lemma parse_tags_fixed s :
  List.filter nonempty (strip <$> parse_tags s) = parse_tags s.
Proof.
  assert (Hclean : ∀ t, t ∈ parse_tags s → strip t = t ∧ t ≠ "").
  { intros t. apply tag_set_clean. }
  rewrite list_fmap_fixed by (intros; by apply Hclean).
  apply filter_all. intros t Ht. apply nonempty_true. by apply Hclean.
Qed.

Lemma py_int_or n : py_int (py_or (VInt n) (VInt 0)) = Ok n.
Proof.
  unfold py_or. simpl. destruct (n =? 0) eqn:H0; simpl; [|done].
  apply Z.eqb_eq in H0. by rewrite H0.
Qed.

(** Normalising a dict whose tags and progress were entered in the
    form never raises. *)
Lemma normalize_entered st d s n :
  d !! "tags" = Some (tags_val s) → d !! "progress" = Some (VInt n) →
  _ensure_defaults st d = Ok (finish st d (list_to_set (parse_tags s)) n).
Proof.
  intros Ht Hp. apply ensure_defaults_Ok.
  exists (list_to_set (parse_tags s)), n. split; [|split; [|done]].
  - unfold get_or. rewrite Ht.
    rewrite (tag_set_strings _ (parse_tags s)) by done.
    by rewrite parse_tags_fixed.
  - unfold progress_arg, get_or. rewrite Hp. apply py_int_or.
Qed.

Ltac form_field :=
  unfold form_book;
  repeat match goal with
         | |- context [if ?c then _ else _] => destruct c
         | |- context [match ?c with Some _ => _ | None => _ end] => destruct c
         end;
  repeat (rewrite lookup_insert_ne by done); try apply lookup_insert_eq.

Lemma form_book_title e f init rated :
  form_book e f init rated !! "title" = Some (VStr (strip (title f))).
Proof. form_field. Qed.

Lemma form_book_author e f init rated :
  form_book e f init rated !! "author" = Some (VStr (strip (author f))).
Proof. form_field. Qed.

Lemma form_book_notes e f init rated :
  form_book e f init rated !! "notes" = Some (VStr (strip (notes f))).
Proof. form_field. Qed.

Lemma form_book_favorite e f init rated :
  form_book e f init rated !! "favorite" = Some (VBool (favorite f)).
Proof. form_field. Qed.

Lemma form_book_tags e f init rated :
  form_book e f init rated !! "tags" = Some (tags_val (tags f)).
Proof. form_field. Qed.

Lemma form_book_progress e f init rated :
  form_book e f init rated !! "progress" = Some (VInt (progress f)).
Proof. form_field. Qed.

Lemma form_book_updated_at e f init rated :
  form_book e f init rated !! "updated_at" = Some (VStr (now e)).
Proof. form_field. Qed.

Lemma form_book_created_at e f init rated :
  form_book e f init rated !! "created_at" = None.
Proof. form_field; by rewrite lookup_empty. Qed.

Lemma form_book_status e f init rated :
  form_book e f init rated !! "status"
  = Some (VStr (if 100 <=? progress f then "read" else status f)).
Proof.
  unfold form_book. destruct (100 <=? progress f); [apply lookup_insert_eq |].
  destruct (cover_file f); [|destruct (truthy _)];
    repeat (rewrite lookup_insert_ne by done); apply lookup_insert_eq.
Qed.

(** The form's dict has a cover path when a file was uploaded, and
    otherwise when the dict it started from has one. *)
Lemma form_book_cover e f init rated :
  form_book e f init rated !! "cover_path"
  = match cover_file f with
    | Some save_path => Some (VStr save_path)
    | None => if truthy (get init "cover_path")
              then Some (get init "cover_path") else None
    end.
Proof.
  unfold form_book.
  destruct (100 <=? progress f), (cover_file f) as [p|];
    [| destruct (truthy (get init "cover_path")) | |
     destruct (truthy (get init "cover_path"))];
    repeat (rewrite lookup_insert_ne by done);
    first [apply lookup_insert_eq | apply lookup_empty].
Qed.

Lemma form_book_outside e f init rated k :
  k ∉ field_names → form_book e f init rated !! k = None.
Proof.
  intros Hk.
  assert (Hne : ∀ k', k' ∈ field_names → k' ≠ k) by (by intros k' ? ->).
  assert (Hin : ∀ k', bool_decide (k' ∈ field_names) = true → k' ≠ k).
  { intros k' Hk'%bool_decide_eq_true. by apply Hne. }
  unfold form_book.
  destruct (100 <=? progress f), (cover_file f) as [p|];
    [| destruct (truthy (get init "cover_path")) | |
     destruct (truthy (get init "cover_path"))];
    repeat (rewrite lookup_insert_ne by (by apply Hin));
    apply lookup_empty.
Qed.

(** The status after normalising a dict of the form. *)
Lemma finish_status_form st d S n v :
  d !! "status" = Some (VStr (if 100 <=? n then "read" else v)) →
  finish st d S n !! "status" = Some (VStr (if 100 <=? n then "read" else v)).
Proof.
  intros Hd. unfold finish. destruct (100 <=? clamp n) eqn:Hc.
  - rewrite lookup_insert_eq.
    destruct (100 <=? n) eqn:Hn; [done |]. unfold clamp in Hc. lia.
  - rewrite !lookup_insert_ne by done. by apply lookup_union_Some_l.
Qed.

Lemma finish_kept st d S n k v :
  k ≠ "tags" → k ≠ "progress" → k ≠ "status" →
  d !! k = Some v → finish st d S n !! k = Some v.
Proof.
  intros. rewrite finish_other by done. by apply lookup_union_Some_l.
Qed.

Lemma rating_input_new user : rating_input ∅ user = Ok (default 7 user).
Proof.
  unfold rating_input, get, get_or. rewrite lookup_empty. reflexivity.
Qed.

Lemma form_init_new db sel : selected sel = None → form_init db sel = Ok ∅.
Proof.
  unfold selected, form_init. destruct sel as [s|]; [|done].
  by destruct (nonempty s).
Qed.

Lemma book_form_add e f db m nb :
  selected (selected_id f) = None → strip (title f) ≠ "" →
  _ensure_defaults (stamps e) (form_book e f ∅ (default 7 (rating f))) = Ok nb →
  book_form e true (FormSave f) db m
  = (Ok (db ++ [nb])%list,
     Machine (can_edit m) (Some (db ++ [nb])%list) (reco_log m)
       (screen m ++ [Success "New book added ✅"])).
Proof.
  intros Hs Ht%nonempty_true Hnb. unfold book_form. simpl.
  unfold andthen at 1, lift at 1. rewrite (form_init_new _ _ Hs).
  unfold andthen at 1, lift at 1. rewrite rating_input_new.
  rewrite drop_cover_empty. unfold submit. rewrite Ht, Hs. simpl.
  unfold andthen, lift. by rewrite Hnb.
Qed.

(** X14.  On a collection whose records have their fields (the box
    that selects a record reads title, author and id of each), saving
    the form with no record selected and a title that is not blank
    never raises, the storing of an uploaded cover aside: it appends
    one record to the collection, leaves the records that were there as
    they are, writes the file and shows the success message.  The new
    record carries the fresh
    UUID as id, the creation time of the normaliser and the form's
    time as update time; title, author and notes trimmed; the tags of
    the box trimmed, without empty ones, sorted and without
    duplicates; the progress clamped to 0..100; status "read" at a
    progress of 100 or more and the chosen status otherwise; the
    rating of the box, 7 when it was left alone; and as cover path the
    uploaded file's, or [None]. *)
Theorem form_add_record (e : environment) (f : form) (db : list dict)
    (m : machine) :
  Forall complete db →
  selected (selected_id f) = None → strip (title f) ≠ "" →
  ∃ nb,
    book_form e true (FormSave f) db m
    = (Ok (db ++ [nb])%list,
       Machine (can_edit m) (Some (db ++ [nb])%list) (reco_log m)
         (screen m ++ [Success "New book added ✅"]))
    ∧ nb !! "id" = Some (VStr (uuid4 e))
    ∧ nb !! "created_at" = Some (VStr (now_created (stamps e)))
    ∧ nb !! "updated_at" = Some (VStr (now e))
    ∧ nb !! "title" = Some (VStr (strip (title f)))
    ∧ nb !! "author" = Some (VStr (strip (author f)))
    ∧ nb !! "notes" = Some (VStr (strip (notes f)))
    ∧ nb !! "favorite" = Some (VBool (favorite f))
    ∧ nb !! "rating" = Some (rating_val (default 7 (rating f)))
    ∧ nb !! "tags"
      = Some (VList (VStr <$> sorted (list_to_set (parse_tags (tags f)))))
    ∧ nb !! "progress" = Some (VInt (clamp (progress f)))
    ∧ nb !! "status"
      = Some (VStr (if 100 <=? progress f then "read" else status f))
    ∧ nb !! "cover_path"
      = Some (match cover_file f with
              | Some save_path => VStr save_path
              | None => VNone
              end).
Proof.
  intros _ Hs Ht.
  set (book := form_book e f ∅ (default 7 (rating f))).
  pose proof (normalize_entered (stamps e) book (tags f) (progress f)
                (form_book_tags _ _ _ _) (form_book_progress _ _ _ _)) as Hnb.
  eexists. split; [by apply book_form_add |].
  split; [by apply finish_kept, form_book_new_id |].
  split.
  { rewrite finish_other by done. rewrite lookup_union_r; [done |].
    apply form_book_created_at. }
  split; [by apply finish_kept, form_book_updated_at |].
  split; [by apply finish_kept, form_book_title |].
  split; [by apply finish_kept, form_book_author |].
  split; [by apply finish_kept, form_book_notes |].
  split; [by apply finish_kept, form_book_favorite |].
  split; [by apply finish_kept, form_book_rating |].
  split; [apply finish_tags |].
  split; [apply finish_progress |].
  split; [apply finish_status_form, form_book_status |].
  rewrite finish_other by done. unfold book.
  pose proof (form_book_cover e f ∅ (default 7 (rating f))) as Hc.
  destruct (cover_file f) as [p|].
  - by apply lookup_union_Some_l.
  - unfold get, get_or in Hc. rewrite lookup_empty in Hc. simpl in Hc.
    rewrite lookup_union_r; [done | exact Hc].
Qed.

Lemma form_add_record_witness :
  ∃ nb,
    book_form ex_env true (FormSave ex_new_form) [ex_dune; ex_emma] ex_admin
    = (Ok ([ex_dune; ex_emma] ++ [nb])%list,
       Machine (can_edit ex_admin) (Some ([ex_dune; ex_emma] ++ [nb])%list)
         (reco_log ex_admin)
         (screen ex_admin ++ [Success "New book added ✅"]))
    ∧ nb !! "id" = Some (VStr (uuid4 ex_env))
    ∧ nb !! "created_at" = Some (VStr (now_created (stamps ex_env)))
    ∧ nb !! "updated_at" = Some (VStr (now ex_env))
    ∧ nb !! "title" = Some (VStr (strip (title ex_new_form)))
    ∧ nb !! "author" = Some (VStr (strip (author ex_new_form)))
    ∧ nb !! "notes" = Some (VStr (strip (notes ex_new_form)))
    ∧ nb !! "favorite" = Some (VBool (favorite ex_new_form))
    ∧ nb !! "rating" = Some (rating_val (default 7 (rating ex_new_form)))
    ∧ nb !! "tags"
      = Some (VList (VStr <$> sorted (list_to_set
                                        (parse_tags (tags ex_new_form)))))
    ∧ nb !! "progress" = Some (VInt (clamp (progress ex_new_form)))
    ∧ nb !! "status"
      = Some (VStr (if 100 <=? progress ex_new_form
                    then "read" else status ex_new_form))
    ∧ nb !! "cover_path"
      = Some (match cover_file ex_new_form with
              | Some save_path => VStr save_path
              | None => VNone
              end).
Proof.
  apply (form_add_record ex_env ex_new_form [ex_dune; ex_emma] ex_admin).
  - exact ex_shelf_complete.
  - reflexivity.
  - vm_compute. discriminate.
Defined.

(** The record that form adds. *)
Example form_add_record_run :
  ∃ nb,
    books_db (run ex_env (Request "" ex_all (FormSave ex_new_form)) ex_admin)
    = Some [ex_dune; ex_emma; nb]
    ∧ nb !! "title" = Some (VStr "Ulysses")
    ∧ nb !! "tags" = Some (VList [VStr "irish"; VStr "modern"])
    ∧ nb !! "rating" = Some (VInt 7)
    ∧ nb !! "id" = Some (VStr "uuid-1").
Proof.
  exists (finish ex_stamp (form_book ex_env ex_new_form ∅ 7)
            (list_to_set ["modern"; "irish"; "modern"]) 10).
  repeat split; reflexivity.
Qed.

Lemma lookup_union_l_None (a b : dict) k : a !! k = None → (a ∪ b) !! k = b !! k.
Proof. intros H. rewrite lookup_union, H. by destruct (b !! k). Qed.

(** The cover path a form update stores: the uploaded file's, and
    otherwise the one of the record, whether or not the box "Remove
    current cover" was ticked. *)
Lemma form_update_cover e f x rated st :
  (form_book e f (drop_cover f x) rated ∪ x ∪ defaults st) !! "cover_path"
  = Some (match cover_file f with
          | Some save_path => VStr save_path
          | None => get x "cover_path"
          end).
Proof.
  pose proof (form_book_cover e f (drop_cover f x) rated) as Hc.
  destruct (cover_file f) as [p|].
  { by apply lookup_union_Some_l, lookup_union_Some_l. }
  assert (Hx : (x ∪ defaults st) !! "cover_path" = Some (get x "cover_path")).
  { unfold get, get_or. rewrite lookup_union.
    by destruct (x !! "cover_path"). }
  unfold drop_cover in Hc |- *.
  destruct (truthy (get x "cover_path")) eqn:Htr; simpl in Hc |- *.
  - destruct (remove_cover f).
    + unfold get at 1, get_or in Hc. rewrite lookup_insert_eq in Hc.
      simpl in Hc. rewrite <- assoc_L by apply _.
      by rewrite lookup_union_l_None.
    + rewrite Htr in Hc. by apply lookup_union_Some_l, lookup_union_Some_l.
  - rewrite Htr in Hc. rewrite <- assoc_L by apply _.
    by rewrite lookup_union_l_None.
Qed.

(** X15.  The Save handler of the form, with a record selected and a
    title that is not blank, never raises when the collection holds a
    record with the selected id and no record without id before it: it
    replaces the first such record, leaves every other record and the
    order as they are, writes the file and shows the success message.
    The stored record keeps the id, the creation time and every field
    the form knows nothing of; its update time is the form's; as cover
    path it has the uploaded file's and otherwise the one the record
    had, also when "Remove current cover" was ticked; the other fields
    are those of the form, normalised. *)
Theorem form_update_record (e : environment) (f : form) (db : list dict)
    (m : machine) (sid : string) (pre post : list dict) (x : dict)
    (rated : Z) :
  selected (selected_id f) = Some sid → strip (title f) ≠ "" →
  db = (pre ++ x :: post)%list → Forall (other_id sid) pre →
  x !! "id" = Some (VStr sid) →
  ∃ nb,
    submit e f (drop_cover f x) rated db m
    = (Ok (pre ++ nb :: post)%list,
       Machine (can_edit m) (Some (pre ++ nb :: post)%list) (reco_log m)
         (screen m ++ [Success "Record updated ✅"]))
    ∧ nb !! "id" = Some (VStr sid)
    ∧ nb !! "created_at"
      = Some (get_or x "created_at" (VStr (now_created (stamps e))))
    ∧ nb !! "updated_at" = Some (VStr (now e))
    ∧ nb !! "cover_path"
      = Some (match cover_file f with
              | Some save_path => VStr save_path
              | None => get x "cover_path"
              end)
    ∧ (∀ k, k ∉ field_names → nb !! k = x !! k)
    ∧ nb !! "title" = Some (VStr (strip (title f)))
    ∧ nb !! "author" = Some (VStr (strip (author f)))
    ∧ nb !! "notes" = Some (VStr (strip (notes f)))
    ∧ nb !! "favorite" = Some (VBool (favorite f))
    ∧ nb !! "rating" = Some (rating_val rated)
    ∧ nb !! "tags"
      = Some (VList (VStr <$> sorted (list_to_set (parse_tags (tags f)))))
    ∧ nb !! "progress" = Some (VInt (clamp (progress f)))
    ∧ nb !! "status"
      = Some (VStr (if 100 <=? progress f then "read" else status f)).
Proof.
  intros Hs Ht%nonempty_true -> Hpre Hx.
  set (book := form_book e f (drop_cover f x) rated).
  assert (Hnb : _ensure_defaults (stamps e) (book ∪ x)
                = Ok (finish (stamps e) (book ∪ x)
                        (list_to_set (parse_tags (tags f))) (progress f))).
  { apply normalize_entered.
    - apply lookup_union_Some_l, form_book_tags.
    - apply lookup_union_Some_l, form_book_progress. }
  eexists. split.
  { unfold submit. rewrite Ht, Hs. simpl. unfold andthen, lift.
    fold book. rewrite update_by_id_app by done. simpl.
    unfold getitem. rewrite Hx. simpl. rewrite String.eqb_refl.
    rewrite Hnb. reflexivity. }
  split.
  { apply finish_kept; try done. apply lookup_union_Some_l.
    unfold book. rewrite form_book_id. unfold get_or.
    by rewrite drop_cover_id, Hx. }
  split.
  { rewrite finish_other by done.
    rewrite <- assoc_L by apply _.
    rewrite lookup_union_l_None by apply form_book_created_at.
    unfold get_or. rewrite lookup_union.
    by destruct (x !! "created_at"). }
  split; [by apply finish_kept, lookup_union_Some_l, form_book_updated_at |].
  split; [rewrite finish_other by done; apply form_update_cover |].
  split.
  { intros k Hk.
    assert (k ≠ "tags" ∧ k ≠ "progress" ∧ k ≠ "status") as (? & ? & ?).
    { repeat split; intros ->; apply Hk;
        unfold field_names; rewrite !elem_of_cons; auto 20. }
    rewrite finish_other by done.
    rewrite <- assoc_L by apply _.
    rewrite lookup_union_l_None by (by apply form_book_outside).
    rewrite lookup_union.
    assert (Hd : defaults (stamps e) !! k = None).
    { apply eq_None_not_Some. by rewrite defaults_fields. }
    rewrite Hd. by destruct (x !! k). }
  split; [by apply finish_kept, lookup_union_Some_l, form_book_title |].
  split; [by apply finish_kept, lookup_union_Some_l, form_book_author |].
  split; [by apply finish_kept, lookup_union_Some_l, form_book_notes |].
  split; [by apply finish_kept, lookup_union_Some_l, form_book_favorite |].
  split; [by apply finish_kept, lookup_union_Some_l, form_book_rating |].
  split; [apply finish_tags |].
  split; [apply finish_progress |].
  apply finish_status_form, lookup_union_Some_l, form_book_status.
Qed.

Lemma form_update_record_witness :
  ∃ nb,
    submit ex_env ex_uncover (drop_cover ex_uncover ex_covered) 8
      [ex_dune; ex_covered] ex_admin
    = (Ok ([ex_dune] ++ nb :: [])%list,
       Machine (can_edit ex_admin) (Some ([ex_dune] ++ nb :: [])%list)
         (reco_log ex_admin)
         (screen ex_admin ++ [Success "Record updated ✅"]))
    ∧ nb !! "id" = Some (VStr "b2")
    ∧ nb !! "created_at"
      = Some (get_or ex_covered "created_at"
                (VStr (now_created (stamps ex_env))))
    ∧ nb !! "updated_at" = Some (VStr (now ex_env))
    ∧ nb !! "cover_path"
      = Some (match cover_file ex_uncover with
              | Some save_path => VStr save_path
              | None => get ex_covered "cover_path"
              end)
    ∧ (∀ k, k ∉ field_names → nb !! k = ex_covered !! k)
    ∧ nb !! "title" = Some (VStr (strip (title ex_uncover)))
    ∧ nb !! "author" = Some (VStr (strip (author ex_uncover)))
    ∧ nb !! "notes" = Some (VStr (strip (notes ex_uncover)))
    ∧ nb !! "favorite" = Some (VBool (favorite ex_uncover))
    ∧ nb !! "rating" = Some (rating_val 8)
    ∧ nb !! "tags"
      = Some (VList (VStr <$> sorted (list_to_set
                                        (parse_tags (tags ex_uncover)))))
    ∧ nb !! "progress" = Some (VInt (clamp (progress ex_uncover)))
    ∧ nb !! "status"
      = Some (VStr (if 100 <=? progress ex_uncover
                    then "read" else status ex_uncover)).
Proof.
  apply (form_update_record ex_env ex_uncover [ex_dune; ex_covered] ex_admin
           "b2" [ex_dune] [] ex_covered 8).
  - reflexivity.
  - vm_compute. discriminate.
  - reflexivity.
  - constructor; [|constructor]. exists (VStr "b1"). split; reflexivity.
  - reflexivity.
Defined.

(** The tick of "Remove current cover" leaves the stored path. *)
Example form_update_record_run :
  ∃ nb,
    books_db (run ex_env (Request "" ex_all (FormSave ex_uncover))
                (Machine true (Some [ex_dune; ex_covered]) [] []))
    = Some [ex_dune; nb]
    ∧ nb !! "cover_path" = Some (VStr "covers/emma.png")
    ∧ nb !! "progress" = Some (VInt 60).
Proof.
  exists (finish ex_stamp
            (form_book ex_env ex_uncover (drop_cover ex_uncover ex_covered) 8
             ∪ ex_covered)
            (list_to_set ["classic"]) 60).
  repeat split; reflexivity.
Qed.

(** ** Tags: from the box to the record and back *)

Lemma split_parts sep s :
  Forall (λ t, Forall (λ c, Ascii.eqb c sep = false) (list_ascii_of_string t))
         (split sep s).
Proof.
  induction s as [|c s IH]; simpl; [by repeat constructor |].
  destruct (Ascii.eqb c sep) eqn:Hc; [by constructor |].
  destruct (split sep s) as [|h t]; [by repeat constructor |].
  apply Forall_cons in IH as [Hh Ht]. constructor; [|done].
  simpl. by constructor.
Qed.

Lemma split_app_sep sep s r :
  Forall (λ c, Ascii.eqb c sep = false) (list_ascii_of_string s) →
  split sep (s ++ String sep r) = s :: split sep r.
Proof.
  induction s as [|c s IH]; simpl.
  - intros _. by rewrite Ascii.eqb_refl.
  - intros [Hc Hs]%Forall_cons. by rewrite Hc, IH.
Qed.

Lemma split_concat (ts : list string) :
  ts ≠ [] →
  Forall (λ t, Forall (λ c, Ascii.eqb c "," = false) (list_ascii_of_string t))
         ts →
  split "," (String.concat "," ts) = ts.
Proof.
  induction ts as [|x ts IH]; [done |]. intros _ [Hx Hts]%Forall_cons.
  destruct ts as [|y ts].
  - simpl. by apply split_no_separator.
  - change (String.concat "," (x :: y :: ts))
      with (x ++ String "," (String.concat "," (y :: ts))).
    rewrite split_app_sep by done. by rewrite IH.
Qed.

Lemma parse_tags_clean s : Forall clean_tag (parse_tags s).
Proof.
  apply Forall_forall. intros t Ht.
  destruct (tag_set_clean (split "," s) t Ht) as [Hstrip Hne].
  split; [done |]. split; [done |].
  apply elem_of_filter_nonempty in Ht as [_ Ht].
  apply list_elem_of_fmap in Ht as (t0 & -> & Ht0).
  apply rstrip_chars, lstrip_chars.
  exact (proj1 (Forall_forall _ _) (split_parts "," s) t0 Ht0).
Qed.

Lemma parse_concat (ts : list string) :
  Forall clean_tag ts → parse_tags (String.concat "," ts) = ts.
Proof.
  intros Hts. unfold parse_tags.
  destruct ts as [|x ts]; [done |].
  rewrite split_concat; [|done|].
  - rewrite list_fmap_fixed.
    + apply filter_all. intros t Ht. apply nonempty_true.
      by destruct (proj1 (Forall_forall _ _) Hts t Ht) as (_ & ? & _).
    + intros t Ht.
      by destruct (proj1 (Forall_forall _ _) Hts t Ht) as (? & _).
  - eapply Forall_impl; [done |]. by intros t (_ & _ & ?).
Qed.

(** X16.  Tags make the round trip through the boxes.  What a tags box
    yields is a list of tags that are trimmed, not empty and without
    comma; for a record whose tags are such, the text the box is
    filled with is the tags joined by commas, and reading that text
    gives the tags back, in their order: saving without touching the
    box keeps the tags.  In particular reading a box, filling it with
    the result and reading it again changes nothing. *)
Theorem tags_round_trip :
  (∀ s, Forall clean_tag (parse_tags s))
  ∧ (∀ ts, Forall clean_tag ts →
       join "," (VList (VStr <$> ts)) = Ok (String.concat "," ts)
       ∧ parse_tags (String.concat "," ts) = ts)
  ∧ (∀ s, parse_tags (String.concat "," (parse_tags s)) = parse_tags s).
Proof.
  split; [apply parse_tags_clean |]. split.
  - intros ts Hts. split; [|by apply parse_concat].
    unfold join. simpl.
    assert (H : mapM (as_str TypeError) (VStr <$> ts) = Ok ts).
    { apply mapM_Ok. clear. induction ts; simpl; by constructor. }
    by rewrite H.
  - intros s. apply parse_concat, parse_tags_clean.
Qed.

(** ** The session flag *)

(** X17.  The admin flag after a run: a run started by the login
    button sets it to whether the password was right, every other run
    leaves it as it was, so that admin mode lasts until a login attempt
    fails.  The password is right when it is not empty and is the
    string stored as ADMIN_PASS: the empty password never logs in, and
    without a configured secret no password does. *)
Theorem session_flag (e : environment) (r : request) (m : machine) :
  can_edit (run e r m)
  = match pressed r with
    | LoginBtn => password_ok e (pwd r)
    | _ => can_edit m
    end
  ∧ (∀ pwd, password_ok e pwd = true
            ↔ pwd ≠ "" ∧ secrets e !! "ADMIN_PASS" = Some (VStr pwd))
  ∧ password_ok e "" = false
  ∧ (secrets e !! "ADMIN_PASS" = None → ∀ pwd, password_ok e pwd = false).
Proof.
  assert (Hok : ∀ pwd, password_ok e pwd = true
                       ↔ pwd ≠ "" ∧ secrets e !! "ADMIN_PASS" = Some (VStr pwd)).
  { intros pwd. unfold password_ok, get_or.
    rewrite andb_true_iff, nonempty_true, eq_str_true.
    destruct (secrets e !! "ADMIN_PASS") as [v|]; simpl.
    - split; [by intros [? ->] | by intros [? [= ->]]].
    - split; [by intros [? [= <-]] | by intros [? ?]]. }
  split; [|split; [done | split]].
  - unfold run. rewrite script_unfold.
    destruct (page_writes e r (after_login e r m).1 (after_login e r m).2)
      as [-> _].
    unfold after_login. destruct (pressed r); try done.
    by destruct (password_ok e (pwd r)).
  - done.
  - intros Hnone pwd. destruct (password_ok e pwd) eqn:Hp; [|done].
    apply Hok in Hp as [_ Hp]. congruence.
Qed.

(** ** The recommendation log *)

Lemma silent_pure {A} (a : A) : silent (pure a).
Proof. by intros m. Qed.

Lemma silent_lift {A} (x : exc A) : silent (lift x).
Proof. by intros m. Qed.

Lemma silent_say (n : notice) : silent (say n).
Proof. by intros m. Qed.

Lemma silent_load : silent _load_db.
Proof. by intros m. Qed.

Lemma silent_save (db : list dict) : silent (_save_db db).
Proof. by intros m. Qed.

Lemma silent_andthen {A B} (c : act A) (k : A → act B) :
  silent c → (∀ a, silent (k a)) → silent (andthen c k).
Proof.
  intros Hc Hk m. unfold andthen. specialize (Hc m).
  destruct (c m) as [[a|x] m']; simpl in *; [|done].
  by rewrite Hk.
Qed.

Lemma silent_for_each {A} (l : list A) (body : A → list dict → act (list dict))
    (db : list dict) :
  (∀ x d, silent (body x d)) → silent (for_each l body db).
Proof.
  intros Hb. revert db. induction l as [|x l IH]; intros db; simpl.
  - apply silent_pure.
  - apply silent_andthen; [apply Hb | apply IH].
Qed.

Ltac hush :=
  repeat first
    [ apply silent_pure | apply silent_lift | apply silent_say
    | apply silent_load | apply silent_save
    | apply silent_andthen; [|intros ?]
    | apply silent_for_each; intros ? ?
    | match goal with
      | |- silent (match ?x with _ => _ end) => destruct x eqn:?
      end ].

Lemma silent_book_form e ce c db : silent (book_form e ce c db).
Proof. unfold book_form, submit. hush. Qed.

Lemma silent_currently_reading e ce c db :
  silent (currently_reading e ce c db).
Proof. unfold currently_reading, update_progress. hush. Qed.

Lemma silent_library e ce f c db : silent (library e ce f c db).
Proof. unfold library, quick_save, delete_book. hush. Qed.

Lemma silent_recommendations e ce c db : silent (recommendations e ce c db).
Proof.
  unfold recommendations.
  apply silent_andthen; [apply silent_lift | intros read].
  destruct read as [|b0 read]; [apply silent_say |].
  apply silent_andthen; [apply silent_say | intros _].
  apply silent_andthen; [apply silent_lift | intros lines].
  apply silent_andthen; [apply silent_say | intros _].
  apply silent_andthen; [apply silent_say | intros _].
  destruct c; try apply silent_pure.
  unfold generate.
  destruct (service e (build_prompt g lines)) as [out|err];
    [|apply silent_say].
  apply silent_andthen; [apply silent_say | intros _].
  apply silent_andthen; [apply silent_say | intros _].
  unfold save_button. rewrite andb_false_r.
  destruct (negb ce); [apply silent_say | apply silent_pure].
Qed.

Lemma silent_page e r ce : silent (page e r ce).
Proof.
  unfold page.
  apply silent_andthen; [apply silent_load | intros db].
  apply silent_andthen; [apply silent_lift | intros _].
  apply silent_andthen; [apply silent_book_form | intros db1].
  apply silent_andthen; [apply silent_currently_reading | intros db2].
  apply silent_andthen; [apply silent_library | intros db3].
  apply silent_recommendations.
Qed.

Lemma run_log e r m : reco_log (run e r m) = reco_log m.
Proof.
  unfold run. rewrite script_unfold, silent_page.
  unfold after_login. destruct (pressed r); try done.
  by destruct (password_ok e (pwd r)).
Qed.

(** X18.  No run writes the recommendation log.  The only write to it
    sits under the Save Recommendations button, which the page draws
    inside the block of the Generate button.  A button is pressed only
    in the run that its own click starts: in the run of a click on
    Generate the Save button is not pressed, and the run of a click on
    Save does not enter the block of the Generate button.  So, in admin
    mode or not, whatever the service answers and whichever button
    started the run, the log after the run is the log before it, and
    so it is after any session. *)
Theorem log_never_written (e : environment) (r : request) (m : machine) :
  reco_log (run e r m) = reco_log m
  ∧ ∀ rs, reco_log (session m rs) = reco_log m.
Proof.
  split; [apply run_log |]. intros rs. revert m.
  induction rs as [|[e' r'] rs IH]; intros m; simpl; [done |].
  by rewrite IH, run_log.
Qed.

(** ** The seed lines in the prompt *)

Lemma append_assoc (a b c : string) : ((a ++ b) ++ c = a ++ (b ++ c))%string.
Proof.
  induction a as [|x a IH]; [done |].
  change (String x ((a ++ b) ++ c) = String x (a ++ b ++ c))%string.
  by rewrite IH.
Qed.

Lemma append_empty_r (a : string) : (a ++ "" = a)%string.
Proof.
  induction a as [|x a IH]; [done |].
  change (String x (a ++ "") = String x a)%string. by rewrite IH.
Qed.

Lemma occurs_in_refl s : occurs_in s s.
Proof. exists "", "". simpl. by rewrite append_empty_r. Qed.

Lemma occurs_in_trans a b c : occurs_in a b → occurs_in b c → occurs_in a c.
Proof.
  intros (p1 & q1 & ->) (p2 & q2 & ->).
  exists (p2 ++ p1)%string, (q1 ++ q2)%string.
  by rewrite !append_assoc.
Qed.

Lemma occurs_in_app_l a b c : occurs_in a b → occurs_in a (c ++ b).
Proof.
  intros (p & q & ->). exists (c ++ p)%string, q. by rewrite append_assoc.
Qed.

Lemma occurs_in_app_r a b c : occurs_in a b → occurs_in a (b ++ c).
Proof.
  intros (p & q & ->). exists p, (q ++ c)%string. by rewrite !append_assoc.
Qed.

Lemma concat_cons sep x l :
  String.concat sep (x :: l)
  = match l with [] => x | _ => (x ++ sep ++ String.concat sep l)%string end.
Proof. by destruct l. Qed.

Lemma occurs_in_concat sep (l : list string) x :
  x ∈ l → occurs_in x (String.concat sep l).
Proof.
  induction l as [|y l IH]; [by intros ?%elem_of_nil |].
  rewrite concat_cons. intros [-> | Hx]%elem_of_cons.
  - destruct l; [apply occurs_in_refl |].
    apply occurs_in_app_r, occurs_in_refl.
  - destruct l as [|z l]; [by apply elem_of_nil in Hx |].
    by apply occurs_in_app_l, occurs_in_app_l, IH.
Qed.

(** The line of a favourite says so. *)
Lemma seed_line_fav b s :
  seed_line b = Ok s → truthy (get b "favorite") = true →
  occurs_in "fav:yes" s.
Proof.
  unfold seed_line.
  intros (tags & _ & (t & _ & [= <-])%bind_Ok)%bind_Ok ->.
  do 9 apply occurs_in_app_l.
  exists "  [",
    ("]" ++ "  [rating:" ++ py_str (py_or (get b "rating") (VStr "-"))
     ++ "]")%string.
  reflexivity.
Qed.

(** X19.  The prompt lists the seed lines it is given: every line when
    "favorites only" is off, and when it is on every line in which
    "fav:yes" occurs, which the line of each favourite does, whatever
    its title, author, tags and rating are.  So a favourite among the
    first 40 read books is never left out of the prompt. *)
Theorem prompt_keeps_favourites (g : reco) (lines : list string) :
  (∀ s, s ∈ lines → only_favs g = false ∨ occurs_in "fav:yes" s →
        occurs_in s (build_prompt g lines))
  ∧ (∀ b s, seed_line b = Ok s → truthy (get b "favorite") = true →
            s ∈ lines → occurs_in s (build_prompt g lines)).
Proof.
  assert (Hkeep : ∀ s, s ∈ lines →
            only_favs g = false ∨ occurs_in "fav:yes" s →
            occurs_in s (build_prompt g lines)).
  { intros s Hs Hfav. unfold build_prompt.
    eapply occurs_in_trans; [|apply occurs_in_concat].
    2:{ do 12 apply list_elem_of_further. apply list_elem_of_here. }
    apply occurs_in_concat.
    apply list_elem_of_In, filter_In. split; [by apply list_elem_of_In |].
    destruct Hfav as [-> | Hfav]; [done |].
    destruct (only_favs g); [by apply str_in_spec | done]. }
  split; [done |]. intros b s Hb Hfav Hs. apply Hkeep; [done |].
  right. by eapply seed_line_fav.
Qed.

(** ** The buttons of the rows *)

Lemma ids_unique db i j b x s :
  NoDup (ids db) → db !! i = Some b → db !! j = Some x →
  b !! "id" = Some (VStr s) → x !! "id" = Some (VStr s) → i = j.
Proof.
  intros Hnd Hi Hj Hb Hx.
  eapply (NoDup_lookup (ids db)); [done | |];
    unfold ids; rewrite list_lookup_fmap.
  - by rewrite Hi; simpl; rewrite Hb.
  - by rewrite Hj; simpl; rewrite Hx.
Qed.

Lemma ex_shelf_presentable : Forall presentable [ex_dune; ex_emma].
Proof.
  assert (Hc : Forall complete [ex_dune; ex_emma]) by exact ex_shelf_complete.
  apply Forall_cons in Hc as [Hd He]. apply Forall_cons in He as [He _].
  constructor; [|constructor; [|constructor]].
  - split; [done |]. split; [by eexists |]. split; [right; by eexists |].
    split; [exists "read"; split; [done | decided] |].
    split; [apply ex_dune_ok |]. split; [by left |].
    by exists ["Fantasy"; "scifi"].
  - split; [done |]. split; [by eexists |]. split; [right; by eexists |].
    split; [exists "reading"; split; [done | decided] |].
    split; [apply ex_emma_ok |]. split; [right; exists 8; split; [done | lia] |].
    by exists ["classic"].
Qed.

(** The page when only the Currently Reading tab can write. *)
Lemma page_reading_bound e r ce (W : list dict → list dict → Prop) m :
  (∀ f, pressed r ≠ FormSave f) →
  (∀ i k, pressed r ≠ QuickSave i k) → (∀ i, pressed r ≠ DeleteBtn i) →
  (∀ db, effect (W db) db (currently_reading e ce (pressed r) db)) →
  books_db (page e r ce m).2 = books_db m
  ∨ ∃ db', books_db (page e r ce m).2 = Some db' ∧ W (loaded m) db'.
Proof.
  intros Hf Hq Hd Hread.
  assert (H : ∀ db, writes_at_most (W db)
    (_ ↤ lift (overview db);;
     db ↤ book_form e ce (pressed r) db;;
     db ↤ currently_reading e ce (pressed r) db;;
     db ↤ library e ce (search r) (pressed r) db;;
     recommendations e ce (pressed r) db)).
  { intros db. apply wam_andthen_quiet; [apply quiet_lift |]. intros _.
    apply (wam_idle_then _ db); [by apply idle_book_form |].
    apply (wam_effect_then _ db); [apply Hread |]. intros d.
    apply quiet_andthen; [by apply idle_quiet with d, idle_library |].
    intros d2. apply quiet_recommendations. }
  exact (proj2 (H (loaded m) m)).
Qed.

(** The page when only the Library tab can write. *)
Lemma page_library_bound e r ce (W : list dict → list dict → Prop) m :
  (∀ f, pressed r ≠ FormSave f) → (∀ i p, pressed r ≠ UpdateBtn i p) →
  (∀ db, effect (W db) db (library e ce (search r) (pressed r) db)) →
  books_db (page e r ce m).2 = books_db m
  ∨ ∃ db', books_db (page e r ce m).2 = Some db' ∧ W (loaded m) db'.
Proof.
  intros Hf Hu Hlib.
  assert (H : ∀ db, writes_at_most (W db)
    (_ ↤ lift (overview db);;
     db ↤ book_form e ce (pressed r) db;;
     db ↤ currently_reading e ce (pressed r) db;;
     db ↤ library e ce (search r) (pressed r) db;;
     recommendations e ce (pressed r) db)).
  { intros db. apply wam_andthen_quiet; [apply quiet_lift |]. intros _.
    apply (wam_idle_then _ db); [by apply idle_book_form |].
    apply (wam_idle_then _ db); [by apply idle_currently_reading |].
    apply (wam_effect_then _ db); [apply Hlib |]. intros d.
    apply quiet_recommendations. }
  exact (proj2 (H (loaded m) m)).
Qed.

(** A run that no login starts, in view-only mode or through the page
    in admin mode. *)
Lemma run_bound e r m (W : list dict → list dict → Prop) :
  pressed r ≠ LoginBtn →
  (books_db (page e r true (fresh m)).2 = books_db (fresh m)
   ∨ ∃ db', books_db (page e r true (fresh m)).2 = Some db'
            ∧ W (loaded (fresh m)) db') →
  books_db (run e r m) = books_db m
  ∨ (can_edit m = true
     ∧ ∃ db', books_db (run e r m) = Some db' ∧ W (loaded m) db').
Proof.
  intros Hp Hpage. unfold run. rewrite script_unfold.
  assert (Hl : after_login e r m = (can_edit m, fresh m)).
  { unfold after_login. by destruct (pressed r). }
  rewrite Hl. simpl. destruct (can_edit m) eqn:Hm.
  - destruct Hpage as [H | H]; [by left | by right].
  - left. by destruct (quiet_page_view_only e r (fresh m)) as [_ ->].
Qed.

(** What the Update button can do to the collection. *)
Lemma effect_update_row e ce i p db :
  effect (λ db', ∃ b, db !! i = Some b
                      ∧ b !! "status" = Some (VStr "reading")
                      ∧ db' = <[i := progressed e p b]> db)
    db (currently_reading e ce (UpdateBtn i p) db).
Proof.
  unfold currently_reading. apply effect_lift. intros reading Hsel.
  assert (Hrows : reading
                  = List.filter (λ ib, is_status "reading" ib.2) (enumerate db)).
  { eapply select_Ok; [done |]. intros x c _ Hc.
    by apply status_is_Ok in Hc as [-> _]. }
  pose proof (select_sublist _ _ _ Hsel) as Hsub.
  apply shown_sublist in Hsub as [Hnd Hin].
  destruct reading as [|x0 rest] eqn:Hr.
  { apply idle_effect. apply idle_andthen; [apply quiet_say |].
    intros _. apply idle_pure. }
  destruct ce; cbn [andb negb].
  - apply (for_each_effect _ i); [done | |].
    + intros [j b] Hx Hj. simpl in Hj. subst j. simpl.
      rewrite Nat.eqb_refl. intros m. rewrite update_progress_eq. simpl.
      split; [done |]. right. eexists. split; [done |].
      split; [|by intros d [= <-]].
      exists b. split; [by apply Hin |]. split; [|done].
      rewrite Hrows in Hx. apply list_elem_of_In, filter_In in Hx as [_ Hst].
      unfold is_status in Hst. simpl in Hst.
      destruct (b !! "status") as [v|]; [|done].
      by apply eq_str_true in Hst as ->.
    + intros x d Hne. apply Nat.neq_sym, Nat.eqb_neq in Hne. rewrite Hne.
      apply idle_pure.
  - apply idle_effect, idle_for_each. intros x d _.
    apply idle_andthen; [apply quiet_say |]. intros _. apply idle_pure.
Qed.

(** X20.  A run started by the Update button on a card of the Currently
    Reading tab leaves the file as it was, or it ran in admin mode and
    the file is the loaded collection with one record replaced: the
    record at the clicked position, whose status was "reading".  Its
    replacement has the slider's value as progress, the status "read"
    when the value is 100 or more and "reading" otherwise, and the
    time of the update; every other field of it, and every other
    record, is as it was.  The tags are not normalised again. *)
Theorem update_button_writes (e : environment) (pw : string) (f : filters)
    (i : nat) (p : Z) (m : machine) :
  let r := Request pw f (UpdateBtn i p) in
  books_db (run e r m) = books_db m
  ∨ (can_edit m = true
     ∧ ∃ b, loaded m !! i = Some b
            ∧ b !! "status" = Some (VStr "reading")
            ∧ books_db (run e r m)
              = Some (<[i := progressed e p b]> (loaded m))
            ∧ progressed e p b !! "progress" = Some (VInt p)
            ∧ progressed e p b !! "status"
              = Some (VStr (if 100 <=? p then "read" else "reading"))
            ∧ progressed e p b !! "updated_at" = Some (VStr (now e))
            ∧ ∀ k, k ≠ "progress" → k ≠ "status" → k ≠ "updated_at" →
                   progressed e p b !! k = b !! k).
Proof.
  intros r.
  destruct (run_bound e r m
              (λ db db', ∃ b, db !! i = Some b
                              ∧ b !! "status" = Some (VStr "reading")
                              ∧ db' = <[i := progressed e p b]> db))
    as [H | (Hm & db' & Hdb' & b & Hi & Hst & ->)]; [done | | by left |].
  { apply (page_reading_bound e r true
             (λ db db', ∃ b, db !! i = Some b
                             ∧ b !! "status" = Some (VStr "reading")
                             ∧ db' = <[i := progressed e p b]> db));
      try done.
    intros db. apply effect_update_row. }
  right. split; [done |]. exists b.
  split; [done |]. split; [done |]. split; [done |].
  unfold progressed. split; [|split; [|split]].
  - rewrite lookup_insert_ne by done.
    destruct (100 <=? p); [rewrite lookup_insert_ne by done |];
      apply lookup_insert_eq.
  - rewrite lookup_insert_ne by done.
    destruct (100 <=? p); [apply lookup_insert_eq |].
    by rewrite lookup_insert_ne.
  - apply lookup_insert_eq.
  - intros k ? ? ?. by apply progressed_other.
Qed.

(** Emma, being read, taken to 100 percent. *)
Example update_button_run :
  books_db (run ex_env (Request "" ex_all (UpdateBtn 1 100)) ex_admin)
  = Some [ex_dune; progressed ex_env 100 ex_emma]
  ∧ progressed ex_env 100 ex_emma !! "status" = Some (VStr "read")
  ∧ books_db (run ex_env (Request "" ex_all (UpdateBtn 0 50)) ex_admin)
    = books_db ex_admin.
Proof. repeat split; reflexivity. Qed.

(** What the buttons of a row of the library can do to the collection. *)
Lemma effect_library_row e ce f c i db :
  (c = DeleteBtn i ∨ ∃ k, c = QuickSave i k) →
  effect (λ db', ∃ b fl, db !! i = Some b
                         ∧ library_filter snd f (enumerate db) = Ok fl
                         ∧ (i, b) ∈ fl
                         ∧ match c with
                           | QuickSave _ k => db' = <[i := quick_edited e k b]> db
                           | _ => list_remove b db = Ok db'
                           end)
    db (library e ce f c db).
Proof.
  intros Hc. unfold library. apply effect_lift. intros fl Hfl.
  pose proof (library_filter_sublist _ _ _ _ Hfl) as Hsub.
  apply shown_sublist in Hsub as [Hnd Hin].
  destruct fl as [|x0 rest] eqn:Hr.
  { apply idle_effect. apply idle_andthen; [apply quiet_say |].
    intros _. apply idle_pure. }
  destruct ce.
  2:{ apply idle_effect, idle_for_each. intros x d _. simpl.
      apply (idle_library_row false). }
  destruct Hc as [-> | [k ->]].
  - apply (for_each_effect _ i); [done | |].
    + intros [j b] Hx Hj. simpl in Hj. subst j. simpl.
      rewrite Nat.eqb_refl.
      destruct (list_remove b db) as [db'|y] eqn:Hrm;
        intros m; unfold andthen, pure; rewrite delete_book_eq, Hrm; simpl.
      * split; [done |]. right. exists db'. split; [done |].
        split; [|by intros d]. exists b, (x0 :: rest).
        split; [by apply Hin |]. done.
      * split; [done |]. left. split; [done |]. by intros d.
    + intros x d Hne. apply Nat.neq_sym, Nat.eqb_neq in Hne. simpl.
      rewrite Hne. apply (idle_library_row true).
  - apply (for_each_effect _ i); [done | |].
    + intros [j b] Hx Hj. simpl in Hj. subst j. simpl.
      rewrite Nat.eqb_refl. intros m. unfold andthen at 1.
      rewrite quick_save_eq. simpl.
      split; [done |]. right. eexists. split; [done |].
      split; [|by intros d [= <-]]. exists b, (x0 :: rest).
      split; [by apply Hin |]. done.
    + intros x d Hne. apply Nat.neq_sym, Nat.eqb_neq in Hne. simpl.
      rewrite Hne. apply (idle_library_row true).
Qed.

(** X21.  A run started by the Save button of Quick Edit leaves the
    file as it was, or it ran in admin mode and the file is the loaded
    collection with one record replaced: the record at the clicked
    position, which passes the filters of the sidebar.  Its
    replacement has the favourite tick, the chosen status, the rating
    (none for 0), the tags of the box as they were typed (trimmed and
    without empty ones, but neither sorted nor freed of duplicates) and
    the time of the update; every other field of it, the progress
    included, and every other record is as it was. *)
Theorem quick_edit_writes (e : environment) (pw : string) (f : filters)
    (i : nat) (k : quick) (m : machine) :
  let r := Request pw f (QuickSave i k) in
  books_db (run e r m) = books_db m
  ∨ (can_edit m = true
     ∧ ∃ b fl, loaded m !! i = Some b
               ∧ library_filter snd f (enumerate (loaded m)) = Ok fl
               ∧ (i, b) ∈ fl
               ∧ books_db (run e r m)
                 = Some (<[i := quick_edited e k b]> (loaded m))
               ∧ quick_edited e k b !! "favorite" = Some (VBool (new_fav k))
               ∧ quick_edited e k b !! "status" = Some (VStr (new_status k))
               ∧ quick_edited e k b !! "rating"
                 = Some (if new_rating k =? 0 then VNone
                         else VInt (new_rating k))
               ∧ quick_edited e k b !! "tags"
                 = Some (VList (VStr <$> parse_tags (new_tags k)))
               ∧ quick_edited e k b !! "updated_at" = Some (VStr (now e))
               ∧ ∀ j, j ≠ "favorite" → j ≠ "status" → j ≠ "rating" →
                      j ≠ "tags" → j ≠ "updated_at" →
                      quick_edited e k b !! j = b !! j).
Proof.
  intros r.
  destruct (run_bound e r m
              (λ db db', ∃ b fl, db !! i = Some b
                 ∧ library_filter snd f (enumerate db) = Ok fl
                 ∧ (i, b) ∈ fl
                 ∧ db' = <[i := quick_edited e k b]> db))
    as [H | (Hm & db' & Hdb' & b & fl & Hi & Hfl & Hin & ->)];
    [done | | by left |].
  { apply (page_library_bound e r true
             (λ db db', ∃ b fl, db !! i = Some b
                ∧ library_filter snd f (enumerate db) = Ok fl
                ∧ (i, b) ∈ fl
                ∧ db' = <[i := quick_edited e k b]> db)); try done.
    intros db. apply (effect_library_row e true f (QuickSave i k) i db).
    right. by exists k. }
  right. split; [done |]. exists b, fl.
  split; [done |]. split; [done |]. split; [done |]. split; [done |].
  unfold quick_edited.
  repeat split;
    try (repeat (rewrite lookup_insert_ne by done); apply lookup_insert_eq).
  intros j ? ? ? ? ?. by rewrite !lookup_insert_ne.
Qed.

(** Typing the tags of Emma anew, and a click on a row that the
    filters hide. *)
Example quick_edit_run :
  let k := Quick false "reading" 8 "novel, classic" in
  books_db (run ex_env (Request "" ex_all (QuickSave 1 k)) ex_admin)
  = Some [ex_dune; quick_edited ex_env k ex_emma]
  ∧ quick_edited ex_env k ex_emma !! "tags"
    = Some (VList [VStr "novel"; VStr "classic"])
  ∧ books_db (run ex_env (Request "" ex_fantasy (QuickSave 1 k)) ex_admin)
    = books_db ex_admin.
Proof. repeat split; reflexivity. Qed.

(** X22.  A run started by the Delete button of a row leaves the file
    as it was, or it ran in admin mode and the file is the loaded
    collection without one record, the others in their order: the
    record removed is the first that is equal to the record of the
    clicked row, a row that passes the filters of the sidebar; it is
    at the clicked position or before it, and it is the clicked record
    itself when that record's id is a string and the ids of the
    collection are pairwise distinct. *)
Theorem delete_button_writes (e : environment) (pw : string) (f : filters)
    (i : nat) (m : machine) :
  let r := Request pw f (DeleteBtn i) in
  books_db (run e r m) = books_db m
  ∨ (can_edit m = true
     ∧ ∃ b fl j x,
         loaded m !! i = Some b
         ∧ library_filter snd f (enumerate (loaded m)) = Ok fl
         ∧ (i, b) ∈ fl
         ∧ (j ≤ i)%nat ∧ loaded m !! j = Some x ∧ dict_eq x b = true
         ∧ (∀ i' y, (i' < j)%nat → loaded m !! i' = Some y →
                    dict_eq y b = false)
         ∧ books_db (run e r m) = Some (delete j (loaded m))
         ∧ length (delete j (loaded m)) = pred (length (loaded m))
         ∧ ((∃ s, b !! "id" = Some (VStr s)) → NoDup (ids (loaded m)) →
            j = i)).
Proof.
  intros r.
  destruct (run_bound e r m
              (λ db db', ∃ b fl, db !! i = Some b
                 ∧ library_filter snd f (enumerate db) = Ok fl
                 ∧ (i, b) ∈ fl
                 ∧ list_remove b db = Ok db'))
    as [H | (Hm & db' & Hdb' & b & fl & Hi & Hfl & Hin & Hrm)];
    [done | | by left |].
  { apply (page_library_bound e r true
             (λ db db', ∃ b fl, db !! i = Some b
                ∧ library_filter snd f (enumerate db) = Ok fl
                ∧ (i, b) ∈ fl
                ∧ list_remove b db = Ok db')); try done.
    intros db. apply (effect_library_row e true f (DeleteBtn i) i db).
    by left. }
  right. split; [done |].
  destruct (list_remove_at b (loaded m) i Hi)
    as (j & x & Hle & Hj & Hx & Hfirst & Hrm').
  rewrite Hrm' in Hrm. injection Hrm as <-.
  exists b, fl, j, x. repeat split; try done.
  - rewrite length_delete by eauto. lia.
  - intros [s Hs] Hids. symmetry. eapply ids_unique; try done.
    by eapply dict_eq_str.
Qed.

(** Deleting Emma, and a click on a row that the filters hide. *)
Example delete_button_run :
  books_db (run ex_env (Request "" ex_all (DeleteBtn 1)) ex_admin)
  = Some [ex_dune]
  ∧ books_db (run ex_env (Request "" ex_fantasy (DeleteBtn 1)) ex_admin)
    = books_db ex_admin.
Proof. repeat split; reflexivity. Qed.

(** ** The page can show what it wrote *)

Lemma update_by_id_merge (P : dict → Prop) st sid book db db' :
  (∀ b nb, P b → _ensure_defaults st (book ∪ b) = Ok nb → P nb) →
  Forall P db → update_by_id st sid book db = Ok db' → Forall P db'.
Proof.
  intros HP Hdb. revert db'.
  induction Hdb as [|b db Hb Hdb IH]; intros db'; simpl.
  - intros [= <-]. constructor.
  - intros (v & _ & H)%bind_Ok. destruct (eq_str v sid).
    + apply bind_Ok in H as (nb & Hnb & [= <-]).
      constructor; [by eapply HP | done].
    + apply fmap_Ok in H as (rest & Hrest & ->).
      constructor; [done | by apply IH].
Qed.

Lemma read_or_chosen n v :
  v ∈ ["to_read"; "reading"; "read"] →
  (if 100 <=? n then "read" else v) ∈ ["to_read"; "reading"; "read"].
Proof.
  intros Hv. destruct (100 <=? n); [|done].
  do 2 apply list_elem_of_further. apply list_elem_of_here.
Qed.

(** A normalised dict of the form is a record the page can show. *)
Lemma presentable_form e f init rated d nb :
  status f ∈ ["to_read"; "reading"; "read"] → 1 ≤ rated ≤ 10 →
  (∀ k v, form_book e f init rated !! k = Some v → d !! k = Some v) →
  _ensure_defaults (stamps e) d = Ok nb →
  presentable nb.
Proof.
  intros Hst Hr Hd Hnb.
  pose proof (normalize_complete _ _ _ Hnb) as Hc.
  rewrite (normalize_entered _ d (tags f) (progress f)) in Hnb;
    [| apply Hd, form_book_tags | apply Hd, form_book_progress].
  injection Hnb as <-.
  split; [done |].
  split; [eexists; by apply finish_kept, Hd, form_book_title |].
  split; [right; eexists; by apply finish_kept, Hd, form_book_author |].
  split.
  { eexists. split; [apply finish_status_form, Hd, form_book_status |].
    by apply read_or_chosen. }
  split; [exists (clamp (progress f)); split;
          [apply finish_progress | apply clamp_range] |].
  split.
  { right. exists rated. split; [|done].
    rewrite <- (rating_val_range rated Hr).
    by apply finish_kept, Hd, form_book_rating. }
  eexists. apply finish_tags.
Qed.

Lemma presentable_progressed e p b :
  0 ≤ p ≤ 100 → presentable b → presentable (progressed e p b).
Proof.
  intros Hp (Hc & (t & Ht) & Ha & (s & Hs & Hin) & _ & Hr & (ts & Hts)).
  split.
  { unfold progressed. destruct (100 <=? p); by repeat apply insert_complete. }
  rewrite (progressed_other e p b "title"), (progressed_other e p b "author"),
    (progressed_other e p b "rating"), (progressed_other e p b "tags") by done.
  split; [eauto |]. split; [done |]. split.
  { exists (if 100 <=? p then "read" else s).
    split; [|by apply read_or_chosen]. unfold progressed.
    rewrite lookup_insert_ne by done.
    destruct (100 <=? p); [apply lookup_insert_eq |].
    by rewrite lookup_insert_ne. }
  split; [|split; [done | eauto]].
  exists p. split; [|done]. unfold progressed.
  rewrite lookup_insert_ne by done.
  destruct (100 <=? p); [rewrite lookup_insert_ne by done |];
    apply lookup_insert_eq.
Qed.

Lemma presentable_quick_edited e k b :
  new_status k ∈ ["to_read"; "reading"; "read"] → 1 ≤ new_rating k ≤ 10 →
  presentable b → presentable (quick_edited e k b).
Proof.
  intros Hst Hr (Hc & (t & Ht) & Ha & _ & (p & Hp & Hrange) & _ & _).
  split; [unfold quick_edited; by repeat apply insert_complete |].
  rewrite (quick_edited_other e k b "title"),
    (quick_edited_other e k b "author") by done.
  split; [eauto |]. split; [done |].
  unfold quick_edited. split.
  { exists (new_status k). split; [|done].
    repeat (rewrite lookup_insert_ne by done). apply lookup_insert_eq. }
  split.
  { exists p. split; [|done]. by rewrite !lookup_insert_ne. }
  split.
  { right. exists (new_rating k). split; [|done].
    rewrite <- (rating_val_range _ Hr).
    repeat (rewrite lookup_insert_ne by done). apply lookup_insert_eq. }
  eexists. rewrite lookup_insert_ne by done. apply lookup_insert_eq.
Qed.

Lemma written_presentable e db c db' :
  in_range c → Forall presentable db → written e db c db' →
  Forall presentable db'.
Proof.
  intros Hc Hdb Hw. revert Hc.
  destruct Hw as [f rated nb Ht Hs Hr Hnb
                 | f sid init rated db'' Ht Hs Hi Hr Hu
                 | i b p Hi | i b q Hi | i b db'' Hi Hrm]; simpl.
  - intros (Hst & _ & Hbox). apply Forall_app. split; [done |].
    constructor; [|constructor].
    eapply (presentable_form e f ∅ rated); [done | | | done].
    + by eapply rating_input_range.
    + done.
  - intros (Hst & _ & Hbox).
    pose proof (rating_input_range _ _ _ Hbox Hr) as Hrange.
    eapply update_by_id_merge; [|done|done].
    intros b nb _ Hnb.
    eapply (presentable_form e f (drop_cover f init) rated); [done.. | | done].
    intros k v Hk. by apply lookup_union_Some_l.
  - intros Hp. apply Forall_insert; [done |].
    apply presentable_progressed; [done |]. by eapply Forall_lookup_1.
  - intros [Hst Hr]. apply Forall_insert; [done |].
    apply presentable_quick_edited; [done.. |]. by eapply Forall_lookup_1.
  - intros _. by eapply list_remove_Forall.
Qed.

(** X23.  The page can show what it wrote.  If every record of the
    file is one the page can show (the twelve fields, a string title,
    one of the three statuses, a progress between 0 and 100, a rating
    that is [None] or between 1 and 10, tags that are strings), and the
    click carries what the widgets allow, then after the run every
    record of the file is again one the page can show: no button,
    Quick Edit included, stores a record on which a later run would
    raise. *)
Theorem run_keeps_presentable (e : environment) (r : request) (m : machine) :
  in_range (pressed r) →
  Forall presentable (loaded m) → Forall presentable (loaded (run e r m)).
Proof.
  intros Hc Hdb.
  change (loaded (run e r m)) with (default [] (books_db (run e r m))).
  destruct (run_written e r m) as [-> | (_ & db' & -> & Hw)]; [done |].
  simpl. by eapply written_presentable.
Qed.

Lemma run_keeps_presentable_witness :
  Forall presentable (loaded (run ex_env ex_quick_edit ex_admin)).
Proof.
  apply (run_keeps_presentable ex_env ex_quick_edit ex_admin).
  - split; [decided | simpl; lia].
  - exact ex_shelf_presentable.
Defined.

(** ** When the normaliser raises *)

Lemma mapM_strip_of_bad (items : list pyval) (v : pyval) :
  v ∈ items → (∀ s, v ≠ VStr s) → mapM strip_of items = Raise AttributeError.
Proof.
  intros Hv Hs. induction items as [|w items IH]; [by apply elem_of_nil in Hv |].
  destruct w as [|c|n|s|l]; simpl; try done.
  apply elem_of_cons in Hv as [-> | Hv]; [by destruct (Hs s) |].
  by rewrite (IH Hv).
Qed.

Lemma progress_arg_text (b : dict) (s : string) :
  b !! "progress" = Some (VStr s) → s ≠ "" → progress_arg b = VStr s.
Proof.
  intros Hp Hs. unfold progress_arg, py_or, get_or. rewrite Hp. simpl.
  by destruct s.
Qed.

Lemma progress_arg_list (b : dict) (l : list pyval) :
  b !! "progress" = Some (VList l) → l ≠ [] → progress_arg b = VList l.
Proof.
  intros Hp Hl. unfold progress_arg, py_or, get_or. rewrite Hp. simpl.
  by destruct l.
Qed.

(** X24.  How [_ensure_defaults] raises on records of JSON scalars,
    texts and lists.  When the tags are [None], a boolean or an integer
    it raises [TypeError].  When the tags can be iterated and hold an
    item that is not a string, it raises [AttributeError].  When the
    tags are all strings: it returns if [int] can read the progress (or
    the default 0 that stands in for a falsy one); it raises
    [ValueError] if the progress is a non-empty string that [int]
    cannot read; and it raises [TypeError] if the progress is a
    non-empty list.  The tags are looked at before the progress. *)
Theorem normalize_raises (e : stamp) (b : dict) :
  (∀ v, b !! "tags" = Some v →
        v = VNone ∨ (∃ c, v = VBool c) ∨ (∃ z, v = VInt z) →
        _ensure_defaults e b = Raise TypeError)
  ∧ (∀ items v, py_iter (get_or b "tags" (VList [])) = Ok items →
                v ∈ items → (∀ s, v ≠ VStr s) →
                _ensure_defaults e b = Raise AttributeError)
  ∧ (∀ ts, py_iter (get_or b "tags" (VList [])) = Ok (VStr <$> ts) →
       (∀ n, py_int (progress_arg b) = Ok n →
             ∃ b', _ensure_defaults e b = Ok b')
       ∧ (∀ s, b !! "progress" = Some (VStr s) → s ≠ "" →
               int_of_str s = Raise ValueError →
               _ensure_defaults e b = Raise ValueError)
       ∧ (∀ l, b !! "progress" = Some (VList l) → l ≠ [] →
               _ensure_defaults e b = Raise TypeError)).
Proof.
  rewrite ensure_defaults_unfold. split; [|split].
  - intros v Hv Hcase. unfold tag_set, get_or. rewrite Hv.
    by destruct Hcase as [-> | [[c ->] | [z ->]]].
  - intros items v Hit Hv Hs. unfold tag_set. rewrite Hit. simpl.
    by rewrite (mapM_strip_of_bad items v).
  - intros ts Hts. rewrite (tag_set_strings _ _ Hts).
    split; [|split].
    + intros n Hn. unfold mbind, exc_bind. rewrite Hn. by eexists.
    + intros s Hp Hs Hi. rewrite (progress_arg_text b s Hp Hs).
      unfold mbind, exc_bind. change (py_int (VStr s)) with (int_of_str s).
      by rewrite Hi.
    + intros l Hp Hl. by rewrite (progress_arg_list b l Hp Hl).
Qed.

(** One record for each way of raising. *)
Example normalize_raises_run :
  _ensure_defaults ex_stamp {["tags" := VNone]} = Raise TypeError
  ∧ _ensure_defaults ex_stamp {["tags" := VList [VStr "a"; VInt 1]]}
    = Raise AttributeError
  ∧ _ensure_defaults ex_stamp {["progress" := VStr "abc"]} = Raise ValueError
  ∧ _ensure_defaults ex_stamp {["progress" := VList [VInt 1]]}
    = Raise TypeError
  ∧ _ensure_defaults ex_stamp
      (<["tags" := VNone]> {["progress" := VStr "abc"]}) = Raise TypeError.
Proof. repeat split; reflexivity. Qed.

(** ** Saving the form on an id that no record has *)

(** X25.  When the form is saved with a record selected whose id no
    record of the collection carries, every record having an id, the
    handler changes nothing: it writes the collection as it was, and
    still shows "Record updated". *)
Theorem form_update_unknown_id (e : environment) (f : form) (init : dict)
    (rated : Z) (db : list dict) (m : machine) (sid : string) :
  selected (selected_id f) = Some sid → strip (title f) ≠ "" →
  Forall (other_id sid) db →
  submit e f init rated db m
  = (Ok db, Machine (can_edit m) (Some db) (reco_log m)
              (screen m ++ [Success "Record updated ✅"])).
Proof.
  intros Hs Ht%nonempty_true Hdb. unfold submit. rewrite Ht, Hs. simpl.
  unfold andthen, lift.
  rewrite <- (app_nil_r db) at 1. rewrite update_by_id_app by done.
  simpl. by rewrite app_nil_r.
Qed.

Lemma form_update_unknown_id_witness :
  submit ex_env ex_resave ∅ 7 [ex_emma] ex_admin
  = (Ok [ex_emma], Machine (can_edit ex_admin) (Some [ex_emma])
                     (reco_log ex_admin)
                     (screen ex_admin ++ [Success "Record updated ✅"])).
Proof.
  apply (form_update_unknown_id ex_env ex_resave ∅ 7 [ex_emma] ex_admin "b1").
  - reflexivity.
  - vm_compute. discriminate.
  - constructor; [|constructor]. exists (VStr "b2"). split; reflexivity.
Defined.

(** ** Sessions *)

Lemma run_log_grows e r m :
  ∃ extra, reco_log (run e r m) = (reco_log m ++ extra)%list
           ∧ (length extra ≤ 1)%nat.
Proof.
  exists []. rewrite app_nil_r, run_log. split; [done | simpl; lia].
Qed.

Lemma run_flag e r m :
  pressed r ≠ LoginBtn → can_edit (run e r m) = can_edit m.
Proof.
  intros Hp. unfold run. rewrite script_unfold.
  destruct (page_writes e r (after_login e r m).1 (after_login e r m).2)
    as [-> _].
  unfold after_login. by destruct (pressed r).
Qed.

(** X26.  Over a whole session, whatever is clicked and in whatever
    order: the recommendation log only grows, by one entry per run at
    most, what was logged staying in place; records that have the
    twelve fields keep them; records the page can show stay such
    records as long as every click carries what the widgets allow; and
    the admin flag changes only in runs started by the login button. *)
Theorem session_keeps (m : machine) (rs : list (environment * request)) :
  (∃ extra, reco_log (session m rs) = (reco_log m ++ extra)%list
            ∧ (length extra ≤ length rs)%nat)
  ∧ (Forall complete (loaded m) → Forall complete (loaded (session m rs)))
  ∧ (Forall (λ er, in_range (pressed er.2)) rs →
     Forall presentable (loaded m) →
     Forall presentable (loaded (session m rs)))
  ∧ (Forall (λ er, pressed er.2 ≠ LoginBtn) rs →
     can_edit (session m rs) = can_edit m).
Proof.
  revert m. induction rs as [|[e r] rs IH]; intros m; simpl.
  { split; [exists []; rewrite app_nil_r; split; [done | simpl; lia] |].
    done. }
  destruct (IH (run e r m)) as ((extra & Hlog & Hlen) & Hc & Hp & Hf).
  split; [|split; [|split]].
  - destruct (run_log_grows e r m) as (x1 & H1 & Hl1).
    exists (x1 ++ extra)%list. rewrite Hlog, H1, app_assoc.
    split; [done |]. rewrite length_app. lia.
  - intros Hm. apply Hc. revert Hm. apply run_Forall.
    + apply normalize_complete.
    + intros _ p b _ Hb. unfold progressed.
      destruct (100 <=? p); by repeat apply insert_complete.
    + intros _ k b _ Hb. unfold quick_edited.
      by repeat apply insert_complete.
  - intros [Hr Hrs]%Forall_cons Hm. apply Hp; [done |].
    change (loaded (run e r m)) with (default [] (books_db (run e r m))).
    destruct (run_written e r m) as [-> | (_ & db' & -> & Hw)]; [done |].
    simpl. by eapply written_presentable.
  - intros [Hr Hrs]%Forall_cons. rewrite Hf by done. by apply run_flag.
Qed.
